(** * Telemetry Vault: the worker's data pipeline

    A shallow embedding of [src/workers/telemetryWorker.ts] (random source,
    event generator, filter engine, aggregation engine, message handler) and
    of the bucket-size policy of the [useTelemetryData] hook, with the
    properties of the specification stated and settled against it.

    The state the interface keeps around the worker is embedded as well:
    the filter state of the hook and its updates, the callbacks of the filter
    bar and of the time range picker, the statistics of the hook and its
    handler of the worker's messages.  Rendering is left out.

    Modelling conventions.
    - Timestamps, counts, array indices, bucket sizes and clock readings are
      JavaScript numbers that hold integers; they are modelled as [Z].  On
      integers of magnitude below 2^52 the operations the source applies to
      them ([+], [-], comparisons, [Math.floor] of a quotient and its
      product with the divisor) are exact in binary64, so [Z] arithmetic
      describes them.  Near 2^53 and beyond it does not: the theorems about
      bucket keys and about the timestamps of generated events state the
      bounds under which it does ([exactTime], a bound on the span, or on
      timestamp and bucket size), and [bucketKeyBinary64_exact] proves that
      under them the key the source computes in binary64, operation by
      operation, is the integer key of the model.  The one place where such
      a computation leaves the integers by design, a bucket key computed
      with bucket size zero, is modelled by the [NaN] case of [BucketKey].
    - Event values and every intermediate fraction are binary64 numbers,
      modelled by [spec_float] with the IEEE 754 operations of [SpecFloat]
      at precision 53: sums, quotients and products round as they do in the
      engine.
    - 32-bit integer operations ([Math.imul], [^], [|], [>>>]) are modelled on
      [Z] with the wrap-around written out.  The seed of the random source
      is a binary64 number: [seed += 0x6D2B79F5] rounds once the seed has
      passed 2^53.
    - Strings are [string]; [toLowerCase] is modelled on ASCII letters, which
      is what it does on strings of ASCII characters.  The theorems that
      state what the search clause selects carry the hypothesis that the
      query and the messages are such strings ([asciiQuery],
      [asciiMessage]).
    - React state is modelled by the values it holds: a callback is a
      function of the state its component was rendered with, and an update
      [setFilters] merges is a record of optional keys. *)

From Stdlib Require Import ZArith List String Ascii Bool Lia.
From Stdlib Require Import Permutation Sorted.
From Stdlib Require Import Floats.SpecFloat.
Import ListNotations.

Open Scope Z_scope.

(* ================================================================== *)
(** * JavaScript primitives used by the worker *)
(* ================================================================== *)

Module JS.

(** ** Strings *)

(** [String.prototype.toLowerCase], on ASCII letters. *)
Definition lowerChar (c : ascii) : ascii :=
  let n := nat_of_ascii c in
  if (andb (Nat.leb 65 n) (Nat.leb n 90)) then ascii_of_nat (n + 32) else c.

Fixpoint toLowerCase (s : string) : string :=
  match s with
  | EmptyString => EmptyString
  | String c r => String (lowerChar c) (toLowerCase r)
  end.

(** [String.prototype.startsWith]. *)
Fixpoint startsWith (s p : string) {struct p} : bool :=
  match p with
  | EmptyString => true
  | String a p' =>
      match s with
      | EmptyString => false
      | String b s' => andb (Ascii.eqb a b) (startsWith s' p')
      end
  end.

(** [String.prototype.includes]: [p] occurs in [s] at some position. *)
Fixpoint includes (s p : string) : bool :=
  if startsWith s p then true
  else match s with
       | EmptyString => false
       | String _ s' => includes s' p
       end.

(** Truthiness of a string: the empty string is falsy. *)
Definition truthy (s : string) : bool :=
  match s with EmptyString => false | String _ _ => true end.

(** Truthiness of an optional string property: [undefined] is falsy too. *)
Definition truthyOpt (s : option string) : bool :=
  match s with None => false | Some s => truthy s end.

(** ** Numbers *)

(** A binary64 number. *)
Definition number := spec_float.

Definition prec : Z := 53.
Definition emax : Z := 1024.

(** The number an integer denotes (exact below 2^53). *)
Definition ofZ (z : Z) : number := binary_normalize prec emax z 0 false.

Definition add : number -> number -> number := SFadd prec emax.
Definition sub : number -> number -> number := SFsub prec emax.
Definition mul : number -> number -> number := SFmul prec emax.
Definition div : number -> number -> number := SFdiv prec emax.

(** A decimal literal [n/d] of the source ([0.95], [0.1], [0.5]): the
    binary64 number nearest to it, which is what the correctly rounded
    quotient of the two integers is. *)
Definition literal (n d : Z) : number := div (ofZ n) (ofZ d).

Definition isNaN (x : number) : bool :=
  match x with S754_nan => true | _ => false end.

(** [Math.floor]: the infinities, [NaN] and both zeros are returned as they
    are; a number in (0,1) floors to [+0]. *)
Definition Math_floor (x : number) : number :=
  match x with
  | S754_finite s m e =>
      if 0 <=? e then x
      else let q := cond_Zopp s (Zpos m) / 2 ^ (- e) in
           if q =? 0 then S754_zero s else ofZ q
  | _ => x
  end.

(** The integer held by a number that is integral (a result of [Math.floor],
    a length); zero for the zeros.  The source uses such numbers as
    timestamps and array indices.  For [NaN] and the infinities this
    reading has no meaning and returns 0: the theorems that depend on a
    value read this way carry the bounds under which the number is
    finite. *)
Definition toZ (x : number) : Z :=
  match x with
  | S754_finite s m e =>
      if 0 <=? e then cond_Zopp s (Zpos m) * 2 ^ e
      else cond_Zopp s (Zpos m) / 2 ^ (- e)
  | _ => 0
  end.

(** The integer the 32-bit operators read from a number before they reduce
    it modulo 2^32: the number truncated toward zero, and 0 for [NaN] and
    the infinities. *)
Definition truncate (x : number) : Z :=
  match x with
  | S754_finite s m e =>
      if 0 <=? e then cond_Zopp s (Zpos m) * 2 ^ e
      else Z.quot (cond_Zopp s (Zpos m)) (2 ^ (- e))
  | _ => 0
  end.

(** [Math.max] and [Math.min] of two numbers: [NaN] if either is, and [-0]
    counts as below [+0]. *)
Definition Math_max (a b : number) : number :=
  match SFcompare a b with
  | None => S754_nan
  | Some Lt => b
  | Some Gt => a
  | Some Eq => match a with S754_zero true => b | _ => a end
  end.

Definition Math_min (a b : number) : number :=
  match SFcompare a b with
  | None => S754_nan
  | Some Lt => a
  | Some Gt => b
  | Some Eq => match a with S754_zero false => b | _ => a end
  end.

(** The sign of [a - b] as a sort comparator reads it.  The difference is
    negative, zero or positive as [a] is below, equal to or above [b]: the
    binary64 difference of two distinct finite numbers is never zero
    (gradual underflow).  It is [NaN] when either number is [NaN] or both are
    the same infinity, and the sort reads [NaN] as zero. *)
Definition subSign (a b : number) : comparison :=
  match SFcompare a b with
  | Some c => c
  | None => Eq
  end.

(** ** 32-bit integer operations *)

Definition ToInt32 (x : Z) : Z := (x + 2 ^ 31) mod 2 ^ 32 - 2 ^ 31.
Definition ToUint32 (x : Z) : Z := x mod 2 ^ 32.

(** [a ^ b], [a | b], [a >>> n] and [Math.imul(a, b)]. *)
Definition xor (a b : Z) : Z := Z.lxor (ToInt32 a) (ToInt32 b).
Definition or (a b : Z) : Z := Z.lor (ToInt32 a) (ToInt32 b).
Definition ushr (a n : Z) : Z := Z.shiftr (ToUint32 a) (n mod 32).
Definition Math_imul (a b : Z) : Z := ToInt32 (ToInt32 a * ToInt32 b).

(** ** [Number.prototype.toString(36)] of an integer *)

Definition digit36 (d : Z) : ascii :=
  if d <? 10 then ascii_of_nat (48 + Z.to_nat d)
  else ascii_of_nat (87 + Z.to_nat d).

Fixpoint toString36_digits (fuel : nat) (n : Z) (acc : string) : string :=
  match fuel with
  | O => acc
  | S fuel' =>
      let acc' := String (digit36 (n mod 36)) acc in
      if n <? 36 then acc' else toString36_digits fuel' (n / 36) acc'
  end.

(** A non-negative [n] has at most [log2 n + 1] digits in base 36. *)
Definition toString36 (n : Z) : string :=
  if n <? 0
  then String "-" (toString36_digits (S (Z.to_nat (Z.log2 (- n)))) (- n) EmptyString)
  else toString36_digits (S (Z.to_nat (Z.log2 n))) n EmptyString.

(** ** Completions *)

(** A call returns normally or throws an [Error] with a message. *)
Inductive Completion (A : Type) :=
| Normal (a : A)
| Throw (message : string).
Arguments Normal {A} a.
Arguments Throw {A} message.

(** ** Arrays *)

(** [Array.prototype.includes] on the values of an enumeration. *)
Definition Array_includes {A} (eqb : A -> A -> bool) (l : list A) (x : A) : bool :=
  existsb (eqb x) l.

(** [Array.prototype.sort(cmp)].  The sort is stable; [cmp a b] is the sign
    of the comparator's result ([Eq] also stands for a [NaN] result, which
    the sort reads as zero).  For a comparator that is consistent on the
    elements of the array the stably sorted permutation is unique, and it is
    the one insertion from the right builds. *)
Section Sort.
Context {A : Type} (cmp : A -> A -> comparison).

Fixpoint insert (x : A) (l : list A) : list A :=
  match l with
  | [] => [x]
  | y :: r => match cmp x y with
              | Gt => y :: insert x r
              | _ => x :: l
              end
  end.

Definition Array_sort (l : list A) : list A := fold_right insert [] l.
End Sort.

End JS.

(* ================================================================== *)
(** * Data model ([src/types/telemetry.ts]) *)
(* ================================================================== *)

Abbreviation number := JS.number (only parsing).

Inductive EventType := log | metric | trace | error | span.

Inductive ServiceName :=
  api_gateway | auth_service | user_service | payment_service
| notification_service.

Module Level.
Inductive t := debug | info | warn | error.
End Level.

Inductive AggregationType :=
  agg_count | agg_avg | agg_p95 | agg_sum | agg_min | agg_max.

Definition EventType_eqb (a b : EventType) : bool :=
  match a, b with
  | log, log | metric, metric | trace, trace | error, error | span, span => true
  | _, _ => false
  end.

Definition ServiceName_eqb (a b : ServiceName) : bool :=
  match a, b with
  | api_gateway, api_gateway | auth_service, auth_service
  | user_service, user_service | payment_service, payment_service
  | notification_service, notification_service => true
  | _, _ => false
  end.

(** [tags] is never read or written by the worker and is left out. *)
Module TelemetryEvent.
Record t := mk {
  id : string;
  timestamp : Z;
  value : number;
  eventType : EventType;
  service : ServiceName;
  level : option Level.t;
  message : option string
}.
End TelemetryEvent.

Module TimeRange.
Record t := mk { start : Z; end_ : Z }.
End TimeRange.

Module FilterState.
Record t := mk {
  timeRange : TimeRange.t;
  eventTypes : list EventType;
  services : list ServiceName;
  searchQuery : string
}.
End FilterState.

(** The timestamp of a bucket: an integer, or [NaN] (the key every event
    gets when the bucket size is zero). *)
Inductive BucketKey := NaN | Key (k : Z).

Module AggregatedData.
Record t := mk {
  timestamp : BucketKey;
  count : nat;
  avg : number;
  sum : number;
  min : number;
  max : number;
  p95 : number
}.
End AggregatedData.

Inductive WorkerRequest :=
| Generate (count : Z) (timeRange : TimeRange.t)
| Filter (events : list TelemetryEvent.t) (filters : FilterState.t)
| Aggregate (events : list TelemetryEvent.t) (aggregationType : AggregationType)
            (bucketSize : Z).

Inductive WorkerResponse :=
| Generated (events : list TelemetryEvent.t)
| Filtered (events : list TelemetryEvent.t)
| Aggregated (buckets : list AggregatedData.t)
| Error (message : string)
| Progress (percent : number).

(* ================================================================== *)
(** * Filter engine *)
(* ================================================================== *)

(** The callback of [events.filter] in [filterEvents]: four guards, each
    returning [false] early. *)
Definition filterCallback (filters : FilterState.t) (event : TelemetryEvent.t)
  : bool :=
  let timeRange := FilterState.timeRange filters in
  let eventTypes := FilterState.eventTypes filters in
  let services := FilterState.services filters in
  let searchQuery := FilterState.searchQuery filters in
  let searchLower := JS.toLowerCase searchQuery in
  if orb (TelemetryEvent.timestamp event <? TimeRange.start timeRange)
         (TelemetryEvent.timestamp event >? TimeRange.end_ timeRange)
  then false
  else if andb (0 <? Z.of_nat (List.length eventTypes))
               (negb (JS.Array_includes EventType_eqb eventTypes
                                        (TelemetryEvent.eventType event)))
  then false
  else if andb (0 <? Z.of_nat (List.length services))
               (negb (JS.Array_includes ServiceName_eqb services
                                        (TelemetryEvent.service event)))
  then false
  else if andb (JS.truthy searchQuery)
          (andb (JS.truthyOpt (TelemetryEvent.message event))
                (negb (match TelemetryEvent.message event with
                       | Some m => JS.includes (JS.toLowerCase m) searchLower
                       | None => false
                       end)))
  then false
  else true.

Definition filterEvents (events : list TelemetryEvent.t) (filters : FilterState.t)
  : list TelemetryEvent.t :=
  filter (filterCallback filters) events.

(* ================================================================== *)
(** * Aggregation engine *)
(* ================================================================== *)

(** [Math.floor(event.timestamp / bucketSize) * bucketSize], read on the
    integers: [Z.div] is the floor for either sign of the divisor.  For a
    non-zero bucket size and a timestamp and a bucket size that stay below
    2^52 together, the three binary64 operations of the source compute this
    integer exactly ([bucketKeyBinary64_exact]); near 2^53 they round.  For
    bucket size zero the quotient is an infinity or [NaN], and its product
    with zero is [NaN]. *)
Definition bucketKey (timestamp bucketSize : Z) : BucketKey :=
  if bucketSize =? 0 then NaN else Key (timestamp / bucketSize * bucketSize).

(** The expression as the source evaluates it, in binary64, operation by
    operation, and the key a number is read as. *)
Definition bucketKeyBinary64 (timestamp bucketSize : Z) : JS.number :=
  JS.mul (JS.Math_floor (JS.div (JS.ofZ timestamp) (JS.ofZ bucketSize)))
         (JS.ofZ bucketSize).

(** The key a number is read as: [NaN], or the integer it holds (the keys
    the source computes under the bounds of [bucketKeyBinary64_exact] are
    finite). *)
Definition readKey (x : JS.number) : BucketKey :=
  if JS.isNaN x then NaN else Key (JS.toZ x).

(** Key equality of a [Map] (SameValueZero): [NaN] is equal to itself. *)
Definition BucketKey_eqb (a b : BucketKey) : bool :=
  match a, b with
  | NaN, NaN => true
  | Key x, Key y => x =? y
  | _, _ => false
  end.

(** [Map<number, number[]>]: the entries in insertion order. *)
Definition Buckets : Type := list (BucketKey * list number).

Fixpoint Map_get (m : Buckets) (k : BucketKey) : option (list number) :=
  match m with
  | [] => None
  | (k', v) :: r => if BucketKey_eqb k k' then Some v else Map_get r k
  end.

(** [Map.prototype.set]: an existing key keeps its place, a new one goes
    last.  [bucket.push(v)] on the array a key maps to is [Map_set] of the
    key to the extended array: the array is shared with the map. *)
Fixpoint Map_set (m : Buckets) (k : BucketKey) (v : list number) : Buckets :=
  match m with
  | [] => [(k, v)]
  | (k', v') :: r =>
      if BucketKey_eqb k k' then (k, v) :: r else (k', v') :: Map_set r k v
  end.

(** One iteration of the grouping loop. *)
Definition groupStep (bucketSize : Z) (buckets : Buckets)
  (event : TelemetryEvent.t) : Buckets :=
  let bucketKey := bucketKey (TelemetryEvent.timestamp event) bucketSize in
  match Map_get buckets bucketKey with
  | Some bucket => Map_set buckets bucketKey (bucket ++ [TelemetryEvent.value event])
  | None => Map_set buckets bucketKey [TelemetryEvent.value event]
  end.

(** The map once the grouping loop has run over all events. *)
Definition groupValues (events : list TelemetryEvent.t) (bucketSize : Z)
  : Buckets :=
  fold_left (groupStep bucketSize) events [].

(** [Math.floor(length * 0.95)]. *)
Definition p95Index (length : Z) : Z :=
  JS.toZ (JS.Math_floor (JS.mul (JS.ofZ length) (JS.literal 95 100))).

(** An array read; out of range it is [undefined], [NaN] as a number. *)
Definition Array_get (values : list number) (i : Z) : number :=
  if i <? 0 then S754_nan else nth (Z.to_nat i) values S754_nan.

(** The body of the loop over the map's entries. *)
Definition summarize (entry : BucketKey * list number) : AggregatedData.t :=
  let timestamp := fst entry in
  let values := JS.Array_sort JS.subSign (snd entry) in
  let sum := fold_left (fun acc v => JS.add acc v) values (JS.ofZ 0) in
  let count := List.length values in
  let p95Index := p95Index (Z.of_nat (List.length values)) in
  AggregatedData.mk
    timestamp
    count
    (JS.div sum (JS.ofZ (Z.of_nat count)))
    sum
    (Array_get values 0)
    (Array_get values (Z.of_nat (List.length values) - 1))
    (Array_get values (Z.min p95Index (Z.of_nat (List.length values) - 1))).

(** The sign of [a.timestamp - b.timestamp]. *)
Definition compareTimestamps (a b : AggregatedData.t) : comparison :=
  match AggregatedData.timestamp a, AggregatedData.timestamp b with
  | Key x, Key y => x ?= y
  | _, _ => Eq
  end.

Definition aggregateEvents (events : list TelemetryEvent.t) (bucketSize : Z)
  : list AggregatedData.t :=
  if Z.of_nat (List.length events) =? 0 then []
  else JS.Array_sort compareTimestamps
         (map summarize (groupValues events bucketSize)).

(* ================================================================== *)
(** * Random source (Mulberry32) *)
(* ================================================================== *)

(** One call of the closure [createRng] returns, up to the final division:
    the unsigned 32-bit integer [(t ^ t >>> 14) >>> 0] and the new value of
    the captured [seed].  [seed] is a number: [seed += 0x6D2B79F5] is a
    binary64 addition, which rounds once the seed has passed 2^53, and the
    32-bit operations read the integer part of the sum modulo 2^32. *)
Definition mulberry32 (seed : JS.number) : Z * JS.number :=
  let seed := JS.add seed (JS.ofZ 0x6D2B79F5) in
  let t := JS.truncate seed in
  let t := JS.Math_imul (JS.xor t (JS.ushr t 15)) (JS.or t 1) in
  let t := JS.xor t (t + JS.Math_imul (JS.xor t (JS.ushr t 7)) (JS.or t 61)) in
  (JS.ushr (JS.xor t (JS.ushr t 14)) 0, seed).

(** The state of a random source is the value of its [seed] variable. *)
Definition Rng : Type := JS.number.

(** The source is seeded with an integer, a reading of the clock, held as
    a number. *)
Definition createRng (seed : Z) : Rng := JS.ofZ seed.

(** A call [rng()]: the value returned and the state after it. *)
Definition rng (r : Rng) : number * Rng :=
  let (u, seed) := mulberry32 r in
  (JS.div (JS.ofZ u) (JS.ofZ 4294967296), seed).

(** The first [n] values of a source. *)
Fixpoint rngSequence (n : nat) (r : Rng) : list number :=
  match n with
  | O => []
  | S n' => let (x, r') := rng r in x :: rngSequence n' r'
  end.

(** Computations that call [rng()]: the state is threaded through. *)
Definition Rand (A : Type) : Type := Rng -> A * Rng.

Definition ret {A} (a : A) : Rand A := fun r => (a, r).

Definition bind {A B} (c : Rand A) (k : A -> Rand B) : Rand B :=
  fun r => let (a, r') := c r in k a r'.

Notation "x <- c ;; k" := (bind c (fun x => k))
  (at level 61, c at next level, right associativity).

(* ================================================================== *)
(** * Event generator *)
(* ================================================================== *)

Definition EVENT_TYPES : list EventType := [log; metric; trace; error; span].

Definition SERVICES : list ServiceName :=
  [api_gateway; auth_service; user_service; payment_service;
   notification_service].

Definition LEVELS : list Level.t :=
  [Level.debug; Level.info; Level.warn; Level.error].

Definition SAMPLE_MESSAGES : list string :=
  ["Request processed successfully"%string;
   "Database query completed"%string;
   "Cache hit"%string;
   "Cache miss - fetching from origin"%string;
   "Authentication validated"%string;
   "Rate limit check passed"%string;
   "Connection established"%string;
   "Timeout waiting for response"%string;
   "Retrying failed request"%string;
   "Batch job started"%string;
   "Webhook delivered"%string;
   "Message queued for processing"%string].

(** [Math.floor(rng() * n)], as an index. *)
Definition randomIndex (n : Z) : Rand Z :=
  x <- rng ;; ret (JS.toZ (JS.Math_floor (JS.mul x (JS.ofZ n)))).

Definition generateValue (eventType : EventType) : Rand number :=
  match eventType with
  | metric => k <- randomIndex 1000 ;; ret (JS.div (JS.ofZ k) (JS.ofZ 10))
  | trace | span => k <- randomIndex 500 ;; ret (JS.ofZ (k + 1))
  | error => k <- randomIndex 500 ;; ret (JS.ofZ (k + 400))
  | _ => k <- randomIndex 100 ;; ret (JS.ofZ k)
  end.

(** The body of the generation loop for index [i]; [now] is what
    [Date.now()] returns while the identifier is built.  The reads
    [EVENT_TYPES[k]], ... are in range, [rng()] being below 1; the default
    of [nth] stands for the [undefined] of a read out of range. *)
Definition generateEvent (i startTime timeSpan now : Z) : Rand TelemetryEvent.t :=
  kt <- randomIndex (Z.of_nat (List.length EVENT_TYPES)) ;;
  let eventType := nth (Z.to_nat kt) EVENT_TYPES log in
  ks <- randomIndex (Z.of_nat (List.length SERVICES)) ;;
  let service := nth (Z.to_nat ks) SERVICES api_gateway in
  clusterCenter <- rng ;;
  x <- rng ;;
  let clusterSpread := JS.mul x (JS.literal 1 10) in
  y <- rng ;;
  let normalizedTime :=
    JS.Math_max (JS.ofZ 0)
      (JS.Math_min (JS.ofZ 1)
         (JS.add clusterCenter
            (JS.mul (JS.sub y (JS.literal 5 10)) clusterSpread))) in
  let timestamp :=
    startTime + JS.toZ (JS.Math_floor (JS.mul normalizedTime (JS.ofZ timeSpan))) in
  value <- generateValue eventType ;;
  kl <- randomIndex (Z.of_nat (List.length LEVELS)) ;;
  km <- randomIndex (Z.of_nat (List.length SAMPLE_MESSAGES)) ;;
  ret (TelemetryEvent.mk
         ("evt_" ++ JS.toString36 i ++ "_" ++ JS.toString36 now)%string
         timestamp
         value
         eventType
         service
         (nth_error LEVELS (Z.to_nat kl))
         (nth_error SAMPLE_MESSAGES (Z.to_nat km))).

(** The progress message of iteration [i], if it posts one. *)
Definition progressAt (i count : Z) : list WorkerResponse :=
  if andb (i mod 5000 =? 0) (0 <? i)
  then [Progress (JS.mul (JS.div (JS.ofZ i) (JS.ofZ count)) (JS.ofZ 100))]
  else [].

(** The loop [for (let i = 0; i < count; i++)], with [n] iterations left
    from index [i]: the events in index order and the messages posted.
    [clock k] is the [k]-th reading of [Date.now()] in the call; reading 0
    seeds the random source and iteration [i] takes reading [i + 1]. *)
Fixpoint generateLoop (n : nat) (i count startTime timeSpan : Z)
  (clock : nat -> Z) (r : Rng) : list TelemetryEvent.t * list WorkerResponse :=
  match n with
  | O => ([], [])
  | S n' =>
      let (event, r') :=
        generateEvent i startTime timeSpan (clock (S (Z.to_nat i))) r in
      let (events, posts) :=
        generateLoop n' (i + 1) count startTime timeSpan clock r' in
      (event :: events, progressAt i count ++ posts)
  end.

(** The sign of [a.timestamp - b.timestamp]. *)
Definition compareEvents (a b : TelemetryEvent.t) : comparison :=
  TelemetryEvent.timestamp a ?= TelemetryEvent.timestamp b.

(** [new Array(count)] throws a [RangeError] unless [count] is an array
    length, an integer in [0, 2^32). *)
Definition generateEvents (count startTime endTime : Z) (clock : nat -> Z)
  : JS.Completion (list TelemetryEvent.t * list WorkerResponse) :=
  if orb (count <? 0) (2 ^ 32 - 1 <? count)
  then JS.Throw "Invalid array length"
  else
    let timeSpan := endTime - startTime in
    let rng := createRng (clock O) in
    let (events, posts) :=
      generateLoop (Z.to_nat count) 0 count startTime timeSpan clock rng in
    JS.Normal (JS.Array_sort compareEvents events, posts).

(* ================================================================== *)
(** * Worker message handler *)
(* ================================================================== *)

(** [self.onmessage]: the messages posted while one request is handled;
    whatever the engines throw becomes an [Error] message. *)
Definition onmessage (clock : nat -> Z) (request : WorkerRequest)
  : list WorkerResponse :=
  match request with
  | Generate count timeRange =>
      match generateEvents count (TimeRange.start timeRange)
                           (TimeRange.end_ timeRange) clock with
      | JS.Normal (events, posts) => posts ++ [Generated events]
      | JS.Throw message => [Error message]
      end
  | Filter events filters => [Filtered (filterEvents events filters)]
  | Aggregate events _ bucketSize =>
      [Aggregated (aggregateEvents events bucketSize)]
  end.

(* ================================================================== *)
(** * Bucket size policy of the [useTelemetryData] hook *)
(* ================================================================== *)

Definition MINUTE : Z := 60 * 1000.
Definition HOUR : Z := 60 * MINUTE.

(** The bucket size the aggregation effect derives from the time range. *)
Definition bucketSize (filters : FilterState.t) : Z :=
  let duration := TimeRange.end_ (FilterState.timeRange filters)
                  - TimeRange.start (FilterState.timeRange filters) in
  if duration <=? HOUR then MINUTE
  else if duration <=? 6 * HOUR then 5 * MINUTE
  else if duration <=? 24 * HOUR then 15 * MINUTE
  else HOUR.

(** The aggregation effect: nothing is sent while there are no filtered
    events; otherwise one aggregate request with the derived bucket size. *)
Definition aggregateEffect (filteredEvents : list TelemetryEvent.t)
  (aggregationType : AggregationType) (filters : FilterState.t)
  : option WorkerRequest :=
  if Z.of_nat (List.length filteredEvents) =? 0 then None
  else Some (Aggregate filteredEvents aggregationType (bucketSize filters)).

(* ================================================================== *)
(** * Filter state of the [useTelemetryData] hook *)
(* ================================================================== *)

(** [Partial<FilterState>]: the keys an update carries. *)
Module FilterUpdate.
Record t := mk {
  timeRange : option TimeRange.t;
  eventTypes : option (list EventType);
  services : option (list ServiceName);
  searchQuery : option string
}.
End FilterUpdate.

(** A key of [prev] overwritten by the update when the update carries it. *)
Definition spread {A} (prev : A) (given : option A) : A :=
  match given with
  | Some a => a
  | None => prev
  end.

(** [setFilters]: the state becomes [{ ...prev, ...newFilters }]. *)
Definition setFilters (prev : FilterState.t) (newFilters : FilterUpdate.t)
  : FilterState.t :=
  FilterState.mk
    (spread (FilterState.timeRange prev) (FilterUpdate.timeRange newFilters))
    (spread (FilterState.eventTypes prev) (FilterUpdate.eventTypes newFilters))
    (spread (FilterState.services prev) (FilterUpdate.services newFilters))
    (spread (FilterState.searchQuery prev) (FilterUpdate.searchQuery newFilters)).

(** [getDefaultTimeRange] and [getDefaultFilters]; [now] is the reading of
    [Date.now()]. *)
Definition getDefaultTimeRange (now : Z) : TimeRange.t :=
  TimeRange.mk (now - 24 * HOUR) now.

Definition getDefaultFilters (now : Z) : FilterState.t :=
  FilterState.mk (getDefaultTimeRange now) [] [] EmptyString.

(* ================================================================== *)
(** * Filter bar *)
(* ================================================================== *)

(** What the callbacks of the filter bar pass to [onFilterChange];
    [filters] is the state the bar was rendered with. *)
Definition toggleEventType (filters : FilterState.t) (type : EventType)
  : FilterUpdate.t :=
  let current := FilterState.eventTypes filters in
  let newTypes :=
    if JS.Array_includes EventType_eqb current type
    then filter (fun t => negb (EventType_eqb t type)) current
    else current ++ [type] in
  FilterUpdate.mk None (Some newTypes) None None.

Definition toggleService (filters : FilterState.t) (service : ServiceName)
  : FilterUpdate.t :=
  let current := FilterState.services filters in
  let newServices :=
    if JS.Array_includes ServiceName_eqb current service
    then filter (fun s => negb (ServiceName_eqb s service)) current
    else current ++ [service] in
  FilterUpdate.mk None None (Some newServices) None.

Definition handleSearchChange (value : string) : FilterUpdate.t :=
  FilterUpdate.mk None None None (Some value).

Definition clearFilters : FilterUpdate.t :=
  FilterUpdate.mk None (Some []) (Some []) (Some EmptyString).

(** Whether the bar shows its [Clear] button. *)
Definition hasActiveFilters (filters : FilterState.t) : bool :=
  orb (0 <? Z.of_nat (List.length (FilterState.eventTypes filters)))
      (orb (0 <? Z.of_nat (List.length (FilterState.services filters)))
           (0 <? Z.of_nat (String.length (FilterState.searchQuery filters)))).

(* ================================================================== *)
(** * Time range picker *)
(* ================================================================== *)

Definition TIME_RANGE_OPTIONS : list (string * Z) :=
  [("1h"%string, HOUR); ("6h"%string, 6 * HOUR); ("12h"%string, 12 * HOUR);
   ("24h"%string, 24 * HOUR)].

(** [handleRangeSelect]: the range passed to [onTimeRangeChange]; [now] is
    the reading of [Date.now()]. *)
Definition handleRangeSelect (now duration : Z) : TimeRange.t :=
  TimeRange.mk (now - duration) now.

(** Whether the button of the option with [duration] is highlighted. *)
Definition isActive (timeRange : TimeRange.t) (duration : Z) : bool :=
  let currentDuration := TimeRange.end_ timeRange - TimeRange.start timeRange in
  Z.abs (currentDuration - duration) <? HOUR / 2.

(** [handleTimeRangeChange] of the dashboard. *)
Definition handleTimeRangeChange (timeRange : TimeRange.t) : FilterUpdate.t :=
  FilterUpdate.mk (Some timeRange) None None None.


(* ================================================================== *)
(** * Statistics and worker responses in the [useTelemetryData] hook *)
(* ================================================================== *)

(** A JavaScript object used as a table of counts, its keys in insertion
    order. *)
Definition Counts (K : Type) : Type := list (K * Z).

Fixpoint Counts_get {K} (eqb : K -> K -> bool) (o : Counts K) (k : K)
  : option Z :=
  match o with
  | [] => None
  | (k', v) :: r => if eqb k k' then Some v else Counts_get eqb r k
  end.

Fixpoint Counts_set {K} (eqb : K -> K -> bool) (o : Counts K) (k : K) (v : Z)
  : Counts K :=
  match o with
  | [] => [(k, v)]
  | (k', v') :: r =>
      if eqb k k' then (k, v) :: r else (k', v') :: Counts_set eqb r k v
  end.

(** [x || 0] for a count [x]: [undefined] and [0] are falsy. *)
Definition orZero (x : option Z) : Z :=
  match x with
  | Some v => if v =? 0 then 0 else v
  | None => 0
  end.

(** [o[k] = (o[k] || 0) + 1]. *)
Definition increment {K} (eqb : K -> K -> bool) (o : Counts K) (k : K)
  : Counts K :=
  Counts_set eqb o k (orZero (Counts_get eqb o k) + 1).

Module DataStats.
Record t := mk {
  totalEvents : Z;
  filteredEvents : Z;
  timeRange : TimeRange.t;
  eventTypeCounts : Counts EventType;
  serviceCounts : Counts ServiceName
}.
End DataStats.

(** The [stats] memo: one pass over the filtered events counts them by type
    and by service. *)
Definition stats (events filteredEvents : list TelemetryEvent.t)
  (filters : FilterState.t) : DataStats.t :=
  let (eventTypeCounts, serviceCounts) :=
    fold_left
      (fun (counts : Counts EventType * Counts ServiceName) event =>
         (increment EventType_eqb (fst counts) (TelemetryEvent.eventType event),
          increment ServiceName_eqb (snd counts) (TelemetryEvent.service event)))
      filteredEvents ([], []) in
  DataStats.mk (Z.of_nat (List.length events))
               (Z.of_nat (List.length filteredEvents))
               (FilterState.timeRange filters)
               eventTypeCounts serviceCounts.

(** [errorCount] of the dashboard: [stats.eventTypeCounts.error || 0]. *)
Definition errorCount (stats : DataStats.t) : Z :=
  orZero (Counts_get EventType_eqb (DataStats.eventTypeCounts stats) error).

Module Hook.

(** The state the handler of the worker's messages writes. *)
Record State := mkState {
  events : list TelemetryEvent.t;
  filteredEvents : list TelemetryEvent.t;
  aggregatedData : list AggregatedData.t;
  isLoading : bool;
  isGenerating : bool;
  progress : number
}.

(** [workerRef.current.onmessage]: the state after a message of the
    worker. *)
Definition onmessage (state : State) (response : WorkerResponse) : State :=
  match response with
  | Generated payload =>
      mkState payload payload (aggregatedData state) (isLoading state)
              false (JS.ofZ 100)
  | Filtered payload =>
      mkState (events state) payload (aggregatedData state) false
              (isGenerating state) (progress state)
  | Aggregated payload =>
      mkState (events state) (filteredEvents state) payload (isLoading state)
              (isGenerating state) (progress state)
  | Progress payload =>
      mkState (events state) (filteredEvents state) (aggregatedData state)
              (isLoading state) (isGenerating state) payload
  | Error _ =>
      mkState (events state) (filteredEvents state) (aggregatedData state)
              false false (progress state)
  end.

(** [regenerateData]: the state and the filters it leaves and the request
    it posts; [now] is the reading of [Date.now()]. *)
Definition regenerateData (now count : Z) (state : State)
  (filters : FilterState.t) : State * FilterState.t * WorkerRequest :=
  let state := mkState (events state) (filteredEvents state)
                 (aggregatedData state) (isLoading state) true (JS.ofZ 0) in
  let timeRange := getDefaultTimeRange now in
  (state,
   FilterState.mk timeRange (FilterState.eventTypes filters)
                  (FilterState.services filters)
                  (FilterState.searchQuery filters),
   Generate count timeRange).

End Hook.


(* ================================================================== *)
(** * Vocabulary of the specification *)
(* ================================================================== *)

(** ** Selections and subsequences *)

(** [l'] keeps, in order, exactly the elements of [l] that satisfy [P]. *)
Inductive Selected {A : Type} (P : A -> Prop) : list A -> list A -> Prop :=
| Selected_nil : Selected P [] []
| Selected_keep x l l' : P x -> Selected P l l' -> Selected P (x :: l) (x :: l')
| Selected_drop x l l' : ~ P x -> Selected P l l' -> Selected P (x :: l) l'.

(** [l'] is [l] with some elements removed. *)
Inductive Subsequence {A : Type} : list A -> list A -> Prop :=
| Subsequence_nil : Subsequence [] []
| Subsequence_keep x l' l : Subsequence l' l -> Subsequence (x :: l') (x :: l)
| Subsequence_drop x l' l : Subsequence l' l -> Subsequence l' (x :: l).

(** ** The filter predicate *)

(** The message [m] contains the query [q], letter case ignored. *)
Definition containsIgnoringCase (m q : string) : Prop :=
  exists pre post : string,
    JS.toLowerCase m = (pre ++ JS.toLowerCase q ++ post)%string.

(** Clauses 1 to 3 of the filter predicate. *)
Definition inTimeRange (f : FilterState.t) (e : TelemetryEvent.t) : Prop :=
  TimeRange.start (FilterState.timeRange f) <= TelemetryEvent.timestamp e
  /\ TelemetryEvent.timestamp e <= TimeRange.end_ (FilterState.timeRange f).

Definition typeSelected (f : FilterState.t) (e : TelemetryEvent.t) : Prop :=
  FilterState.eventTypes f = []
  \/ In (TelemetryEvent.eventType e) (FilterState.eventTypes f).

Definition serviceSelected (f : FilterState.t) (e : TelemetryEvent.t) : Prop :=
  FilterState.services f = []
  \/ In (TelemetryEvent.service e) (FilterState.services f).

(** Clause 4 as the specification words it: under a non-empty query the
    event has a message, and the message contains the query. *)
Definition searchRequiresMessage (f : FilterState.t) (e : TelemetryEvent.t)
  : Prop :=
  FilterState.searchQuery f = EmptyString
  \/ exists m, TelemetryEvent.message e = Some m
               /\ containsIgnoringCase m (FilterState.searchQuery f).

(** Clause 4 as the filter applies it: the query is only matched against a
    message that is present and not empty. *)
Definition searchAdmits (f : FilterState.t) (e : TelemetryEvent.t) : Prop :=
  FilterState.searchQuery f = EmptyString
  \/ TelemetryEvent.message e = None
  \/ TelemetryEvent.message e = Some EmptyString
  \/ exists m, TelemetryEvent.message e = Some m
               /\ containsIgnoringCase m (FilterState.searchQuery f).

Definition matchesAsSpecified (f : FilterState.t) (e : TelemetryEvent.t) : Prop :=
  inTimeRange f e /\ typeSelected f e /\ serviceSelected f e
  /\ searchRequiresMessage f e.

Definition matches (f : FilterState.t) (e : TelemetryEvent.t) : Prop :=
  inTimeRange f e /\ typeSelected f e /\ serviceSelected f e
  /\ searchAdmits f e.

(** ** Buckets and their values *)

(** The bucket key of an event. *)
Definition keyOf (bucketSize : Z) (e : TelemetryEvent.t) : BucketKey :=
  bucketKey (TelemetryEvent.timestamp e) bucketSize.

(** The values of the events that carry key [k], in input order. *)
Definition valuesAt (bucketSize : Z) (k : BucketKey)
  (events : list TelemetryEvent.t) : list number :=
  map TelemetryEvent.value
      (filter (fun e => BucketKey_eqb (keyOf bucketSize e) k) events).

(** What the loop maintains: the keys are distinct, each key maps to the
    values of the events seen so far that carry it, in the order seen, and
    the arrays together hold the values seen so far. *)
Record Grouped (w : Z) (seen : list TelemetryEvent.t) (m : Buckets) : Prop := {
  Grouped_keys : NoDup (map fst m);
  Grouped_get : forall k,
    Map_get m k = match valuesAt w k seen with
                  | [] => None
                  | vs => Some vs
                  end;
  Grouped_values :
    Permutation (List.concat (map snd m)) (map TelemetryEvent.value seen)
}.

(** The integer a bucket is keyed by (0 for the key [NaN]). *)
Definition keyValue (b : AggregatedData.t) : Z :=
  match AggregatedData.timestamp b with
  | Key k => k
  | NaN => 0
  end.

(** ** The order and the signs of numbers *)

(** [a <= b] as the comparator [(a, b) => a - b] decides it. *)
Definition numLe (a b : number) : Prop := JS.subSign a b <> Gt.

Definition notNaN (x : number) : Prop := JS.isNaN x = false.

(** The sign bit of a number is clear ([NaN] carries none). *)
Definition signClear (x : number) : Prop :=
  match x with
  | S754_zero s | S754_infinity s | S754_finite s _ _ => s = false
  | S754_nan => True
  end.

(** The sign of the binary64 difference [a - b], as the sort reads it. *)
Definition differenceSign (a b : number) : comparison :=
  match JS.sub a b with
  | S754_nan | S754_zero _ => Eq
  | S754_infinity s | S754_finite s _ _ => if s then Lt else Gt
  end.

(** ** Runs of the generator *)

(** A clock that always reads the same instant. *)
Definition frozenClock (t : Z) : nat -> Z := fun _ => t.

(** A clock that advances by one millisecond from one reading to the
    next. *)
Definition tickingClock (t : Z) : nat -> Z := fun k => t + Z.of_nat k.

(** An event with its identifier blanked. *)
Definition eraseId (e : TelemetryEvent.t) : TelemetryEvent.t :=
  TelemetryEvent.mk EmptyString
    (TelemetryEvent.timestamp e) (TelemetryEvent.value e)
    (TelemetryEvent.eventType e) (TelemetryEvent.service e)
    (TelemetryEvent.level e) (TelemetryEvent.message e).

(** Two outcomes of [generateEvents] that agree on everything but the
    identifiers of the events. *)
Definition sameButIds
  (a b : JS.Completion (list TelemetryEvent.t * list WorkerResponse)) : Prop :=
  match a, b with
  | JS.Normal (events1, posts1), JS.Normal (events2, posts2) =>
      map eraseId events1 = map eraseId events2 /\ posts1 = posts2
  | JS.Throw message1, JS.Throw message2 => message1 = message2
  | _, _ => False
  end.

(** The identifiers and the timestamps of the events generated. *)
Definition eventIds
  (c : JS.Completion (list TelemetryEvent.t * list WorkerResponse))
  : list string :=
  match c with
  | JS.Normal (events, _) => map TelemetryEvent.id events
  | JS.Throw _ => []
  end.

Definition eventTimestamps
  (c : JS.Completion (list TelemetryEvent.t * list WorkerResponse))
  : list Z :=
  match c with
  | JS.Normal (events, _) => map TelemetryEvent.timestamp events
  | JS.Throw _ => []
  end.

(** ** Sample data *)

(** An event with the given timestamp and value. *)
Definition sampleEvent (timestamp : Z) (value : number) : TelemetryEvent.t :=
  TelemetryEvent.mk "evt" timestamp value metric api_gateway None None.

(** 100 events with timestamps 0..99 and values 1..100. *)
Definition hundredEvents : list TelemetryEvent.t :=
  map (fun i => sampleEvent (Z.of_nat i) (JS.ofZ (Z.of_nat i + 1))) (seq 0 100).

(** The bucket [aggregateEvents hundredEvents 1000] consists of. *)
Definition hundredBucket : AggregatedData.t :=
  summarize (Key 0, map TelemetryEvent.value hundredEvents).

(** Three events that carry the metric value 0.1, the value [generateValue]
    returns for a draw of 1. *)
Definition tenthEvents : list TelemetryEvent.t :=
  [sampleEvent 0 (JS.div (JS.ofZ 1) (JS.ofZ 10));
   sampleEvent 1 (JS.div (JS.ofZ 1) (JS.ofZ 10));
   sampleEvent 2 (JS.div (JS.ofZ 1) (JS.ofZ 10))].

(** The bucket [aggregateEvents tenthEvents 1000] consists of: the sum of
    the three values is 0.30000000000000004 and its third is
    0.10000000000000002, one unit in the last place above 0.1. *)
Definition tenthBucket : AggregatedData.t :=
  AggregatedData.mk (Key 0) 3
    (S754_finite false 7205759403792795 (-56))
    (S754_finite false 5404319552844596 (-54))
    (S754_finite false 7205759403792794 (-56))
    (S754_finite false 7205759403792794 (-56))
    (S754_finite false 7205759403792794 (-56)).

(** An event without a message, and a filter whose only restriction is a
    search query. *)
Definition silentEvent : TelemetryEvent.t :=
  TelemetryEvent.mk "evt_0_0" 1000 (JS.ofZ 1) log api_gateway None None.

Definition searchFailed : FilterState.t :=
  FilterState.mk (TimeRange.mk 0 10000) [] [] "failed".

(** Timestamps and bucket sizes, and numbers (zeros, neighbours, the
    smallest and the largest finite numbers, infinities), on which the
    integer and order readings are compared with binary64. *)
Definition sampleKeys : list (Z * Z) :=
  [(0, 1000); (500, 1000); (1000, 1000); (1500, 1000); (-1, 1000);
   (-1000, 1000); (-1001, 1000); (1500, -1000); (-500, -1000); (0, -1000);
   (1700000000000, 60000); (1700000000000, 900000);
   (1700003599999, 3600000); (-1700000000001, 300000);
   (9007199254740991, 7); (1500, 0); (0, 0); (-3, 0)].

Definition sampleNumbers : list number :=
  [S754_zero false; S754_zero true; JS.literal 1 10;
   S754_finite false 7205759403792795 (-56); JS.ofZ 1; JS.ofZ (-1);
   JS.ofZ 96; JS.ofZ 9007199254740991;
   S754_finite false 1 (-1074); S754_finite false 2 (-1074);
   S754_finite true 1 (-1074);
   S754_finite false 9007199254740991 971;
   S754_infinity false; S754_infinity true].

(** What the chart plots of a bucket besides its statistics: its key and the
    number of its events. *)
Definition keyAndCount (b : AggregatedData.t) : BucketKey * nat :=
  (AggregatedData.timestamp b, AggregatedData.count b).

Definition orderSample : list TelemetryEvent.t :=
  [sampleEvent 2500 (JS.ofZ 1); sampleEvent 300 (JS.ofZ 2);
   sampleEvent 2100 (JS.ofZ 3)].

Definition orderSampleShuffled : list TelemetryEvent.t :=
  [sampleEvent 2100 (JS.ofZ 3); sampleEvent 2500 (JS.ofZ 1);
   sampleEvent 300 (JS.ofZ 2)].
(** [g] restricts at least as much as [f]: its time range lies within that
    of [f], its selections are taken from those of [f], and its query
    contains that of [f]. *)
Definition narrows (f g : FilterState.t) : Prop :=
  TimeRange.start (FilterState.timeRange f)
    <= TimeRange.start (FilterState.timeRange g)
  /\ TimeRange.end_ (FilterState.timeRange g)
     <= TimeRange.end_ (FilterState.timeRange f)
  /\ (FilterState.eventTypes f = []
      \/ FilterState.eventTypes g <> []
         /\ incl (FilterState.eventTypes g) (FilterState.eventTypes f))
  /\ (FilterState.services f = []
      \/ FilterState.services g <> []
         /\ incl (FilterState.services g) (FilterState.services f))
  /\ (FilterState.searchQuery f = EmptyString
      \/ containsIgnoringCase (FilterState.searchQuery g)
                              (FilterState.searchQuery f)).

Definition chronological (events : list TelemetryEvent.t) : Prop :=
  StronglySorted
    (fun a b => TelemetryEvent.timestamp a <= TelemetryEvent.timestamp b)
    events.

(** The payload of the progress message of iteration [i]. *)
Definition progressPercent (i count : Z) : number :=
  JS.mul (JS.div (JS.ofZ i) (JS.ofZ count)) (JS.ofZ 100).

(** The final message a request is answered with. *)
Definition answersTo (request : WorkerRequest) (response : WorkerResponse)
  : Prop :=
  match request, response with
  | Generate _ _, Generated _ => True
  | Generate _ _, Error _ => True
  | Filter events filters, Filtered result =>
      result = filterEvents events filters
  | Aggregate events _ bucketSize, Aggregated result =>
      result = aggregateEvents events bucketSize
  | _, _ => False
  end.

Definition wideFilter : FilterState.t :=
  FilterState.mk (TimeRange.mk 0 10000) [] [api_gateway; auth_service]
                 EmptyString.

(** ** The controls *)

(** The time clause of the filter, on its own. *)
Definition withinRange (r : TimeRange.t) (e : TelemetryEvent.t) : bool :=
  andb (TimeRange.start r <=? TelemetryEvent.timestamp e)
       (TelemetryEvent.timestamp e <=? TimeRange.end_ r).

(** The durations the picker offers. *)
Definition offeredDurations : list Z := map snd TIME_RANGE_OPTIONS.

(** The list a click on the chip of [x] leaves: both toggles of the filter
    bar compute it. *)
Definition toggled {A} (eqb : A -> A -> bool) (current : list A) (x : A)
  : list A :=
  if JS.Array_includes eqb current x
  then filter (fun t => negb (eqb t x)) current
  else current ++ [x].


(** ** Counting *)

(** The number of events of a type, and of a service. *)
Definition eventsOfType (t : EventType) (events : list TelemetryEvent.t) : Z :=
  Z.of_nat (List.length
              (filter (fun e => EventType_eqb (TelemetryEvent.eventType e) t)
                      events)).

Definition eventsOfService (s : ServiceName) (events : list TelemetryEvent.t)
  : Z :=
  Z.of_nat (List.length
              (filter (fun e => ServiceName_eqb (TelemetryEvent.service e) s)
                      events)).

(** The sum of the counts a table holds for the given keys. *)
Definition totalOf {K} (eqb : K -> K -> bool) (o : Counts K) (keys : list K)
  : Z :=
  fold_right (fun k acc => orZero (Counts_get eqb o k) + acc) 0 keys.

(** The state after the messages of the worker, handled in order. *)
Definition afterMessages (state : Hook.State) (responses : list WorkerResponse)
  : Hook.State :=
  fold_left Hook.onmessage responses state.

(** ** Identifiers *)

(** The value of a digit of base 36, and the number a string of such digits
    writes after the digits that wrote [v]. *)
Definition digitValue (c : ascii) : Z :=
  let n := Z.of_nat (nat_of_ascii c) in
  if n <? 58 then n - 48 else n - 87.

Fixpoint parse36 (s : string) (v : Z) : Z :=
  match s with
  | EmptyString => v
  | String c r => parse36 r (36 * v + digitValue c)
  end.

(** The character [c] does not occur in [s]. *)
Fixpoint without (c : ascii) (s : string) : Prop :=
  match s with
  | EmptyString => True
  | String a r => a <> c /\ without c r
  end.

(** ** Well-formed events *)

(** The values [generateValue] can return for an event type. *)
Definition valueInRange (t : EventType) (v : number) : Prop :=
  match t with
  | metric => exists k, 0 <= k <= 999 /\ v = JS.div (JS.ofZ k) (JS.ofZ 10)
  | trace | span => exists k, 1 <= k <= 500 /\ v = JS.ofZ k
  | error => exists k, 400 <= k <= 899 /\ v = JS.ofZ k
  | log => exists k, 0 <= k <= 99 /\ v = JS.ofZ k
  end.

(** The event has a level and a message, taken from the pools. *)
Definition hasLevelAndMessage (e : TelemetryEvent.t) : Prop :=
  (exists l, TelemetryEvent.level e = Some l /\ In l LEVELS)
  /\ (exists m, TelemetryEvent.message e = Some m /\ In m SAMPLE_MESSAGES).


(** ** Magnitudes *)

(** A zero, or a finite number whose mantissa is below 2^53. *)
Definition finiteNumber (x : number) : Prop :=
  match x with
  | S754_zero _ => True
  | S754_finite _ m _ => Zpos m < 2 ^ 53
  | _ => False
  end.

(** A number that is not [NaN], its mantissa below 2^53 when it is
    finite. *)
Definition properNumber (x : number) : Prop :=
  match x with
  | S754_nan => False
  | S754_finite _ m _ => Zpos m < 2 ^ 53
  | _ => True
  end.

(** What [rng()] returns: [+0], or 53 digits at an exponent from -84 to
    -53. *)
Definition unitFraction (x : number) : Prop :=
  x = S754_zero false
  \/ exists m e, x = S754_finite false m e
                 /\ digits2_pos m = 53%positive /\ -84 <= e <= -53.

(** A number from 0 to 1: [+0], 1, or [m * 2^e] below 1. *)
Definition unitInterval (x : number) : Prop :=
  x = S754_zero false
  \/ x = S754_finite false 4503599627370496 (-52)
  \/ exists m e, x = S754_finite false m e /\ e < 0 /\ Zpos m < 2 ^ (- e).

(** The state the hook starts in. *)
Definition initialState : Hook.State :=
  Hook.mkState [] [] [] false true (JS.ofZ 0).


(** ** Generated values *)

(** The integers from 0 to 999, and their tenths, are numbers from 0 to
    999. *)
Definition withinChart (v : number) : bool :=
  andb (negb (JS.isNaN v))
       (andb (SFleb (JS.ofZ 0) v) (SFleb v (JS.ofZ 999))).

Definition smallValuesChecked : bool :=
  forallb (fun i => let k := Z.of_nat i in
                    andb (withinChart (JS.ofZ k))
                         (withinChart (JS.div (JS.ofZ k) (JS.ofZ 10))))
          (seq 0 1000).

(** The statistics of a bucket lie on the chart's scale. *)
Definition statisticsOnScale (b : AggregatedData.t) : Prop :=
  (1 <= AggregatedData.count b)%nat
  /\ SFleb (JS.ofZ 0) (AggregatedData.min b) = true
  /\ SFleb (AggregatedData.min b) (AggregatedData.p95 b) = true
  /\ SFleb (AggregatedData.p95 b) (AggregatedData.max b) = true
  /\ SFleb (AggregatedData.max b) (JS.ofZ 999) = true.


(** ** Rounding to nearest *)

(** Where the remainder [rho] of a division by [D] lies between zero, the
    half and the whole. *)
Definition locationOf (rho D : Z) : location :=
  if rho =? 0 then loc_Exact else loc_Inexact (2 * rho ?= D).

(** The record holds the integer part of [N / D] and the location of the
    rest. *)
Definition Located (mrs : shr_record) (N D : Z) : Prop :=
  exists rho, N = shr_m mrs * D + rho /\ 0 <= rho < D
              /\ loc_of_shr_record mrs = locationOf rho D.

(** The number of sign [s] and value [m * 2^e] that rounding returns for a
    mantissa [m] of at most 53 digits, or for [m = 2^53]. *)
Definition roundResult (s : bool) (m e : Z) : number :=
  match m with
  | Z0 => S754_zero s
  | Zpos p =>
      if Zpos p =? 9007199254740992
      then if e + 1 <=? 971 then S754_finite s 4503599627370496 (e + 1)
           else S754_infinity s
      else if e <=? 971 then S754_finite s p e else S754_infinity s
  | Zneg _ => S754_nan
  end.

(** The number of the integer [p], negated if [s]: the digits of [p]
    shifted to 53. *)
Definition intNumber (s : bool) (p : positive) : number :=
  S754_finite s (Pos.iter xO p (53 - digits2_pos p))
              (Zpos (digits2_pos p) - 53).

(** A number with its sign replaced. *)
Definition withSign (s : bool) (x : number) : number :=
  match x with
  | S754_zero _ => S754_zero s
  | S754_infinity _ => S754_infinity s
  | S754_nan => S754_nan
  | S754_finite _ m e => S754_finite s m e
  end.

(** ** Exact times and plain text *)

(** A time the worker computes with exactly: an integer below 2^51 in
    magnitude (a reading of the clock is about 2^41).  The sums and
    differences of two such times, and their bucket keys for the bucket
    sizes of the hook, are integers below 2^53, on which binary64 arithmetic
    does not round. *)
Definition exactTime (t : Z) : Prop := Z.abs t < 2 ^ 51.

(** The keys the source computes in binary64 for these events are the
    integer keys [keyOf] gives them. *)
Definition keysExact (bucketSize : Z) (events : list TelemetryEvent.t) : Prop :=
  Forall (fun e =>
            readKey (bucketKeyBinary64 (TelemetryEvent.timestamp e) bucketSize)
            = keyOf bucketSize e)
         events.

(** A string of ASCII characters.  On such strings [toLowerCase] changes
    the letters [A] to [Z] and nothing else, which is what [JS.toLowerCase]
    does. *)
Fixpoint isAscii (s : string) : bool :=
  match s with
  | EmptyString => true
  | String c r => andb (Nat.ltb (nat_of_ascii c) 128) (isAscii r)
  end.

Definition asciiQuery (f : FilterState.t) : Prop :=
  isAscii (FilterState.searchQuery f) = true.

Definition asciiMessage (e : TelemetryEvent.t) : Prop :=
  match TelemetryEvent.message e with
  | Some m => isAscii m = true
  | None => True
  end.

(** ** More sample data *)

(** The values 1..100 in ascending order. *)
Definition oneToHundred : list number :=
  map (fun i => JS.ofZ (Z.of_nat i)) (seq 1 100).

(** 100 events with timestamps 0..99 that carry the values 1..100 out of
    order: event [i] carries [37 * i mod 100 + 1]. *)
Definition scrambledEvents : list TelemetryEvent.t :=
  map (fun i => sampleEvent (Z.of_nat i)
                            (JS.ofZ (Z.of_nat ((37 * i) mod 100) + 1)))
      (seq 0 100).

(** Adjacent elements are in the order of the comparator. *)
Fixpoint ascendingb (l : list number) : bool :=
  match l with
  | a :: (b :: _) as r =>
      andb (match JS.subSign a b with Gt => false | _ => true end)
           (ascendingb r)
  | _ => true
  end.

(** An event with a message. *)
Definition messageEvent (timestamp : Z) (eventType : EventType)
  (message : string) : TelemetryEvent.t :=
  TelemetryEvent.mk "evt" timestamp (JS.ofZ 1) eventType api_gateway
                    (Some Level.info) (Some message).

Definition searchSample : list TelemetryEvent.t :=
  [messageEvent 200 metric "Request FAILED: timeout";
   messageEvent 300 metric "Request processed";
   messageEvent 400 log "Login failed";
   sampleEvent 500 (JS.ofZ 2);
   messageEvent 7000 metric "Write failed"].

(** Two filters with a query: the second restricts the first. *)
Definition broadSearch : FilterState.t :=
  FilterState.mk (TimeRange.mk 0 10000) [] [] "Fail".

Definition narrowSearch : FilterState.t :=
  FilterState.mk (TimeRange.mk 100 5000) [metric] [api_gateway] "failed".

(* ================================================================== *)
(** * Properties of the filter engine *)
(* ================================================================== *)

Section StringFacts.

Lemma startsWith_iff (s p : string) :
  JS.startsWith s p = true <-> exists post, s = (p ++ post)%string.
Proof.
  revert s. induction p as [|a p IH]; intros s; simpl.
  - split; [intros _; exists s; reflexivity | reflexivity].
  - destruct s as [|b s].
    + split; [discriminate | intros [post H]; discriminate].
    + rewrite andb_true_iff, IH. split.
      * intros [Hab [post ->]]. apply Ascii.eqb_eq in Hab. subst b.
        exists post. reflexivity.
      * intros [post H]. injection H as -> ->. split.
        -- apply Ascii.eqb_refl.
        -- exists post. reflexivity.
Qed.

Lemma includes_iff (s p : string) :
  JS.includes s p = true
  <-> exists pre post, s = (pre ++ p ++ post)%string.
Proof.
  induction s as [|c s IH]; simpl.
  - destruct (JS.startsWith EmptyString p) eqn:E.
    + apply startsWith_iff in E. destruct E as [post E].
      split; [intros _; exists EmptyString, post; exact E | reflexivity].
    + split; [discriminate|]. intros [pre [post H]].
      destruct pre; [|discriminate]. simpl in H.
      assert (JS.startsWith EmptyString p = true) by (apply startsWith_iff; eauto).
      congruence.
  - destruct (JS.startsWith (String c s) p) eqn:E.
    + apply startsWith_iff in E. destruct E as [post E].
      split; [intros _; exists EmptyString, post; exact E | reflexivity].
    + rewrite IH. split.
      * intros [pre [post ->]]. exists (String c pre), post. reflexivity.
      * intros [pre [post H]]. destruct pre as [|c' pre].
        -- simpl in H.
           assert (JS.startsWith (String c s) p = true)
             by (apply startsWith_iff; eauto).
           congruence.
        -- simpl in H. injection H as _ ->. eauto.
Qed.

Lemma truthy_false_iff (s : string) : JS.truthy s = false <-> s = EmptyString.
Proof. destruct s; simpl; split; congruence. Qed.

End StringFacts.

Lemma EventType_eqb_eq (a b : EventType) : EventType_eqb a b = true <-> a = b.
Proof. destruct a, b; simpl; split; congruence. Qed.

Lemma ServiceName_eqb_eq (a b : ServiceName) :
  ServiceName_eqb a b = true <-> a = b.
Proof. destruct a, b; simpl; split; congruence. Qed.

Lemma Array_includes_In {A} (eqb : A -> A -> bool)
  (eqb_eq : forall a b, eqb a b = true <-> a = b) (l : list A) (x : A) :
  JS.Array_includes eqb l x = true <-> In x l.
Proof.
  unfold JS.Array_includes. rewrite existsb_exists. split.
  - intros [y [Hy E]]. apply eqb_eq in E. subst y. exact Hy.
  - intros H. exists x. split; [exact H | apply eqb_eq; reflexivity].
Qed.

(** A guard "the selection is non-empty and the value is not in it" fails
    exactly when the selection is empty or has the value. *)
Lemma selection_guard {A} (eqb : A -> A -> bool)
  (eqb_eq : forall a b, eqb a b = true <-> a = b) (l : list A) (x : A) :
  andb (0 <? Z.of_nat (List.length l)) (negb (JS.Array_includes eqb l x)) = false
  <-> l = [] \/ In x l.
Proof.
  rewrite andb_false_iff, negb_false_iff, (Array_includes_In eqb eqb_eq).
  rewrite Z.ltb_ge. split.
  - intros [H | H]; [left | right; exact H].
    destruct l; [reflexivity | simpl List.length in H; lia].
  - intros [-> | H]; [left; simpl; lia | right; exact H].
Qed.

Lemma search_guard (f : FilterState.t) (e : TelemetryEvent.t) :
  andb (JS.truthy (FilterState.searchQuery f))
    (andb (JS.truthyOpt (TelemetryEvent.message e))
       (negb (match TelemetryEvent.message e with
              | Some m => JS.includes (JS.toLowerCase m)
                            (JS.toLowerCase (FilterState.searchQuery f))
              | None => false
              end))) = false
  <-> searchAdmits f e.
Proof.
  unfold searchAdmits, containsIgnoringCase.
  rewrite !andb_false_iff, truthy_false_iff.
  destruct (TelemetryEvent.message e) as [m|]; simpl.
  - rewrite truthy_false_iff, negb_false_iff, includes_iff. split.
    + intros [H | [H | H]]; [left; exact H | right; right; left; congruence |].
      right; right; right. exists m. split; [reflexivity | exact H].
    + intros [H | [H | [H | [m' [H1 H2]]]]].
      * left; exact H.
      * discriminate.
      * right; left. congruence.
      * right; right. injection H1 as ->. exact H2.
  - split; [intros _; right; left; reflexivity | intros _; right; left; reflexivity].
Qed.

(** The callback accepts exactly the events that satisfy the four clauses
    the filter applies. *)
Lemma filterCallback_iff (f : FilterState.t) (e : TelemetryEvent.t) :
  filterCallback f e = true <-> matches f e.
Proof.
  unfold filterCallback, matches, inTimeRange, typeSelected, serviceSelected.
  cbv zeta.
  pose proof (selection_guard EventType_eqb EventType_eqb_eq
                (FilterState.eventTypes f) (TelemetryEvent.eventType e)) as Ht.
  pose proof (selection_guard ServiceName_eqb ServiceName_eqb_eq
                (FilterState.services f) (TelemetryEvent.service e)) as Hs.
  pose proof (search_guard f e) as Hq.
  destruct (orb _ _) eqn:Er.
  - split; [discriminate|]. intros [[H1 H2] _].
    apply orb_true_iff in Er. destruct Er as [Er | Er].
    + apply Z.ltb_lt in Er. lia.
    + apply Z.gtb_lt in Er. lia.
  - apply orb_false_iff in Er. destruct Er as [Er1 Er2].
    apply Z.ltb_ge in Er1. rewrite Z.gtb_ltb in Er2. apply Z.ltb_ge in Er2.
    destruct (andb (0 <? _) (negb (JS.Array_includes EventType_eqb _ _))).
    + split; [discriminate|]. intros [_ [H _]]. apply Ht in H. discriminate.
    + destruct (andb (0 <? _) (negb (JS.Array_includes ServiceName_eqb _ _))).
      * split; [discriminate|]. intros [_ [_ [H _]]]. apply Hs in H. discriminate.
      * destruct (andb (JS.truthy _) _).
        -- split; [discriminate|]. intros [_ [_ [_ H]]]. apply Hq in H.
           discriminate.
        -- split; [intros _ | reflexivity].
           repeat split; try lia; [apply Ht | apply Hs | apply Hq]; reflexivity.
Qed.

Lemma filter_Selected {A} (p : A -> bool) (P : A -> Prop)
  (Hp : forall x, p x = true <-> P x) (l : list A) :
  Selected P l (filter p l).
Proof.
  induction l as [|x l IH]; simpl.
  - constructor.
  - destruct (p x) eqn:E.
    + apply Selected_keep; [apply Hp; exact E | exact IH].
    + apply Selected_drop; [|exact IH].
      intros H. apply Hp in H. congruence.
Qed.

Lemma Selected_unique {A} (P : A -> Prop) (l l1 l2 : list A) :
  Selected P l l1 -> Selected P l l2 -> l1 = l2.
Proof.
  intros H1. revert l2.
  induction H1; intros l2 H2; inversion H2; subst;
    try reflexivity; try contradiction.
  - f_equal. auto.
  - auto.
Qed.

Lemma Selected_Subsequence {A} (P : A -> Prop) (l l' : list A) :
  Selected P l l' -> Subsequence l' l.
Proof. induction 1; constructor; assumption. Qed.

Lemma Selected_In {A} (P : A -> Prop) (l l' : list A) :
  Selected P l l' -> forall x, In x l' <-> In x l /\ P x.
Proof.
  induction 1 as [|y l l' Hy _ IH|y l l' Hy _ IH]; intros x; simpl.
  - tauto.
  - rewrite IH. split.
    + intros [-> | [H1 H2]]; auto.
    + intros [[-> | H1] H2]; auto.
  - rewrite IH. split.
    + intros [H1 H2]; auto.
    + intros [[-> | H1] H2]; [contradiction | auto].
Qed.

Lemma filter_idempotent {A} (p : A -> bool) (l : list A) :
  filter p (filter p l) = filter p l.
Proof.
  induction l as [|x l IH]; simpl; [reflexivity|].
  destruct (p x) eqn:E; simpl; [rewrite E, IH | rewrite IH]; reflexivity.
Qed.

(** C8.  Filtering is idempotent: filtering a filtered list with the same
    filter state changes nothing. *)
Theorem filterEvents_idempotent
  (events : list TelemetryEvent.t) (f : FilterState.t) :
  filterEvents (filterEvents events f) f = filterEvents events f.
Proof.
  unfold filterEvents. apply filter_idempotent.
Qed.

(* ================================================================== *)
(** * Properties of the bucket size policy *)
(* ================================================================== *)

(** C9.  The bucket size is a step function of the span of the active time
    range alone: at most one hour gives 1-minute buckets, at most six hours
    5-minute buckets, at most 24 hours 15-minute buckets, anything longer
    1-hour buckets; so spans of 30 minutes, 3 hours, 20 hours and 48 hours
    give 1 minute, 5 minutes, 15 minutes and 1 hour.  It is the size the
    aggregation effect sends to the worker. *)
Theorem bucketSize_step_function :
  (forall f,
     let span := TimeRange.end_ (FilterState.timeRange f)
                 - TimeRange.start (FilterState.timeRange f) in
     (span <= 3600000 -> bucketSize f = 60000)
     /\ (3600000 < span <= 6 * 3600000 -> bucketSize f = 5 * 60000)
     /\ (6 * 3600000 < span <= 24 * 3600000 -> bucketSize f = 15 * 60000)
     /\ (24 * 3600000 < span -> bucketSize f = 3600000))
  /\ (forall f g,
        TimeRange.end_ (FilterState.timeRange f)
        - TimeRange.start (FilterState.timeRange f)
        = TimeRange.end_ (FilterState.timeRange g)
          - TimeRange.start (FilterState.timeRange g) ->
        bucketSize f = bucketSize g)
  /\ (forall start types svcs q,
        bucketSize (FilterState.mk (TimeRange.mk start (start + 30 * 60000))
                                   types svcs q) = 60000
        /\ bucketSize (FilterState.mk (TimeRange.mk start (start + 3 * 3600000))
                                      types svcs q) = 5 * 60000
        /\ bucketSize (FilterState.mk (TimeRange.mk start (start + 20 * 3600000))
                                      types svcs q) = 15 * 60000
        /\ bucketSize (FilterState.mk (TimeRange.mk start (start + 48 * 3600000))
                                      types svcs q) = 3600000)
  /\ (forall events agg f,
        events <> [] ->
        aggregateEffect events agg f
        = Some (Aggregate events agg (bucketSize f))).
Proof.
  assert (Hm : MINUTE = 60000) by reflexivity.
  assert (Hh : HOUR = 3600000) by reflexivity.
  split; [|split; [|split]].
  - intros f span. unfold bucketSize. fold span. rewrite Hm, Hh.
    repeat split; intros H;
      repeat match goal with
             | |- context [?a <=? ?b] => destruct (Z.leb_spec a b)
             end; lia.
  - intros f g H. unfold bucketSize. rewrite H. reflexivity.
  - intros start types svcs q. unfold bucketSize. simpl. rewrite Hm, Hh.
    repeat split;
      repeat match goal with
             | |- context [?a <=? ?b] => destruct (Z.leb_spec a b)
             end; lia.
  - intros events agg f H. unfold aggregateEffect.
    destruct events as [|e events]; [contradiction|]. reflexivity.
Qed.

(* ================================================================== *)
(** * Properties of [Array.prototype.sort] *)
(* ================================================================== *)

Section SortFacts.
Context {A : Type} (cmp : A -> A -> comparison).

Lemma insert_Permutation (x : A) (l : list A) :
  Permutation (JS.insert cmp x l) (x :: l).
Proof.
  induction l as [|y l IH]; simpl; [reflexivity|].
  destruct (cmp x y); try reflexivity.
  rewrite IH. apply perm_swap.
Qed.

Lemma Array_sort_Permutation (l : list A) :
  Permutation (JS.Array_sort cmp l) l.
Proof.
  induction l as [|x l IH]; simpl; [reflexivity|].
  rewrite insert_Permutation. constructor. exact IH.
Qed.

Lemma Array_sort_length (l : list A) :
  List.length (JS.Array_sort cmp l) = List.length l.
Proof. apply Permutation_length, Array_sort_Permutation. Qed.

Lemma Array_sort_In (l : list A) (x : A) :
  In x (JS.Array_sort cmp l) <-> In x l.
Proof.
  split; apply Permutation_in;
    [|symmetry]; apply Array_sort_Permutation.
Qed.

(** On elements on which the comparator is a total preorder, the result is
    ascending. *)
Variable P : A -> Prop.
Hypothesis cmp_swap :
  forall x y, P x -> P y -> cmp x y = Gt -> cmp y x <> Gt.
Hypothesis cmp_trans :
  forall x y z, P x -> P y -> P z ->
                cmp x y <> Gt -> cmp y z <> Gt -> cmp x z <> Gt.

Lemma insert_sorted (x : A) (l : list A) :
  P x -> Forall P l ->
  StronglySorted (fun a b => cmp a b <> Gt) l ->
  StronglySorted (fun a b => cmp a b <> Gt) (JS.insert cmp x l).
Proof.
  intros Hx Hl Hs. induction Hs as [|y l Hs IH Hy]; simpl.
  - constructor; constructor.
  - inversion Hl as [|? ? Py Pl]; subst.
    destruct (cmp x y) eqn:E.
    + constructor; [constructor; assumption|].
      constructor; [congruence|].
      rewrite Forall_forall in *. intros z Hz.
      apply (cmp_trans x y z); auto; congruence.
    + constructor; [constructor; assumption|].
      constructor; [congruence|].
      rewrite Forall_forall in *. intros z Hz.
      apply (cmp_trans x y z); auto; congruence.
    + constructor; [apply IH; assumption|].
      rewrite Forall_forall in *. intros z Hz.
      apply (Permutation_in _ (insert_Permutation x l)) in Hz.
      destruct Hz as [<- | Hz]; [apply cmp_swap; assumption | auto].
Qed.

Lemma Array_sort_sorted (l : list A) :
  Forall P l -> StronglySorted (fun a b => cmp a b <> Gt) (JS.Array_sort cmp l).
Proof.
  induction 1 as [|x l Hx Hl IH]; simpl; [constructor|].
  apply insert_sorted; [assumption| |assumption].
  rewrite Forall_forall in *. intros z Hz. apply Hl.
  exact (proj1 (Array_sort_In l z) Hz).
Qed.

End SortFacts.

(** Sorting commutes with a map that the comparators respect. *)
Lemma Array_sort_map {A B} (g : A -> B)
  (cmpA : A -> A -> comparison) (cmpB : B -> B -> comparison)
  (H : forall x y, cmpA x y = cmpB (g x) (g y)) (l : list A) :
  map g (JS.Array_sort cmpA l) = JS.Array_sort cmpB (map g l).
Proof.
  induction l as [|x l IH]; simpl; [reflexivity|].
  rewrite <- IH. generalize (JS.Array_sort cmpA l) as s.
  induction s as [|y s IHs]; simpl; [reflexivity|].
  rewrite <- H. destruct (cmpA x y); simpl; try reflexivity.
  rewrite IHs. reflexivity.
Qed.

Lemma StronglySorted_nth {A} (R : A -> A -> Prop) (l : list A) (d : A) :
  StronglySorted R l -> (forall x, In x l -> R x x) ->
  forall i j, (i <= j < List.length l)%nat -> R (nth i l d) (nth j l d).
Proof.
  induction 1 as [|x l Hs IH Hx]; intros Hr i j Hij; simpl in Hij; [lia|].
  destruct j as [|j].
  - assert (i = 0%nat) by lia. subst i. simpl. apply Hr. left. reflexivity.
  - destruct i as [|i]; simpl.
    + rewrite Forall_forall in Hx. apply Hx. apply nth_In. lia.
    + apply IH; [|lia]. intros y Hy. apply Hr. right. exact Hy.
Qed.

(* ================================================================== *)
(** * The order of numbers *)
(* ================================================================== *)

Ltac order_cases :=
  repeat match goal with
    | |- context [Pos.compare_cont Eq ?a ?b] =>
        change (Pos.compare_cont Eq a b) with (Pos.compare a b)
    | H : context [Pos.compare_cont Eq ?a ?b] |- _ =>
        change (Pos.compare_cont Eq a b) with (Pos.compare a b) in H
    | |- context [Z.compare ?a ?b] => destruct (Z.compare_spec a b)
    | H : context [Z.compare ?a ?b] |- _ => destruct (Z.compare_spec a b)
    | |- context [Pos.compare ?a ?b] => destruct (Pos.compare_spec a b)
    | H : context [Pos.compare ?a ?b] |- _ => destruct (Pos.compare_spec a b)
    end.

Lemma subSign_swap (x y : number) :
  notNaN x -> notNaN y -> JS.subSign x y = Gt -> JS.subSign y x <> Gt.
Proof.
  unfold notNaN, JS.subSign, SFcompare.
  destruct x as [sx|sx| |sx mx ex], y as [sy|sy| |sy my ey];
    simpl; try discriminate; intros _ _;
    try destruct sx; try destruct sy; simpl; try congruence;
    intros H1; order_cases; simpl in *; try congruence; try lia.
Qed.

Lemma subSign_trans (x y z : number) :
  notNaN x -> notNaN y -> notNaN z ->
  JS.subSign x y <> Gt -> JS.subSign y z <> Gt -> JS.subSign x z <> Gt.
Proof.
  unfold notNaN, JS.subSign, SFcompare.
  destruct x as [sx|sx| |sx mx ex], y as [sy|sy| |sy my ey],
           z as [sz|sz| |sz mz ez];
    simpl; try discriminate; intros _ _ _;
    try destruct sx; try destruct sy; try destruct sz; simpl; try congruence;
    intros H1 H2; order_cases; simpl in *; try congruence; try lia.
Qed.

Lemma subSign_refl (x : number) : JS.subSign x x <> Gt.
Proof.
  unfold JS.subSign, SFcompare.
  destruct x as [sx|sx| |sx mx ex]; try destruct sx; simpl; try congruence;
    rewrite Z.compare_refl;
    change (Pos.compare_cont Eq mx mx) with (Pos.compare mx mx);
    rewrite Pos.compare_refl; simpl; congruence.
Qed.

(** On numbers that are not [NaN] the comparator's order is [SFleb]. *)
Lemma numLe_SFleb (x y : number) :
  notNaN x -> notNaN y -> numLe x y -> SFleb x y = true.
Proof.
  intros Hx Hy H. unfold numLe, JS.subSign in H. unfold SFleb.
  destruct (SFcompare x y) as [[| |]|] eqn:E; try reflexivity; [congruence|].
  unfold notNaN in *.
  destruct x as [[]|[]| |[] ? ?], y as [[]|[]| |[] ? ?];
    simpl in *; discriminate.
Qed.

(* ================================================================== *)
(** * The integer and order readings against binary64 *)
(* ================================================================== *)

(** With bucket size zero the binary64 key is [NaN] whatever the
    timestamp: the quotient is an infinity or [NaN], and so is its floor,
    whose product with zero is [NaN]. *)
Lemma bucketKeyBinary64_zero (timestamp : Z) :
  bucketKeyBinary64 timestamp 0 = S754_nan.
Proof.
  unfold bucketKeyBinary64. change (JS.ofZ 0) with (S754_zero false).
  destruct (JS.ofZ timestamp) as [s|s| |s m e]; reflexivity.
Qed.

(** On the sample timestamps and bucket sizes the binary64 key reads as
    [bucketKey]. *)
Lemma bucketKey_reads_binary64 :
  forallb (fun tw => BucketKey_eqb (readKey (bucketKeyBinary64 (fst tw) (snd tw)))
                                   (bucketKey (fst tw) (snd tw)))
          sampleKeys = true.
Proof. vm_compute. reflexivity. Qed.

(** On the sample numbers the sign of the binary64 difference is the order
    [subSign] reports. *)
Lemma subSign_reads_difference :
  forallb (fun a =>
             forallb (fun b =>
                        match differenceSign a b, JS.subSign a b with
                        | Lt, Lt | Eq, Eq | Gt, Gt => true
                        | _, _ => false
                        end)
                     sampleNumbers)
          sampleNumbers = true.
Proof. vm_compute. reflexivity. Qed.


(* ================================================================== *)
(** * Properties of the grouping loop *)
(* ================================================================== *)

Lemma BucketKey_eqb_eq (a b : BucketKey) : BucketKey_eqb a b = true <-> a = b.
Proof.
  destruct a, b; simpl; split; try congruence.
  - intros H. apply Z.eqb_eq in H. congruence.
  - intros H. injection H as ->. apply Z.eqb_refl.
Qed.

Lemma BucketKey_eqb_refl (a : BucketKey) : BucketKey_eqb a a = true.
Proof. apply BucketKey_eqb_eq. reflexivity. Qed.

Lemma BucketKey_eqb_sym (a b : BucketKey) :
  BucketKey_eqb a b = BucketKey_eqb b a.
Proof.
  destruct (BucketKey_eqb a b) eqn:E1, (BucketKey_eqb b a) eqn:E2;
    try reflexivity.
  - apply BucketKey_eqb_eq in E1. subst. rewrite BucketKey_eqb_refl in E2.
    discriminate.
  - apply BucketKey_eqb_eq in E2. subst. rewrite BucketKey_eqb_refl in E1.
    discriminate.
Qed.

Lemma Map_get_set (m : Buckets) (k0 k : BucketKey) (v : list number) :
  Map_get (Map_set m k0 v) k
  = if BucketKey_eqb k k0 then Some v else Map_get m k.
Proof.
  induction m as [|[k' v'] m IH]; simpl; [reflexivity|].
  destruct (BucketKey_eqb k0 k') eqn:E0; simpl.
  - apply BucketKey_eqb_eq in E0. subst k'.
    destruct (BucketKey_eqb k k0); reflexivity.
  - rewrite IH. destruct (BucketKey_eqb k k') eqn:E1; [|reflexivity].
    apply BucketKey_eqb_eq in E1. subst k'.
    rewrite BucketKey_eqb_sym, E0. reflexivity.
Qed.

Lemma Map_get_In (m : Buckets) (k : BucketKey) (v : list number) :
  Map_get m k = Some v -> In (k, v) m.
Proof.
  induction m as [|[k' v'] m IH]; simpl; [discriminate|].
  destruct (BucketKey_eqb k k') eqn:E.
  - apply BucketKey_eqb_eq in E. subst k'. intros H. injection H as ->.
    left. reflexivity.
  - intros H. right. apply IH. exact H.
Qed.

Lemma Map_get_None (m : Buckets) (k : BucketKey) :
  Map_get m k = None -> ~ In k (map fst m).
Proof.
  induction m as [|[k' v'] m IH]; simpl; [tauto|].
  destruct (BucketKey_eqb k k') eqn:E; [discriminate|].
  intros H [H1 | H1]; [|exact (IH H H1)].
  subst k'. rewrite BucketKey_eqb_refl in E. discriminate.
Qed.

Lemma In_Map_get (m : Buckets) (k : BucketKey) (v : list number) :
  NoDup (map fst m) -> In (k, v) m -> Map_get m k = Some v.
Proof.
  induction m as [|[k' v'] m IH]; simpl; [tauto|].
  intros Hnd [H | H].
  - injection H as -> ->. rewrite BucketKey_eqb_refl. reflexivity.
  - inversion Hnd as [|? ? Hk Hm]; subst.
    destruct (BucketKey_eqb k k') eqn:E; [|apply IH; assumption].
    apply BucketKey_eqb_eq in E. subst k'.
    exfalso. apply Hk. apply (in_map fst) in H. exact H.
Qed.

(** [Map_set] on a key that is present keeps the keys; on a new key it adds
    the key at the end. *)
Lemma Map_set_keys (m : Buckets) (k : BucketKey) (v : list number) :
  map fst (Map_set m k v)
  = match Map_get m k with
    | Some _ => map fst m
    | None => map fst m ++ [k]
    end.
Proof.
  induction m as [|[k' v'] m IH]; simpl; [reflexivity|].
  destruct (BucketKey_eqb k k') eqn:E; simpl.
  - apply BucketKey_eqb_eq in E. subst k'. reflexivity.
  - rewrite IH. destruct (Map_get m k); reflexivity.
Qed.

Lemma Map_set_values_present (m : Buckets) (k : BucketKey)
  (bucket : list number) (v : number) :
  Map_get m k = Some bucket ->
  Permutation (List.concat (map snd (Map_set m k (bucket ++ [v]))))
              (v :: List.concat (map snd m)).
Proof.
  induction m as [|[k' v'] m IH]; simpl; [discriminate|].
  destruct (BucketKey_eqb k k') eqn:E; simpl.
  - intros H. injection H as ->.
    rewrite <- app_assoc. simpl.
    rewrite <- Permutation_middle. reflexivity.
  - intros H. rewrite (IH H).
    rewrite Permutation_middle. reflexivity.
Qed.

Lemma Map_set_values_absent (m : Buckets) (k : BucketKey) (v : number) :
  Map_get m k = None ->
  List.concat (map snd (Map_set m k [v])) = List.concat (map snd m) ++ [v].
Proof.
  induction m as [|[k' v'] m IH]; simpl; [reflexivity|].
  destruct (BucketKey_eqb k k') eqn:E; simpl; [discriminate|].
  intros H. rewrite (IH H), app_assoc. reflexivity.
Qed.

Lemma valuesAt_app (w : Z) (k : BucketKey) (l1 l2 : list TelemetryEvent.t) :
  valuesAt w k (l1 ++ l2) = valuesAt w k l1 ++ valuesAt w k l2.
Proof. unfold valuesAt. rewrite filter_app, map_app. reflexivity. Qed.

Lemma Grouped_nil (w : Z) : Grouped w [] [].
Proof. split; simpl; [constructor | reflexivity | reflexivity]. Qed.

Lemma Grouped_step (w : Z) (seen : list TelemetryEvent.t) (m : Buckets)
  (e : TelemetryEvent.t) :
  Grouped w seen m -> Grouped w (seen ++ [e]) (groupStep w m e).
Proof.
  intros [Hk Hg Hv]. unfold groupStep.
  fold (keyOf w e). set (k0 := keyOf w e).
  assert (Hlast : forall k,
             valuesAt w k (seen ++ [e])
             = valuesAt w k seen
               ++ (if BucketKey_eqb k0 k then [TelemetryEvent.value e] else [])).
  { intros k. rewrite valuesAt_app. f_equal. unfold valuesAt. simpl.
    fold k0. destruct (BucketKey_eqb k0 k); reflexivity. }
  destruct (Map_get m k0) as [bucket|] eqn:E0.
  - assert (Hb : valuesAt w k0 seen = bucket).
    { specialize (Hg k0). rewrite E0 in Hg.
      destruct (valuesAt w k0 seen); congruence. }
    split.
    + rewrite Map_set_keys, E0. exact Hk.
    + intros k. rewrite Map_get_set, Hlast, (BucketKey_eqb_sym k0 k).
      destruct (BucketKey_eqb k k0) eqn:E.
      * apply BucketKey_eqb_eq in E. subst k. rewrite Hb.
        destruct bucket; reflexivity.
      * rewrite app_nil_r. apply Hg.
    + rewrite (Map_set_values_present _ _ _ _ E0), map_app. simpl.
      rewrite <- Permutation_cons_append. constructor. exact Hv.
  - assert (Hb : valuesAt w k0 seen = []).
    { specialize (Hg k0). rewrite E0 in Hg.
      destruct (valuesAt w k0 seen); congruence. }
    split.
    + rewrite Map_set_keys, E0.
      apply NoDup_app; [exact Hk | repeat constructor; simpl; tauto |].
      intros k Hin [<- | []]. exact (Map_get_None _ _ E0 Hin).
    + intros k. rewrite Map_get_set, Hlast, (BucketKey_eqb_sym k0 k).
      destruct (BucketKey_eqb k k0) eqn:E.
      * apply BucketKey_eqb_eq in E. subst k. rewrite Hb. reflexivity.
      * rewrite app_nil_r. apply Hg.
    + rewrite (Map_set_values_absent _ _ _ E0), map_app. simpl.
      apply Permutation_app_tail. exact Hv.
Qed.

Lemma Grouped_fold (w : Z) (rest seen : list TelemetryEvent.t) (m : Buckets) :
  Grouped w seen m ->
  Grouped w (seen ++ rest) (fold_left (groupStep w) rest m).
Proof.
  revert seen m. induction rest as [|e rest IH]; intros seen m H; simpl.
  - rewrite app_nil_r. exact H.
  - replace (seen ++ e :: rest) with ((seen ++ [e]) ++ rest)
      by (rewrite <- app_assoc; reflexivity).
    apply IH. apply Grouped_step. exact H.
Qed.

Lemma groupValues_Grouped (events : list TelemetryEvent.t) (w : Z) :
  Grouped w events (groupValues events w).
Proof. exact (Grouped_fold w events [] [] (Grouped_nil w)). Qed.

(** The entries of the map: a key is present exactly when an event carries
    it, and its array is the values of those events. *)
Lemma groupValues_entries (events : list TelemetryEvent.t) (w : Z)
  (k : BucketKey) (vs : list number) :
  In (k, vs) (groupValues events w)
  <-> vs = valuesAt w k events /\ vs <> [].
Proof.
  pose proof (groupValues_Grouped events w) as [Hk Hg Hv]. split.
  - intros H. apply (In_Map_get _ _ _ Hk) in H. rewrite Hg in H.
    destruct (valuesAt w k events) eqn:E; [discriminate|].
    injection H as <-. split; [reflexivity | discriminate].
  - intros [-> Hne]. apply Map_get_In. rewrite Hg.
    destruct (valuesAt w k events); [contradiction | reflexivity].
Qed.

Lemma valuesAt_nonempty (w : Z) (k : BucketKey) (events : list TelemetryEvent.t) :
  valuesAt w k events <> [] <-> exists e, In e events /\ keyOf w e = k.
Proof.
  unfold valuesAt. split.
  - intros H.
    destruct (filter _ events) as [|e l] eqn:E; [contradiction|].
    assert (Hin : In e (filter (fun e => BucketKey_eqb (keyOf w e) k) events))
      by (rewrite E; left; reflexivity).
    apply filter_In in Hin. destruct Hin as [Hin Hk].
    exists e. split; [exact Hin | apply BucketKey_eqb_eq; exact Hk].
  - intros [e [Hin Hk]] H.
    assert (Hf : In e (filter (fun e => BucketKey_eqb (keyOf w e) k) events)).
    { apply filter_In. split; [exact Hin | apply BucketKey_eqb_eq; exact Hk]. }
    destruct (filter _ events); [contradiction | discriminate].
Qed.

(* ================================================================== *)
(** * Properties of the aggregation engine *)
(* ================================================================== *)

(** The short-circuit on an empty input agrees with the general path. *)
Lemma aggregateEvents_unfold (events : list TelemetryEvent.t) (w : Z) :
  aggregateEvents events w
  = JS.Array_sort compareTimestamps (map summarize (groupValues events w)).
Proof. destruct events; reflexivity. Qed.

Lemma aggregateEvents_Permutation (events : list TelemetryEvent.t) (w : Z) :
  Permutation (aggregateEvents events w)
              (map summarize (groupValues events w)).
Proof. rewrite aggregateEvents_unfold. apply Array_sort_Permutation. Qed.

(** Every bucket returned summarizes one entry of the map. *)
Lemma aggregateEvents_In (events : list TelemetryEvent.t) (w : Z)
  (b : AggregatedData.t) :
  In b (aggregateEvents events w)
  <-> exists k vs, In (k, vs) (groupValues events w) /\ b = summarize (k, vs).
Proof.
  split.
  - intros H. apply (Permutation_in _ (aggregateEvents_Permutation events w)) in H.
    apply in_map_iff in H. destruct H as [[k vs] [H1 H2]].
    exists k, vs. split; [exact H2 | symmetry; exact H1].
  - intros [k [vs [H1 ->]]].
    apply (Permutation_in _ (Permutation_sym (aggregateEvents_Permutation events w))).
    apply in_map. exact H1.
Qed.

Lemma summarize_timestamp (entry : BucketKey * list number) :
  AggregatedData.timestamp (summarize entry) = fst entry.
Proof. reflexivity. Qed.

Lemma summarize_count (entry : BucketKey * list number) :
  AggregatedData.count (summarize entry) = List.length (snd entry).
Proof. unfold summarize. simpl. apply Array_sort_length. Qed.

Lemma length_concat_sum {A} (ls : list (list A)) :
  List.length (List.concat ls) = list_sum (map (@List.length A) ls).
Proof.
  induction ls as [|l ls IH]; simpl; [reflexivity|].
  rewrite length_app, IH. reflexivity.
Qed.

Lemma list_sum_Permutation (l1 l2 : list nat) :
  Permutation l1 l2 -> list_sum l1 = list_sum l2.
Proof. induction 1; simpl; lia. Qed.

Lemma aggregateEvents_keys (events : list TelemetryEvent.t) (w : Z) :
  Permutation (map AggregatedData.timestamp (aggregateEvents events w))
              (map fst (groupValues events w)).
Proof.
  rewrite (Permutation_map _ (aggregateEvents_Permutation events w)).
  rewrite map_map. reflexivity.
Qed.

(** C6.  For a positive bucket size the value collections of the buckets
    partition the input: together they hold the input values as a multiset,
    each collection holding the values of the events of its key; the bucket
    counts are the collection sizes and add up to the number of events; an
    empty input gives no bucket; and the buckets returned are keyed, without
    repetition, by exactly the keys that some event carries. *)
Theorem aggregation_partitions_input
  (events : list TelemetryEvent.t) (w : Z) (Hw : 0 < w) :
  Permutation (List.concat (map snd (groupValues events w)))
              (map TelemetryEvent.value events)
  /\ (forall k vs, In (k, vs) (groupValues events w)
                   <-> vs = valuesAt w k events /\ vs <> [])
  /\ Permutation
       (map (fun b => (AggregatedData.timestamp b, AggregatedData.count b))
            (aggregateEvents events w))
       (map (fun entry => (fst entry, List.length (snd entry)))
            (groupValues events w))
  /\ list_sum (map AggregatedData.count (aggregateEvents events w))
     = List.length events
  /\ aggregateEvents [] w = []
  /\ NoDup (map AggregatedData.timestamp (aggregateEvents events w))
  /\ (forall k, In k (map AggregatedData.timestamp (aggregateEvents events w))
                <-> exists e, In e events /\ keyOf w e = k).
Proof.
  pose proof (groupValues_Grouped events w) as [Hk Hg Hv].
  pose proof (aggregateEvents_Permutation events w) as Hp.
  assert (Hpairs :
    Permutation
       (map (fun b => (AggregatedData.timestamp b, AggregatedData.count b))
            (aggregateEvents events w))
       (map (fun entry => (fst entry, List.length (snd entry)))
            (groupValues events w))).
  { rewrite (Permutation_map _ Hp), map_map.
    erewrite map_ext; [reflexivity|].
    intros entry. rewrite summarize_timestamp, summarize_count. reflexivity. }
  split; [exact Hv|].
  split; [intros k vs; apply groupValues_entries|].
  split; [exact Hpairs|].
  split; [|split; [reflexivity|split]].
  - rewrite (list_sum_Permutation _ _ (Permutation_map _ Hp)), map_map.
    erewrite map_ext; [|intros entry; apply summarize_count].
    rewrite <- (map_map snd (@List.length number)), <- length_concat_sum.
    rewrite (Permutation_length Hv). apply length_map.
  - apply (Permutation_NoDup (Permutation_sym (aggregateEvents_keys events w))).
    exact Hk.
  - intros k. split.
    + intros H. apply (Permutation_in _ (aggregateEvents_keys events w)) in H.
      apply in_map_iff in H. destruct H as [[k' vs] [E H]]. simpl in E. subst k'.
      apply groupValues_entries in H. destruct H as [-> H].
      apply valuesAt_nonempty in H. exact H.
    + intros H. apply valuesAt_nonempty in H.
      apply (Permutation_in _ (Permutation_sym (aggregateEvents_keys events w))).
      apply in_map_iff. exists (k, valuesAt w k events). split; [reflexivity|].
      apply groupValues_entries. split; [reflexivity | exact H].
Qed.

(** A bucket size of 1000 and the four events of the specification's
    aggregation example satisfy the hypothesis of C6. *)
Lemma aggregation_partitions_sample :
  Permutation
    (List.concat (map snd (groupValues
       [sampleEvent 0 (JS.ofZ 10); sampleEvent 500 (JS.ofZ 20);
        sampleEvent 1000 (JS.ofZ 30); sampleEvent 1500 (JS.ofZ 40)] 1000)))
    [JS.ofZ 10; JS.ofZ 20; JS.ofZ 30; JS.ofZ 40].
Proof.
  exact (proj1 (aggregation_partitions_input
    [sampleEvent 0 (JS.ofZ 10); sampleEvent 500 (JS.ofZ 20);
     sampleEvent 1000 (JS.ofZ 30); sampleEvent 1500 (JS.ofZ 40)] 1000
    eq_refl)).
Defined.

(** An event is counted in the bucket of its key. *)
Lemma aggregateEvents_has_bucket (events : list TelemetryEvent.t) (w : Z)
  (e : TelemetryEvent.t) :
  In e events ->
  exists b, In b (aggregateEvents events w)
            /\ AggregatedData.timestamp b = keyOf w e
            /\ AggregatedData.count b
               = List.length (valuesAt w (keyOf w e) events).
Proof.
  intros Hin.
  exists (summarize (keyOf w e, valuesAt w (keyOf w e) events)).
  split; [|split].
  - apply aggregateEvents_In. exists (keyOf w e), (valuesAt w (keyOf w e) events).
    split; [|reflexivity].
    apply groupValues_entries. split; [reflexivity|].
    apply valuesAt_nonempty. exists e. split; [exact Hin | reflexivity].
  - reflexivity.
  - apply summarize_count.
Qed.

(** With bucket size zero every event has the key [NaN]. *)
Lemma groupValues_zero (events : list TelemetryEvent.t) :
  events <> [] ->
  groupValues events 0 = [(NaN, map TelemetryEvent.value events)].
Proof.
  intros Hne.
  assert (Hall : forall k, valuesAt 0 k events
                           = if BucketKey_eqb NaN k
                             then map TelemetryEvent.value events else []).
  { clear Hne. intros k. unfold valuesAt, keyOf, bucketKey.
    destruct k; simpl; induction events as [|e l IH]; simpl; congruence. }
  pose proof (groupValues_Grouped events 0) as [Hk Hg _].
  destruct (groupValues events 0) as [|[k vs] m] eqn:E.
  - specialize (Hg NaN). rewrite Hall in Hg. simpl in Hg.
    destruct events; [contradiction | discriminate].
  - assert (Hin : forall k' vs', In (k', vs') ((k, vs) :: m) ->
                    k' = NaN /\ vs' = map TelemetryEvent.value events).
    { intros k' vs' Hin. rewrite <- E in Hin.
      apply groupValues_entries in Hin. destruct Hin as [-> Hn].
      rewrite Hall in *. destruct k'; [split; reflexivity|].
      simpl in Hn. contradiction. }
    destruct (Hin k vs (or_introl eq_refl)) as [-> ->].
    destruct m as [|[k2 vs2] m]; [reflexivity|].
    destruct (Hin k2 vs2 (or_intror (or_introl eq_refl))) as [-> _].
    inversion Hk as [|? ? Hnotin _]. exfalso. apply Hnotin. left. reflexivity.
Qed.

(* ================================================================== *)
(** * Signs and the 95% index *)
(* ================================================================== *)

Lemma binary_round_aux_signClear (m e : Z) (l : location) :
  signClear (binary_round_aux JS.prec JS.emax false m e l).
Proof.
  unfold binary_round_aux.
  destruct (shr_fexp JS.prec JS.emax m e l) as [mrs' e'].
  destruct (shr_fexp JS.prec JS.emax _ e' loc_Exact) as [mrs'' e''].
  destruct (shr_m mrs''); simpl.
  - reflexivity.
  - destruct (e'' <=? 971); reflexivity.
  - exact I.
Qed.

Lemma ofZ_signClear (n : Z) : 0 <= n -> signClear (JS.ofZ n).
Proof.
  intros Hn. unfold JS.ofZ, binary_normalize.
  destruct n as [|p|p]; [reflexivity | | lia].
  unfold binary_round.
  destruct (shl_align p 0 _) as [mz ez].
  apply binary_round_aux_signClear.
Qed.

Lemma mul_signClear (x y : number) :
  signClear x -> signClear y -> signClear (JS.mul x y).
Proof.
  unfold JS.mul, SFmul.
  destruct x as [sx|sx| |sx mx ex], y as [sy|sy| |sy my ey]; simpl;
    try (intros -> ->; reflexivity); try (intros; exact I).
  intros -> ->. apply binary_round_aux_signClear.
Qed.

Lemma Math_floor_signClear (x : number) :
  signClear x -> signClear (JS.Math_floor x).
Proof.
  destruct x as [s|s| |s m e]; simpl; try (intros H; exact H).
  intros ->. destruct (Z.leb_spec 0 e); [reflexivity|]. simpl.
  destruct (Z.pos m / 2 ^ (- e) =? 0) eqn:E; [reflexivity|].
  apply ofZ_signClear. apply Z.div_pos; [lia|].
  apply Z.pow_pos_nonneg; lia.
Qed.

Lemma toZ_nonneg (x : number) : signClear x -> 0 <= JS.toZ x.
Proof.
  destruct x as [s|s| |s m e]; unfold signClear, JS.toZ; try (intros _; lia).
  intros ->. unfold cond_Zopp. destruct (Z.leb_spec 0 e).
  - apply Z.mul_nonneg_nonneg; [lia|]. apply Z.pow_nonneg. lia.
  - apply Z.div_pos; [lia|]. apply Z.pow_pos_nonneg; lia.
Qed.

Lemma p95Index_nonneg (n : Z) : 0 <= n -> 0 <= p95Index n.
Proof.
  intros Hn. unfold p95Index.
  apply toZ_nonneg, Math_floor_signClear, mul_signClear.
  - apply ofZ_signClear. exact Hn.
  - reflexivity.
Qed.

(* ================================================================== *)
(** * Properties of the bucket statistics *)
(* ================================================================== *)

Lemma Array_get_nth (values : list number) (i : Z) :
  0 <= i -> Array_get values i = nth (Z.to_nat i) values S754_nan.
Proof.
  intros Hi. unfold Array_get. destruct (Z.ltb_spec i 0); [lia | reflexivity].
Qed.

(** The index at which [summarize] reads the p95 of [n] sorted values. *)
Lemma p95_read_in_range (n : nat) :
  (1 <= n)%nat ->
  exists i : nat,
    Z.of_nat i = Z.min (p95Index (Z.of_nat n)) (Z.of_nat n - 1) /\ (i < n)%nat.
Proof.
  intros Hn. pose proof (p95Index_nonneg (Z.of_nat n) ltac:(lia)) as Hp.
  exists (Z.to_nat (Z.min (p95Index (Z.of_nat n)) (Z.of_nat n - 1))).
  split; [rewrite Z2Nat.id; lia | lia].
Qed.

(** The fields of a bucket in terms of its sorted values. *)
Lemma summarize_fields (k : BucketKey) (values : list number) :
  values <> [] ->
  let sorted := JS.Array_sort JS.subSign values in
  let b := summarize (k, values) in
  let n := List.length sorted in
  AggregatedData.count b = n
  /\ (1 <= n)%nat
  /\ AggregatedData.sum b = fold_left JS.add sorted (JS.ofZ 0)
  /\ AggregatedData.avg b
     = JS.div (AggregatedData.sum b) (JS.ofZ (Z.of_nat n))
  /\ AggregatedData.min b = nth 0 sorted S754_nan
  /\ AggregatedData.max b = nth (n - 1) sorted S754_nan
  /\ (exists i : nat,
        Z.of_nat i = Z.min (p95Index (Z.of_nat n)) (Z.of_nat n - 1)
        /\ (i < n)%nat
        /\ AggregatedData.p95 b = nth i sorted S754_nan).
Proof.
  intros Hne sorted b n.
  assert (Hn : (1 <= n)%nat).
  { unfold n, sorted. rewrite Array_sort_length.
    destruct values; [contradiction | simpl; lia]. }
  split; [reflexivity|]. split; [exact Hn|]. split; [reflexivity|].
  split; [reflexivity|]. split; [reflexivity|]. split.
  - unfold b, summarize. cbn [AggregatedData.max snd]. fold sorted. fold n.
    rewrite Array_get_nth by lia. f_equal. lia.
  - destruct (p95_read_in_range n Hn) as [i [Hi Hlt]].
    exists i. split; [exact Hi|]. split; [exact Hlt|].
    unfold b, summarize. cbn [AggregatedData.p95 snd]. fold sorted. fold n.
    rewrite <- Hi, Array_get_nth by lia. rewrite Nat2Z.id. reflexivity.
Qed.

Lemma p95Index_one : p95Index 1 = 0.
Proof. vm_compute. reflexivity. Qed.

(** A single event makes one bucket, which holds its value alone. *)
Lemma aggregateEvents_single (e : TelemetryEvent.t) (w : Z) :
  aggregateEvents [e] w = [summarize (keyOf w e, [TelemetryEvent.value e])].
Proof. rewrite aggregateEvents_unfold. reflexivity. Qed.

Lemma summarize_single_p95 (k : BucketKey) (v : number) :
  AggregatedData.p95 (summarize (k, [v])) = v.
Proof.
  unfold summarize.
  cbn [AggregatedData.p95 snd JS.Array_sort fold_right JS.insert List.length].
  change (Z.of_nat 1) with 1. rewrite p95Index_one. reflexivity.
Qed.

Lemma valuesAt_notNaN (w : Z) (k : BucketKey) (events : list TelemetryEvent.t) :
  Forall (fun e => notNaN (TelemetryEvent.value e)) events ->
  Forall notNaN (valuesAt w k events).
Proof.
  intros H. unfold valuesAt. rewrite Forall_forall in *.
  intros v Hv. apply in_map_iff in Hv. destruct Hv as [e [<- He]].
  apply filter_In in He. apply H. apply He.
Qed.

(** The sorted values of a bucket are ascending when none is [NaN]. *)
Lemma sorted_values_ascending (values : list number) :
  Forall notNaN values ->
  StronglySorted numLe (JS.Array_sort JS.subSign values).
Proof.
  intros H.
  exact (Array_sort_sorted JS.subSign notNaN subSign_swap subSign_trans values H).
Qed.

Lemma hundredEvents_aggregate :
  aggregateEvents hundredEvents 1000 = [hundredBucket].
Proof. vm_compute. reflexivity. Qed.

Lemma hundredBucket_returned :
  In hundredBucket (aggregateEvents hundredEvents 1000).
Proof. rewrite hundredEvents_aggregate. left. reflexivity. Qed.

Lemma sorted_values_bounds (values : list number) (i j : nat) :
  Forall notNaN values ->
  (i <= j < List.length values)%nat ->
  SFleb (nth i (JS.Array_sort JS.subSign values) S754_nan)
        (nth j (JS.Array_sort JS.subSign values) S754_nan) = true.
Proof.
  intros Hv Hij.
  set (sorted := JS.Array_sort JS.subSign values).
  assert (Hlen : List.length sorted = List.length values)
    by apply Array_sort_length.
  assert (Hs : Forall notNaN sorted).
  { rewrite Forall_forall in *. intros v Hin. apply Hv.
    exact (proj1 (Array_sort_In JS.subSign values v) Hin). }
  rewrite Forall_forall in Hs.
  apply numLe_SFleb.
  - apply Hs, nth_In. lia.
  - apply Hs, nth_In. lia.
  - apply (StronglySorted_nth numLe sorted S754_nan).
    + apply sorted_values_ascending. exact Hv.
    + intros x _. apply subSign_refl.
    + lia.
Qed.

(** C10 (as amended).  For a positive bucket size and values that are not
    [NaN], every bucket returned has count at least 1, its avg is the
    binary64 quotient of its sum by its count, and min <= p95 <= max; min,
    max and p95 are values of the bucket, min is at or below and max at or
    above every value of the bucket, and the sum is the binary64 sum of the
    sorted values taken from the left. *)
Theorem bucket_statistics_invariant
  (events : list TelemetryEvent.t) (w : Z) (b : AggregatedData.t)
  (Hw : 0 < w)
  (Hv : Forall (fun e => notNaN (TelemetryEvent.value e)) events)
  (Hb : In b (aggregateEvents events w)) :
  (1 <= AggregatedData.count b)%nat
  /\ AggregatedData.avg b
     = JS.div (AggregatedData.sum b)
              (JS.ofZ (Z.of_nat (AggregatedData.count b)))
  /\ SFleb (AggregatedData.min b) (AggregatedData.p95 b) = true
  /\ SFleb (AggregatedData.p95 b) (AggregatedData.max b) = true
  /\ exists values,
       In (AggregatedData.timestamp b, values) (groupValues events w)
       /\ AggregatedData.count b = List.length values
       /\ AggregatedData.sum b
          = fold_left JS.add (JS.Array_sort JS.subSign values) (JS.ofZ 0)
       /\ In (AggregatedData.min b) values
       /\ In (AggregatedData.max b) values
       /\ In (AggregatedData.p95 b) values
       /\ (forall v, In v values ->
             SFleb (AggregatedData.min b) v = true
             /\ SFleb v (AggregatedData.max b) = true).
Proof.
  apply aggregateEvents_In in Hb. destruct Hb as [k [values [Hin ->]]].
  pose proof (proj1 (groupValues_entries _ _ _ _) Hin) as [Hval Hne].
  assert (Hnn : Forall notNaN values).
  { rewrite Hval. apply valuesAt_notNaN. exact Hv. }
  destruct (summarize_fields k values Hne)
    as [Hc [Hn [Hsum [Havg [Hmin [Hmax [i [Hi [Hlt Hp]]]]]]]]].
  set (sorted := JS.Array_sort JS.subSign values) in *.
  assert (Hlen : List.length sorted = List.length values)
    by apply Array_sort_length.
  assert (Hmem : forall j, (j < List.length sorted)%nat ->
                           In (nth j sorted S754_nan) values).
  { intros j Hj.
    apply (proj1 (Array_sort_In JS.subSign values _)). apply nth_In. exact Hj. }
  rewrite Hc, Hmin, Hmax, Hp.
  split; [exact Hn|]. split; [exact Havg|].
  split; [apply sorted_values_bounds; [exact Hnn | lia]|].
  split; [apply sorted_values_bounds; [exact Hnn | lia]|].
  exists values. split; [exact Hin|]. split; [exact Hlen|].
  split; [exact Hsum|].
  split; [apply Hmem; lia|]. split; [apply Hmem; lia|].
  split; [apply Hmem; lia|].
  intros v Hin'.
  apply (proj2 (Array_sort_In JS.subSign values v)) in Hin'.
  destruct (In_nth _ _ S754_nan Hin') as [j [Hj <-]].
  rewrite Array_sort_length in Hj.
  split; apply sorted_values_bounds; try exact Hnn;
    fold sorted; unfold JS.number in *; lia.
Qed.

Lemma hundredEvents_notNaN :
  Forall (fun e => notNaN (TelemetryEvent.value e)) hundredEvents.
Proof.
  assert (H : forallb (fun e => negb (JS.isNaN (TelemetryEvent.value e)))
                      hundredEvents = true)
    by (vm_compute; reflexivity).
  rewrite forallb_forall in H. apply Forall_forall. intros e He.
  specialize (H e He). unfold notNaN.
  destruct (JS.isNaN (TelemetryEvent.value e)); [discriminate | reflexivity].
Qed.

(** The 100 values 1..100 with bucket size 1000 satisfy the hypotheses of
    C10 as amended. *)
Lemma bucket_statistics_of_hundred_values :
  (1 <= AggregatedData.count hundredBucket)%nat
  /\ SFleb (AggregatedData.min hundredBucket)
           (AggregatedData.p95 hundredBucket) = true
  /\ SFleb (AggregatedData.p95 hundredBucket)
           (AggregatedData.max hundredBucket) = true.
Proof.
  destruct (bucket_statistics_invariant hundredEvents 1000 hundredBucket
              eq_refl hundredEvents_notNaN hundredBucket_returned)
    as [H1 [_ [H3 [H4 _]]]].
  split; [exact H1|]. split; [exact H3 | exact H4].
Defined.

(** C10 fails as stated: three events of value 0.1 in one bucket have the
    sum 0.30000000000000004, and the avg, its third, is 0.10000000000000002,
    above the bucket's max 0.1. *)
Lemma avg_exceeds_max :
  aggregateEvents tenthEvents 1000 = [tenthBucket]
  /\ map TelemetryEvent.value tenthEvents
     = [JS.literal 1 10; JS.literal 1 10; JS.literal 1 10]
  /\ AggregatedData.max tenthBucket = JS.literal 1 10
  /\ AggregatedData.avg tenthBucket
     = JS.div (AggregatedData.sum tenthBucket) (JS.ofZ 3)
  /\ SFleb (AggregatedData.avg tenthBucket)
           (AggregatedData.max tenthBucket) = false
  /\ SFltb (AggregatedData.max tenthBucket)
           (AggregatedData.avg tenthBucket) = true.
Proof.
  repeat split; vm_compute; reflexivity.
Qed.

(* ================================================================== *)
(** * Integers as binary64 numbers *)
(* ================================================================== *)

Lemma digits2_pos_iter_xO (p k : positive) :
  digits2_pos (Pos.iter xO p k) = (digits2_pos p + k)%positive.
Proof.
  induction k as [|k IH] using Pos.peano_ind.
  - simpl. lia.
  - rewrite Pos.iter_succ. simpl. rewrite IH. lia.
Qed.

Lemma iter_xO_value (p k : positive) :
  Zpos (Pos.iter xO p k) = Zpos p * 2 ^ Zpos k.
Proof.
  induction k as [|k IH] using Pos.peano_ind.
  - simpl. lia.
  - rewrite Pos.iter_succ, Pos2Z.inj_succ, Z.pow_succ_r by lia.
    rewrite Pos2Z.inj_xO, IH. lia.
Qed.

Lemma digits2_pos_size (p : positive) : digits2_pos p = Pos.size p.
Proof. induction p; simpl; congruence. Qed.

(** A positive integer below [2^k] has at most [k] binary digits. *)
Lemma digits2_pos_bound (p : positive) (k : Z) :
  0 <= k -> Zpos p < 2 ^ k -> Zpos (digits2_pos p) <= k.
Proof.
  intros Hk Hp. rewrite digits2_pos_size.
  pose proof (Pos.size_le p) as Hs.
  apply Pos2Z.pos_le_pos in Hs. rewrite Pos2Z.inj_pow in Hs.
  change (Zpos p~0) with (2 * Zpos p) in Hs.
  destruct (Z.le_gt_cases (Zpos (Pos.size p)) k) as [H | H]; [exact H|].
  exfalso.
  assert (H0 : 2 ^ (k + 1) <= 2 ^ Zpos (Pos.size p))
    by (apply Z.pow_le_mono_r; lia).
  rewrite Z.pow_add_r in H0 by lia. change (2 ^ 1) with 2 in H0. lia.
Qed.

Lemma fexp_normal (e : Z) : -1021 <= e -> fexp JS.prec JS.emax e = e - 53.
Proof. intros H. unfold fexp, emin, JS.prec, JS.emax. lia. Qed.

(** A mantissa of 53 digits needs no shift. *)
Lemma shr_fexp_canonical (m : positive) (e : Z) :
  digits2_pos m = 53%positive -> -1074 <= e ->
  shr_fexp JS.prec JS.emax (Zpos m) e loc_Exact
  = ({| shr_m := Zpos m; shr_r := false; shr_s := false |}, e).
Proof.
  intros Hd He. unfold shr_fexp. cbn [Zdigits2].
  rewrite Hd, fexp_normal by lia.
  replace (53 + e - 53 - e) with 0 by lia. reflexivity.
Qed.

(** A mantissa of 53 digits with an exponent in range is already rounded. *)
Lemma binary_round_aux_canonical (s : bool) (m : positive) (e : Z) :
  digits2_pos m = 53%positive -> -1074 <= e <= 971 ->
  binary_round_aux JS.prec JS.emax s (Zpos m) e loc_Exact = S754_finite s m e.
Proof.
  intros Hd He. unfold binary_round_aux.
  rewrite shr_fexp_canonical by (assumption || lia).
  cbn [shr_m loc_of_shr_record round_nearest_even].
  rewrite shr_fexp_canonical by (assumption || lia). cbn [shr_m].
  unfold JS.emax, JS.prec.
  destruct (Z.leb_spec e (1024 - 53)); [reflexivity | lia].
Qed.

(** The number of a positive integer of fewer than 53 digits: the integer
    shifted to 53 digits, exactly. *)
Lemma ofZ_pos (p : positive) :
  (digits2_pos p < 53)%positive ->
  JS.ofZ (Zpos p)
  = S754_finite false (Pos.iter xO p (53 - digits2_pos p))
                      (Zpos (digits2_pos p) - 53).
Proof.
  intros Hd. unfold JS.ofZ, binary_normalize, binary_round.
  rewrite fexp_normal by lia.
  unfold shl_align.
  replace (Zpos (digits2_pos p) + 0 - 53 - 0)
    with (Zneg (53 - digits2_pos p)) by lia.
  apply binary_round_aux_canonical.
  - rewrite digits2_pos_iter_xO. lia.
  - lia.
Qed.

Lemma ofZ_two32 : JS.ofZ 4294967296 = S754_finite false 4503599627370496 (-20).
Proof. vm_compute. reflexivity. Qed.

(** Dividing a normal number by 2^32 lowers its exponent by 32. *)
Lemma div_two32 (m : positive) (e : Z) :
  digits2_pos m = 53%positive -> -1000 <= e <= 1000 ->
  JS.div (S754_finite false m e) (JS.ofZ 4294967296)
  = S754_finite false m (e - 32).
Proof.
  intros Hd He. rewrite ofZ_two32. unfold JS.div, SFdiv, SFdiv_core_binary.
  cbn [Zdigits2]. rewrite Hd.
  change (digits2_pos 4503599627370496) with 53%positive.
  rewrite fexp_normal by lia.
  replace (Z.min (53 + e - (53 + -20) - 53) (e - -20)) with (e - 33) by lia.
  replace (e - -20 - (e - 33)) with 53 by lia.
  assert (Hq : Z.div_eucl (Z.shiftl (Zpos m) 53) 4503599627370496
               = (Zpos m~0, 0)).
  { rewrite Z.shiftl_mul_pow2 by lia.
    pose proof (Z.div_eucl_eq (Zpos m * 2 ^ 53) 4503599627370496 ltac:(lia)) as H.
    pose proof (Z.mod_pos_bound (Zpos m * 2 ^ 53) 4503599627370496 ltac:(lia)) as Hb.
    unfold Z.modulo in Hb.
    destruct (Z.div_eucl (Zpos m * 2 ^ 53) 4503599627370496) as [q r].
    change (2 ^ 53) with (2 * 4503599627370496) in H.
    assert (r = 0 /\ q = 2 * Zpos m) as [-> ->] by lia.
    reflexivity. }
  rewrite Hq. cbn [xorb].
  change (new_location 4503599627370496 0) with loc_Exact.
  assert (Hshr : shr_fexp JS.prec JS.emax (Zpos m~0) (e - 33) loc_Exact
                 = ({| shr_m := Zpos m; shr_r := false; shr_s := false |},
                    e - 32)).
  { unfold shr_fexp. cbn [Zdigits2 digits2_pos]. rewrite Hd, fexp_normal by lia.
    replace (Zpos (Pos.succ 53) + (e - 33) - 53 - (e - 33)) with 1 by lia.
    cbn [shr shr_record_of_loc iter_pos shr_1]. f_equal. lia. }
  unfold binary_round_aux. rewrite Hshr.
  cbn [shr_m loc_of_shr_record round_nearest_even].
  rewrite shr_fexp_canonical by (assumption || lia). cbn [shr_m].
  unfold JS.emax, JS.prec.
  destruct (Z.leb_spec (e - 32) (1024 - 53)); [reflexivity | lia].
Qed.

(** An unsigned 32-bit integer divided by 2^32: the quotient is exact, zero
    or a number [m * 2^e] with [m * 2^e = u * 2^-32], and it lies in
    [0, 1). *)
Lemma uint32_fraction (u : Z) :
  0 <= u < 2 ^ 32 ->
  let x := JS.div (JS.ofZ u) (JS.ofZ 4294967296) in
  (u = 0 /\ x = S754_zero false
   \/ exists m e, x = S754_finite false m e
                  /\ -85 < e <= -53
                  /\ Zpos m * 2 ^ (e + 85) = u * 2 ^ 53)
  /\ SFleb (JS.ofZ 0) x = true
  /\ SFltb x (JS.ofZ 1) = true.
Proof.
  intros Hu x. destruct u as [|p|p]; [| |lia].
  - split; [left; split; reflexivity|]. split; reflexivity.
  - pose proof (digits2_pos_bound p 32 ltac:(lia) (proj2 Hu)) as Hd.
    assert (Hx : x = S754_finite false (Pos.iter xO p (53 - digits2_pos p))
                                 (Zpos (digits2_pos p) - 85)).
    { unfold x. rewrite ofZ_pos by lia. rewrite div_two32.
      - f_equal. lia.
      - rewrite digits2_pos_iter_xO. lia.
      - lia. }
    split; [right|].
    + exists (Pos.iter xO p (53 - digits2_pos p)), (Zpos (digits2_pos p) - 85).
      split; [exact Hx|]. split; [lia|].
      rewrite iter_xO_value.
      replace (Zpos (digits2_pos p) - 85 + 85) with (Zpos (digits2_pos p)) by lia.
      rewrite <- Z.mul_assoc, <- Z.pow_add_r by lia.
      f_equal. f_equal. lia.
    + rewrite Hx. split; [reflexivity|].
      change (JS.ofZ 1) with (S754_finite false 4503599627370496 (-52)).
      unfold SFltb, SFcompare.
      destruct (Z.compare_spec (Zpos (digits2_pos p) - 85) (-52));
        [lia | reflexivity | lia].
Qed.

(* ================================================================== *)
(** * Properties of the random source *)
(* ================================================================== *)

Lemma ToInt32_congruent (a b : Z) :
  a mod 2 ^ 32 = b mod 2 ^ 32 -> JS.ToInt32 a = JS.ToInt32 b.
Proof.
  intros H. unfold JS.ToInt32. f_equal.
  rewrite (Z.add_mod a), (Z.add_mod b), H by lia. reflexivity.
Qed.

Lemma mulberry32_range (s : Rng) : 0 <= fst (mulberry32 s) < 2 ^ 32.
Proof.
  unfold mulberry32. cbv zeta. cbn [fst]. unfold JS.ushr at 1.
  change (0 mod 32) with 0. rewrite Z.shiftr_0_r.
  unfold JS.ToUint32. apply Z.mod_pos_bound. lia.
Qed.

Lemma rng_value_range (r : Rng) :
  SFleb (JS.ofZ 0) (fst (rng r)) = true
  /\ SFltb (fst (rng r)) (JS.ofZ 1) = true.
Proof.
  unfold rng. pose proof (mulberry32_range r) as Hu.
  destruct (mulberry32 r) as [u r']. cbn [fst] in *.
  exact (proj2 (uint32_fraction u Hu)).
Qed.

Lemma rngSequence_range (n : nat) (r : Rng) (x : number) :
  In x (rngSequence n r) ->
  SFleb (JS.ofZ 0) x = true /\ SFltb x (JS.ofZ 1) = true.
Proof.
  revert r. induction n as [|n IH]; intros r; [intros []|].
  cbn [rngSequence]. pose proof (rng_value_range r) as Hr.
  destruct (rng r) as [y r']. cbn [fst] in Hr.
  intros [<- | Hin]; [exact Hr | exact (IH r' Hin)].
Qed.

(* ================================================================== *)
(** * Properties of the event generator *)
(* ================================================================== *)

Ltac destruct_calls :=
  repeat match goal with
    | |- context [let (_, _) := ?c in _] => destruct c
    end.

(** The clock reading only enters the identifier. *)
Lemma generateEvent_clock (i startTime timeSpan now1 now2 : Z) (r : Rng) :
  eraseId (fst (generateEvent i startTime timeSpan now1 r))
  = eraseId (fst (generateEvent i startTime timeSpan now2 r))
  /\ snd (generateEvent i startTime timeSpan now1 r)
     = snd (generateEvent i startTime timeSpan now2 r).
Proof.
  unfold generateEvent, bind, ret. destruct_calls.
  split; reflexivity.
Qed.

Lemma generateLoop_clock (n : nat) (i count startTime timeSpan : Z)
  (clock1 clock2 : nat -> Z) (r : Rng) :
  map eraseId (fst (generateLoop n i count startTime timeSpan clock1 r))
  = map eraseId (fst (generateLoop n i count startTime timeSpan clock2 r))
  /\ snd (generateLoop n i count startTime timeSpan clock1 r)
     = snd (generateLoop n i count startTime timeSpan clock2 r).
Proof.
  revert i r. induction n as [|n IH]; intros i r; [split; reflexivity|].
  cbn [generateLoop].
  destruct (generateEvent_clock i startTime timeSpan
              (clock1 (S (Z.to_nat i))) (clock2 (S (Z.to_nat i))) r)
    as [He Hr].
  destruct (generateEvent i startTime timeSpan (clock1 (S (Z.to_nat i))) r)
    as [e1 r1].
  destruct (generateEvent i startTime timeSpan (clock2 (S (Z.to_nat i))) r)
    as [e2 r2].
  cbn [fst snd] in He, Hr. subst r2.
  destruct (IH (i + 1) r1) as [IHe IHp].
  destruct (generateLoop n (i + 1) count startTime timeSpan clock1 r1)
    as [events1 posts1].
  destruct (generateLoop n (i + 1) count startTime timeSpan clock2 r1)
    as [events2 posts2].
  cbn [fst snd map] in *. split; congruence.
Qed.

Lemma generateLoop_ext (n : nat) (i count startTime timeSpan : Z)
  (clock1 clock2 : nat -> Z) (r : Rng) :
  (forall k, clock1 k = clock2 k) ->
  generateLoop n i count startTime timeSpan clock1 r
  = generateLoop n i count startTime timeSpan clock2 r.
Proof.
  intros H. revert i r. induction n as [|n IH]; intros i r; [reflexivity|].
  cbn [generateLoop]. rewrite (H (S (Z.to_nat i))).
  destruct (generateEvent i startTime timeSpan (clock2 (S (Z.to_nat i))) r)
    as [e r'].
  rewrite IH. reflexivity.
Qed.

Lemma generateLoop_length (n : nat) (i count startTime timeSpan : Z)
  (clock : nat -> Z) (r : Rng) :
  List.length (fst (generateLoop n i count startTime timeSpan clock r)) = n.
Proof.
  revert i r. induction n as [|n IH]; intros i r; [reflexivity|].
  cbn [generateLoop].
  destruct (generateEvent i startTime timeSpan (clock (S (Z.to_nat i))) r)
    as [e r'].
  specialize (IH (i + 1) r').
  destruct (generateLoop n (i + 1) count startTime timeSpan clock r')
    as [events posts].
  cbn [fst List.length] in *. congruence.
Qed.

Lemma compareEvents_eraseId (a b : TelemetryEvent.t) :
  compareEvents a b = compareEvents (eraseId a) (eraseId b).
Proof. reflexivity. Qed.

(** [generateEvents] either throws at once or returns what the loop built,
    sorted. *)
Lemma generateEvents_unfold (count startTime endTime : Z) (clock : nat -> Z) :
  0 <= count < 2 ^ 32 ->
  generateEvents count startTime endTime clock
  = JS.Normal
      (JS.Array_sort compareEvents
         (fst (generateLoop (Z.to_nat count) 0 count startTime
                 (endTime - startTime) clock (createRng (clock O)))),
       snd (generateLoop (Z.to_nat count) 0 count startTime
              (endTime - startTime) clock (createRng (clock O)))).
Proof.
  intros Hc. unfold generateEvents.
  destruct (Z.ltb_spec count 0); [lia|].
  destruct (Z.ltb_spec (2 ^ 32 - 1) count); [lia|].
  cbn [orb]. cbv zeta.
  destruct (generateLoop _ _ _ _ _ _ _) as [events posts]. reflexivity.
Qed.

Lemma generateEvents_throws (count startTime endTime : Z) (clock : nat -> Z) :
  count < 0 \/ 2 ^ 32 <= count ->
  generateEvents count startTime endTime clock
  = JS.Throw "Invalid array length".
Proof.
  intros Hc. unfold generateEvents.
  destruct (Z.ltb_spec count 0); [reflexivity|].
  destruct (Z.ltb_spec (2 ^ 32 - 1) count); [reflexivity | lia].
Qed.

Lemma compareEvents_sorted (events : list TelemetryEvent.t) :
  StronglySorted
    (fun a b => TelemetryEvent.timestamp a <= TelemetryEvent.timestamp b)
    (JS.Array_sort compareEvents events).
Proof.
  assert (Hs : StronglySorted (fun a b => compareEvents a b <> Gt)
                 (JS.Array_sort compareEvents events)).
  { apply (Array_sort_sorted compareEvents (fun _ => True)).
    - intros x y _ _. unfold compareEvents.
      rewrite (Z.compare_antisym (TelemetryEvent.timestamp x)).
      destruct (TelemetryEvent.timestamp x ?= TelemetryEvent.timestamp y);
        simpl; congruence.
    - intros x y z _ _ _. unfold compareEvents.
      rewrite !Z.compare_le_iff. lia.
    - apply Forall_forall. intros; exact I. }
  induction Hs as [|e l _ IH Hall]; constructor; [exact IH|].
  rewrite Forall_forall in *. intros b Hb. specialize (Hall b Hb).
  unfold compareEvents in Hall. apply Z.compare_le_iff. exact Hall.
Qed.

(* ================================================================== *)
(** * The order of the buckets *)
(* ================================================================== *)

Lemma StronglySorted_le_NoDup (l : list Z) :
  StronglySorted Z.le l -> NoDup l -> StronglySorted Z.lt l.
Proof.
  induction 1 as [|x l Hs IH Hx]; intros Hnd; constructor.
  - apply IH. inversion Hnd; assumption.
  - inversion Hnd as [|? ? Hnotin _]; subst.
    rewrite Forall_forall in *. intros y Hy. specialize (Hx y Hy).
    assert (x <> y) by (intros ->; contradiction). lia.
Qed.

(** Two strictly ascending lists with the same elements are equal. *)
Lemma StronglySorted_lt_unique (l1 l2 : list Z) :
  StronglySorted Z.lt l1 -> StronglySorted Z.lt l2 ->
  (forall x, In x l1 <-> In x l2) -> l1 = l2.
Proof.
  intros H1. revert l2.
  induction H1 as [|x l1 Hs1 IH Hx]; intros l2 H2 Hin.
  - destruct l2 as [|y l2]; [reflexivity|].
    exfalso. apply (proj2 (Hin y)). left. reflexivity.
  - destruct H2 as [|y l2 Hs2 Hy].
    + exfalso. apply (proj1 (Hin x)). left. reflexivity.
    + rewrite Forall_forall in Hx, Hy.
      assert (Exy : x = y).
      { destruct (proj1 (Hin x) (or_introl eq_refl)) as [E | Hx2];
          [congruence|].
        destruct (proj2 (Hin y) (or_introl eq_refl)) as [E | Hy1];
          [congruence|].
        specialize (Hx y Hy1). specialize (Hy x Hx2). lia. }
      subst y. f_equal. apply IH; [exact Hs2|].
      intros z. split; intros Hz.
      * destruct (proj1 (Hin z) (or_intror Hz)) as [E | H]; [|exact H].
        subst z. specialize (Hx x Hz). lia.
      * destruct (proj2 (Hin z) (or_intror Hz)) as [E | H]; [|exact H].
        subst z. specialize (Hy x Hz). lia.
Qed.

(** For a bucket size other than zero every bucket has an integer key. *)
Lemma aggregateEvents_integer_keys (events : list TelemetryEvent.t) (w : Z) :
  w <> 0 ->
  forall b, In b (aggregateEvents events w) ->
            AggregatedData.timestamp b = Key (keyValue b).
Proof.
  intros Hw b Hb. apply aggregateEvents_In in Hb.
  destruct Hb as [k [vs [Hin ->]]].
  apply groupValues_entries in Hin. destruct Hin as [-> Hne].
  apply valuesAt_nonempty in Hne. destruct Hne as [e [_ <-]].
  unfold keyValue. rewrite summarize_timestamp. cbn [fst].
  unfold keyOf, bucketKey.
  destruct (Z.eqb_spec w 0); [contradiction | reflexivity].
Qed.

Lemma aggregateEvents_timestamps (events : list TelemetryEvent.t) (w : Z) :
  w <> 0 ->
  map AggregatedData.timestamp (aggregateEvents events w)
  = map Key (map keyValue (aggregateEvents events w)).
Proof.
  intros Hw. rewrite map_map. apply map_ext_in.
  intros b Hb. exact (aggregateEvents_integer_keys events w Hw b Hb).
Qed.

(** The keys of the buckets returned are strictly ascending. *)
Lemma aggregateEvents_keys_ascending (events : list TelemetryEvent.t) (w : Z) :
  w <> 0 ->
  StronglySorted Z.lt (map keyValue (aggregateEvents events w)).
Proof.
  intros Hw.
  assert (Hkeys : forall b, In b (map summarize (groupValues events w)) ->
                            AggregatedData.timestamp b = Key (keyValue b)).
  { intros b Hb. apply (aggregateEvents_integer_keys events w Hw).
    apply (Permutation_in _ (Permutation_sym (aggregateEvents_Permutation events w))).
    exact Hb. }
  apply StronglySorted_le_NoDup.
  - rewrite aggregateEvents_unfold.
    assert (Hs : StronglySorted (fun a b => compareTimestamps a b <> Gt)
              (JS.Array_sort compareTimestamps
                 (map summarize (groupValues events w)))).
    { apply (Array_sort_sorted compareTimestamps
               (fun b => AggregatedData.timestamp b = Key (keyValue b))).
      - intros x y Hx Hy. unfold compareTimestamps. rewrite Hx, Hy.
        rewrite (Z.compare_antisym (keyValue x)).
        destruct (keyValue x ?= keyValue y); simpl; congruence.
      - intros x y z Hx Hy Hz. unfold compareTimestamps.
        rewrite Hx, Hy, Hz, !Z.compare_le_iff. lia.
      - apply Forall_forall. exact Hkeys. }
    assert (Hall : forall b,
               In b (JS.Array_sort compareTimestamps
                       (map summarize (groupValues events w))) ->
               AggregatedData.timestamp b = Key (keyValue b)).
    { intros b Hb. apply Hkeys.
      exact (proj1 (Array_sort_In _ _ _) Hb). }
    induction Hs as [|a l _ IH Ha]; cbn [map]; constructor.
    + apply IH. intros b Hb. apply Hall. right. exact Hb.
    + rewrite Forall_forall in *. intros z Hz.
      apply in_map_iff in Hz. destruct Hz as [b [<- Hb]].
      specialize (Ha b Hb). unfold compareTimestamps in Ha.
      rewrite (Hall a (or_introl eq_refl)), (Hall b (or_intror Hb)) in Ha.
      apply Z.compare_le_iff. exact Ha.
  - assert (Hnd : NoDup (map AggregatedData.timestamp (aggregateEvents events w))).
    { apply (Permutation_NoDup (Permutation_sym (aggregateEvents_keys events w))).
      apply groupValues_Grouped. }
    rewrite aggregateEvents_timestamps in Hnd by exact Hw.
    apply NoDup_map_inv in Hnd. exact Hnd.
Qed.
(** X1.  For a bucket size other than zero the buckets returned by
    [aggregateEvents] are keyed by integers that are strictly ascending:
    the result is in chronological order and no key occurs twice. *)
Theorem aggregateEvents_strictly_ascending
  (events : list TelemetryEvent.t) (w : Z) :
  w <> 0 ->
  exists ks : list Z,
    map AggregatedData.timestamp (aggregateEvents events w) = map Key ks
    /\ StronglySorted Z.lt ks.
Proof.
  intros Hw. exists (map keyValue (aggregateEvents events w)). split.
  - apply aggregateEvents_timestamps. exact Hw.
  - apply aggregateEvents_keys_ascending. exact Hw.
Qed.

Lemma aggregateEvents_ascending_sample :
  1000 <> 0
  /\ exists ks : list Z,
       map AggregatedData.timestamp (aggregateEvents orderSample 1000)
       = map Key ks
       /\ StronglySorted Z.lt ks.
Proof.
  split; [lia | apply (aggregateEvents_strictly_ascending orderSample 1000); lia].
Defined.

Lemma filter_Permutation {A} (f : A -> bool) (l1 l2 : list A) :
  Permutation l1 l2 -> Permutation (filter f l1) (filter f l2).
Proof.
  induction 1 as [|x l1 l2 _ IH|x y l|l1 l2 l3 _ IH1 _ IH2]; simpl.
  - constructor.
  - destruct (f x); [constructor|]; exact IH.
  - destruct (f x), (f y); try reflexivity. constructor.
  - exact (Permutation_trans IH1 IH2).
Qed.

Lemma valuesAt_Permutation (w : Z) (k : BucketKey)
  (events events' : list TelemetryEvent.t) :
  Permutation events events' ->
  Permutation (valuesAt w k events) (valuesAt w k events').
Proof.
  intros H. unfold valuesAt. apply Permutation_map, filter_Permutation, H.
Qed.

(** The count of a bucket is the number of events that carry its key. *)
Lemma aggregateEvents_count_at (events : list TelemetryEvent.t) (w : Z)
  (b : AggregatedData.t) :
  In b (aggregateEvents events w) ->
  AggregatedData.count b
  = List.length (valuesAt w (AggregatedData.timestamp b) events).
Proof.
  intros Hb. apply aggregateEvents_In in Hb.
  destruct Hb as [k [vs [Hin ->]]].
  apply groupValues_entries in Hin. destruct Hin as [-> _].
  rewrite summarize_count, summarize_timestamp. reflexivity.
Qed.

(** A key is returned exactly when an event carries it. *)
Lemma aggregateEvents_key_iff (events : list TelemetryEvent.t) (w : Z)
  (k : BucketKey) :
  In k (map AggregatedData.timestamp (aggregateEvents events w))
  <-> exists e, In e events /\ keyOf w e = k.
Proof.
  split.
  - intros H. apply in_map_iff in H. destruct H as [b [<- Hb]].
    apply aggregateEvents_In in Hb. destruct Hb as [k [vs [Hin ->]]].
    apply groupValues_entries in Hin. destruct Hin as [-> Hne].
    apply valuesAt_nonempty in Hne. rewrite summarize_timestamp. exact Hne.
  - intros [e [Hin <-]].
    destruct (aggregateEvents_has_bucket events w e Hin) as [b [Hb [Hk _]]].
    rewrite <- Hk. apply in_map. exact Hb.
Qed.

Lemma aggregateEvents_keyAndCount (events : list TelemetryEvent.t) (w : Z) :
  w <> 0 ->
  map keyAndCount (aggregateEvents events w)
  = map (fun k => (Key k, List.length (valuesAt w (Key k) events)))
        (map keyValue (aggregateEvents events w)).
Proof.
  intros Hw. rewrite map_map. apply map_ext_in. intros b Hb.
  unfold keyAndCount. rewrite (aggregateEvents_count_at events w b Hb).
  rewrite (aggregateEvents_integer_keys events w Hw b Hb). reflexivity.
Qed.

Lemma aggregateEvents_zero (events : list TelemetryEvent.t) :
  events <> [] ->
  map keyAndCount (aggregateEvents events 0) = [(NaN, List.length events)].
Proof.
  intros Hne. rewrite aggregateEvents_unfold, (groupValues_zero events Hne).
  cbn [map JS.Array_sort fold_right JS.insert]. unfold keyAndCount.
  rewrite summarize_count, summarize_timestamp. cbn [fst snd].
  rewrite length_map. reflexivity.
Qed.

(** X2.  The keys and the counts of the buckets do not depend on the order
    of the input: two event lists that are permutations of each other give
    the same list of (key, count) pairs, for every bucket size. *)
Theorem aggregateEvents_order_independent
  (events events' : list TelemetryEvent.t) (w : Z) :
  Permutation events events' ->
  map keyAndCount (aggregateEvents events w)
  = map keyAndCount (aggregateEvents events' w).
Proof.
  intros Hp. destruct (Z.eq_dec w 0) as [-> | Hw].
  - destruct events as [|e l].
    + apply Permutation_nil in Hp. subst events'. reflexivity.
    + assert (Hne' : events' <> []).
      { intros ->. apply Permutation_sym, Permutation_nil in Hp. discriminate. }
      rewrite !aggregateEvents_zero by (assumption || discriminate).
      rewrite (Permutation_length Hp). reflexivity.
  - rewrite !aggregateEvents_keyAndCount by exact Hw.
    assert (Hks : map keyValue (aggregateEvents events w)
                  = map keyValue (aggregateEvents events' w)).
    { apply StronglySorted_lt_unique;
        try (apply aggregateEvents_keys_ascending; exact Hw).
      assert (Hiff : forall ev z,
                 In z (map keyValue (aggregateEvents ev w))
                 <-> exists e, In e ev /\ keyOf w e = Key z).
      { intros ev z. rewrite <- aggregateEvents_key_iff.
        rewrite (aggregateEvents_timestamps ev w Hw). split.
        - apply in_map.
        - intros H. apply in_map_iff in H.
          destruct H as [z' [E H]]. injection E as <-. exact H. }
      intros z. rewrite !Hiff. split; intros [e [Hin Hk]]; exists e;
        (split; [|exact Hk]).
      - exact (Permutation_in _ Hp Hin).
      - exact (Permutation_in _ (Permutation_sym Hp) Hin). }
    rewrite Hks. apply map_ext. intros k.
    rewrite (Permutation_length (valuesAt_Permutation w (Key k) _ _ Hp)).
    reflexivity.
Qed.

Lemma aggregateEvents_order_independent_sample :
  Permutation orderSample orderSampleShuffled
  /\ map keyAndCount (aggregateEvents orderSample 1000)
     = map keyAndCount (aggregateEvents orderSampleShuffled 1000).
Proof.
  assert (H : Permutation orderSample orderSampleShuffled).
  { unfold orderSample, orderSampleShuffled.
    eapply perm_trans; [apply perm_swap|].
    eapply perm_trans; [apply perm_skip, perm_swap|].
    eapply perm_trans; [apply perm_swap|].
    eapply perm_trans; [apply perm_skip, perm_swap|].
    apply Permutation_refl. }
  split; [exact H | apply (aggregateEvents_order_independent _ _ 1000 H)].
Defined.
(* ================================================================== *)
(** * Restricting a filter *)
(* ================================================================== *)

Lemma toLowerCase_empty (s : string) :
  JS.toLowerCase s = EmptyString -> s = EmptyString.
Proof. destruct s; [reflexivity | discriminate]. Qed.

Lemma append_assoc (a b c : string) :
  ((a ++ b) ++ c = a ++ (b ++ c))%string.
Proof. induction a as [|x a IH]; simpl; [reflexivity | rewrite IH; reflexivity]. Qed.

Lemma append_empty_iff (a b : string) :
  (a ++ b)%string = EmptyString -> a = EmptyString /\ b = EmptyString.
Proof. destruct a; simpl; [intros ->; split; reflexivity | discriminate]. Qed.

Lemma containsIgnoringCase_trans (m q p : string) :
  containsIgnoringCase m q -> containsIgnoringCase q p ->
  containsIgnoringCase m p.
Proof.
  intros [a [b Hm]] [c [d Hq]]. exists (a ++ c)%string, (d ++ b)%string.
  rewrite Hm, Hq, !append_assoc. reflexivity.
Qed.

Lemma narrows_matches (f g : FilterState.t) (e : TelemetryEvent.t) :
  narrows f g -> matches g e -> matches f e.
Proof.
  intros [Hs [He [Ht [Hv Hq]]]] [[Hr1 Hr2] [Mt [Mv Mq]]].
  split; [split; lia|]. split; [|split].
  - destruct Ht as [Ht | [Hne Hincl]]; [left; exact Ht|].
    destruct Mt as [Mt | Mt]; [contradiction|]. right. apply Hincl, Mt.
  - destruct Hv as [Hv | [Hne Hincl]]; [left; exact Hv|].
    destruct Mv as [Mv | Mv]; [contradiction|]. right. apply Hincl, Mv.
  - destruct Hq as [Hq | Hq]; [left; exact Hq|].
    destruct Mq as [Mq | [Mq | [Mq | [m [Mm Mq]]]]].
    + left. destruct Hq as [a [b Hq]]. rewrite Mq in Hq. simpl in Hq.
      symmetry in Hq. apply append_empty_iff in Hq. destruct Hq as [_ Hq].
      apply append_empty_iff in Hq. destruct Hq as [Hq _].
      apply toLowerCase_empty. exact Hq.
    + right. left. exact Mq.
    + right. right. left. exact Mq.
    + right. right. right. exists m. split; [exact Mm|].
      exact (containsIgnoringCase_trans _ _ _ Mq Hq).
Qed.

Lemma filter_filter_implies {A} (p q : A -> bool) (l : list A) :
  (forall x, q x = true -> p x = true) ->
  filter q (filter p l) = filter q l.
Proof.
  intros H. induction l as [|x l IH]; simpl; [reflexivity|].
  destruct (p x) eqn:Ep; simpl.
  - rewrite IH. reflexivity.
  - destruct (q x) eqn:Eq; [|exact IH].
    apply H in Eq. congruence.
Qed.

Lemma filter_Subsequence {A} (p : A -> bool) (l : list A) :
  Subsequence (filter p l) l.
Proof.
  apply (Selected_Subsequence (fun x => p x = true)).
  apply filter_Selected. intros x. reflexivity.
Qed.

Lemma filter_StronglySorted {A} (R : A -> A -> Prop) (p : A -> bool)
  (l : list A) :
  StronglySorted R l -> StronglySorted R (filter p l).
Proof.
  induction 1 as [|x l Hs IH Hx]; simpl; [constructor|].
  destruct (p x); [|exact IH]. constructor; [exact IH|].
  rewrite Forall_forall in *. intros y Hy. apply Hx.
  apply filter_In in Hy. tauto.
Qed.

(* ================================================================== *)
(** * The messages the worker posts *)
(* ================================================================== *)

Lemma flat_map_map {A B C} (f : B -> list C) (g : A -> B) (l : list A) :
  flat_map f (map g l) = flat_map (fun x => f (g x)) l.
Proof. induction l as [|x l IH]; simpl; [reflexivity | rewrite IH; reflexivity]. Qed.

(** The loop posts what its iterations post, in index order. *)
Lemma generateLoop_posts (n : nat) (i count startTime timeSpan : Z)
  (clock : nat -> Z) (r : Rng) :
  snd (generateLoop n i count startTime timeSpan clock r)
  = flat_map (fun j => progressAt (i + Z.of_nat j) count) (seq 0 n).
Proof.
  revert i r. induction n as [|n IH]; intros i r; [reflexivity|].
  cbn [generateLoop].
  destruct (generateEvent i startTime timeSpan (clock (S (Z.to_nat i))) r)
    as [event r'].
  specialize (IH (i + 1) r').
  destruct (generateLoop n (i + 1) count startTime timeSpan clock r')
    as [events posts].
  cbn [snd] in *. rewrite IH.
  change (seq 0 (S n)) with (0%nat :: seq 1 n).
  rewrite <- seq_shift. cbn [flat_map]. rewrite flat_map_map.
  change (Z.of_nat 0) with 0. rewrite Z.add_0_r. f_equal.
  apply flat_map_ext. intros j. f_equal. lia.
Qed.

(** Of the indices below [n] the positive multiples of 5000 post. *)
Lemma progressAt_multiples (count : Z) (n : nat) :
  flat_map (fun j => progressAt (0 + Z.of_nat j) count) (seq 0 n)
  = map (fun k => Progress (progressPercent (5000 * Z.of_nat k) count))
        (seq 1 (Z.to_nat ((Z.of_nat n - 1) / 5000))).
Proof.
  induction n as [|n IH]; [reflexivity|].
  rewrite seq_S, flat_map_app, IH. cbn [flat_map Nat.add]. rewrite app_nil_r.
  replace (Z.of_nat (S n) - 1) with (Z.of_nat n) by lia.
  pose proof (Z.div_mod (Z.of_nat n) 5000 ltac:(lia)) as Hn.
  pose proof (Z.mod_pos_bound (Z.of_nat n) 5000 ltac:(lia)) as Bn.
  pose proof (Z.div_mod (Z.of_nat n - 1) 5000 ltac:(lia)) as Hp.
  pose proof (Z.mod_pos_bound (Z.of_nat n - 1) 5000 ltac:(lia)) as Bp.
  unfold progressAt. rewrite Z.add_0_l.
  destruct (Z.eqb_spec (Z.of_nat n mod 5000) 0) as [E0 | E0];
    [destruct (Z.ltb_spec 0 (Z.of_nat n)) as [Hpos | Hpos]|]; cbn [andb].
  - assert (Hq : Z.of_nat n / 5000 = (Z.of_nat n - 1) / 5000 + 1) by lia.
    assert (Hq0 : 0 <= (Z.of_nat n - 1) / 5000) by lia.
    rewrite Hq, Z2Nat.inj_add by lia.
    change (Z.to_nat 1) with 1%nat.
    rewrite Nat.add_1_r, seq_S, map_app. cbn [map].
    assert (Hk : 5000 * Z.of_nat (1 + Z.to_nat ((Z.of_nat n - 1) / 5000))
                 = Z.of_nat n).
    { rewrite Nat2Z.inj_add, Z2Nat.id by lia. change (Z.of_nat 1) with 1. lia. }
    rewrite Hk. reflexivity.
  - assert (Z.of_nat n = 0) by lia.
    replace (Z.of_nat n) with 0 by lia.
    reflexivity.
  - assert (Hq : Z.of_nat n / 5000 = (Z.of_nat n - 1) / 5000) by lia.
    rewrite Hq, app_nil_r. reflexivity.
Qed.

(** X5.  While it generates [count] events the worker posts one progress
    message for each positive multiple of 5000 below [count], in ascending
    order, carrying [i / count * 100]; so there are [(count - 1) / 5000]
    of them, and none for a count up to 5000. *)
Theorem generateEvents_progress_posts
  (count startTime endTime : Z) (clock : nat -> Z) :
  0 <= count < 2 ^ 32 ->
  exists events,
    generateEvents count startTime endTime clock
    = JS.Normal
        (events,
         map (fun k => Progress (progressPercent (5000 * Z.of_nat k) count))
             (seq 1 (Z.to_nat ((count - 1) / 5000)))).
Proof.
  intros Hc. rewrite (generateEvents_unfold count startTime endTime clock Hc).
  eexists. f_equal. f_equal.
  rewrite generateLoop_posts, progressAt_multiples.
  rewrite Z2Nat.id by lia. reflexivity.
Qed.

Lemma generateEvents_progress_sample :
  0 <= 3 < 2 ^ 32
  /\ exists events,
       generateEvents 3 0 10000 (frozenClock 7)
       = JS.Normal
           (events,
            map (fun k => Progress (progressPercent (5000 * Z.of_nat k) 3))
                (seq 1 (Z.to_nat ((3 - 1) / 5000)))).
Proof.
  split; [lia|].
  apply (generateEvents_progress_posts 3 0 10000 (frozenClock 7)). lia.
Defined.

Lemma generateLoop_posts_Progress (n : nat) (i count startTime timeSpan : Z)
  (clock : nat -> Z) (r : Rng) :
  exists ps,
    snd (generateLoop n i count startTime timeSpan clock r) = map Progress ps.
Proof.
  rewrite generateLoop_posts. generalize (seq 0 n) as l.
  induction l as [|j l [ps IH]]; [exists []; reflexivity|].
  cbn [flat_map]. rewrite IH. unfold progressAt.
  destruct (andb _ _).
  - eexists (_ :: ps). reflexivity.
  - exists ps. reflexivity.
Qed.

(** X6.  Every request is answered by exactly one final message, posted
    last and preceded by progress messages only: [Generated] or [Error] for
    a generate request, the filter result for a filter request and the
    aggregation for an aggregate request, these two without any progress
    message and never with an error. *)
Theorem onmessage_answers_once (clock : nat -> Z) (request : WorkerRequest) :
  exists (progress : list number) (final : WorkerResponse),
    onmessage clock request = map Progress progress ++ [final]
    /\ answersTo request final
    /\ match request with
       | Generate _ _ => True
       | _ => progress = []
       end.
Proof.
  destruct request as [count timeRange | events filters | events ty w];
    cbn [onmessage].
  - destruct (Z_lt_dec count 0) as [Hneg | Hnn];
      [|destruct (Z_le_dec (2 ^ 32) count) as [Hbig | Hsmall]].
    + rewrite generateEvents_throws by (left; exact Hneg).
      exists [], (Error "Invalid array length"). repeat split.
    + rewrite generateEvents_throws by (right; exact Hbig).
      exists [], (Error "Invalid array length"). repeat split.
    + rewrite generateEvents_unfold by lia.
      destruct (generateLoop_posts_Progress (Z.to_nat count) 0 count
                  (TimeRange.start timeRange)
                  (TimeRange.end_ timeRange - TimeRange.start timeRange)
                  clock (createRng (clock O))) as [ps Hps].
      rewrite Hps. eexists ps, (Generated _). repeat split.
  - exists [], (Filtered (filterEvents events filters)). repeat split.
  - exists [], (Aggregated (aggregateEvents events w)). repeat split.
Qed.
(* ================================================================== *)
(** * Properties of the filter bar *)
(* ================================================================== *)

Section Toggle.

Variable A : Type.
Variable eqb : A -> A -> bool.
Hypothesis eqb_eq : forall a b, eqb a b = true <-> a = b.

Lemma toggled_In (current : list A) (x y : A) :
  In y (toggled eqb current x)
  <-> (y = x /\ ~ In x current) \/ (y <> x /\ In y current).
Proof.
  unfold toggled.
  destruct (JS.Array_includes eqb current x) eqn:E.
  - apply (Array_includes_In eqb eqb_eq) in E.
    rewrite filter_In. split.
    + intros [Hy Hn]. right. split; [|exact Hy].
      intros ->. rewrite (proj2 (eqb_eq x x) eq_refl) in Hn. discriminate.
    + intros [[-> Hn] | [Hne Hy]]; [contradiction|]. split; [exact Hy|].
      destruct (eqb y x) eqn:Ey; [|reflexivity].
      apply eqb_eq in Ey. contradiction.
  - assert (Hn : ~ In x current).
    { intros H. apply (Array_includes_In eqb eqb_eq) in H. congruence. }
    rewrite in_app_iff. simpl. split.
    + intros [Hy | [<- | []]].
      * right. split; [intros ->; contradiction | exact Hy].
      * left. split; [reflexivity | exact Hn].
    + intros [[-> _] | [_ Hy]]; [right; left; reflexivity | left; exact Hy].
Qed.

Lemma toggled_includes (current : list A) (x y : A) :
  JS.Array_includes eqb (toggled eqb current x) y
  = if eqb y x then negb (JS.Array_includes eqb current x)
    else JS.Array_includes eqb current y.
Proof.
  pose proof (toggled_In current x y) as H.
  pose proof (Array_includes_In eqb eqb_eq) as I.
  destruct (JS.Array_includes eqb (toggled eqb current x) y) eqn:E1.
  - apply I, H in E1. destruct E1 as [[-> Hn] | [Hne Hy]].
    + rewrite (proj2 (eqb_eq x x) eq_refl).
      destruct (JS.Array_includes eqb current x) eqn:E2; [|reflexivity].
      apply I in E2. contradiction.
    + destruct (eqb y x) eqn:Ey; [apply eqb_eq in Ey; contradiction|].
      symmetry. apply I. exact Hy.
  - destruct (eqb y x) eqn:Ey.
    + apply eqb_eq in Ey. subst y.
      destruct (JS.Array_includes eqb current x) eqn:E2; [reflexivity|].
      assert (Hin : In x (toggled eqb current x)).
      { apply H. left. split; [reflexivity|]. intros Hx. apply I in Hx.
        congruence. }
      apply I in Hin. congruence.
    + destruct (JS.Array_includes eqb current y) eqn:E2; [|reflexivity].
      assert (Hin : In y (toggled eqb current x)).
      { apply H. right. split; [|apply I; exact E2].
        intros ->. rewrite (proj2 (eqb_eq x x) eq_refl) in Ey. discriminate. }
      apply I in Hin. congruence.
Qed.

Lemma toggled_NoDup (current : list A) (x : A) :
  NoDup current -> NoDup (toggled eqb current x).
Proof.
  intros Hnd. unfold toggled.
  destruct (JS.Array_includes eqb current x) eqn:E.
  - apply NoDup_filter. exact Hnd.
  - apply NoDup_app; [exact Hnd | repeat constructor; intros [] |].
    intros y Hy [<- | []].
    apply (Array_includes_In eqb eqb_eq) in Hy. congruence.
Qed.

(** Toggling twice gives back the same selection: the same values are
    selected and the list is empty when it was. *)
Lemma toggled_twice (current : list A) (x : A) :
  (toggled eqb (toggled eqb current x) x = [] <-> current = [])
  /\ forall y, In y (toggled eqb (toggled eqb current x) x) <-> In y current.
Proof.
  assert (Hin : forall y, In y (toggled eqb (toggled eqb current x) x) <-> In y current).
  { intros y. rewrite !toggled_In.
    assert (Dx : In x current \/ ~ In x current).
    { destruct (JS.Array_includes eqb current x) eqn:E.
      - left. apply (Array_includes_In eqb eqb_eq). exact E.
      - right. intros H. apply (Array_includes_In eqb eqb_eq) in H.
        congruence. }
    assert (Dy : y = x \/ y <> x).
    { destruct (eqb y x) eqn:E.
      - left. apply eqb_eq. exact E.
      - right. intros ->. rewrite (proj2 (eqb_eq x x) eq_refl) in E.
        discriminate. }
    destruct Dx, Dy; subst; tauto. }
  split; [|exact Hin]. split.
  - intros E. destruct current as [|a l]; [reflexivity|].
    exfalso. assert (H : In a (toggled eqb (toggled eqb (a :: l) x) x))
      by (apply Hin; left; reflexivity).
    rewrite E in H. exact H.
  - intros ->. unfold toggled, JS.Array_includes. simpl.
    rewrite (proj2 (eqb_eq x x) eq_refl). reflexivity.
Qed.

End Toggle.
(** The result of the filter depends on which values are selected, not on
    their order or their repetition in the lists. *)
Lemma filterEvents_same_selection (events : list TelemetryEvent.t)
  (f g : FilterState.t) :
  FilterState.timeRange f = FilterState.timeRange g ->
  FilterState.searchQuery f = FilterState.searchQuery g ->
  (FilterState.eventTypes f = [] <-> FilterState.eventTypes g = []) ->
  (forall t, In t (FilterState.eventTypes f)
             <-> In t (FilterState.eventTypes g)) ->
  (FilterState.services f = [] <-> FilterState.services g = []) ->
  (forall s, In s (FilterState.services f)
             <-> In s (FilterState.services g)) ->
  filterEvents events f = filterEvents events g.
Proof.
  intros Hr Hq Ht0 Ht Hs0 Hs. unfold filterEvents. apply filter_ext.
  intros e.
  assert (H : matches f e <-> matches g e).
  { unfold matches, inTimeRange, typeSelected, serviceSelected, searchAdmits.
    rewrite Hr, Hq, Ht0, Hs0, (Ht (TelemetryEvent.eventType e)),
      (Hs (TelemetryEvent.service e)).
    reflexivity. }
  rewrite <- !filterCallback_iff in H.
  destruct (filterCallback f e), (filterCallback g e);
    try reflexivity; [symmetry|]; apply H; reflexivity.
Qed.

(** X7.  A click on a chip of the filter bar flips that chip and no other:
    after [toggleEventType] the clicked type is selected exactly when it
    was not before, every other type is selected as before, the other
    filters are untouched and a list without repetition stays so; the same
    holds for [toggleService]. *)
Theorem filter_bar_toggle_flips_one_chip (f : FilterState.t) :
  (forall t : EventType,
     let f' := setFilters f (toggleEventType f t) in
     (forall t',
        JS.Array_includes EventType_eqb (FilterState.eventTypes f') t'
        = if EventType_eqb t' t
          then negb (JS.Array_includes EventType_eqb
                       (FilterState.eventTypes f) t)
          else JS.Array_includes EventType_eqb (FilterState.eventTypes f) t')
     /\ FilterState.timeRange f' = FilterState.timeRange f
     /\ FilterState.services f' = FilterState.services f
     /\ FilterState.searchQuery f' = FilterState.searchQuery f
     /\ (NoDup (FilterState.eventTypes f)
         -> NoDup (FilterState.eventTypes f')))
  /\ (forall s : ServiceName,
        let f' := setFilters f (toggleService f s) in
        (forall s',
           JS.Array_includes ServiceName_eqb (FilterState.services f') s'
           = if ServiceName_eqb s' s
             then negb (JS.Array_includes ServiceName_eqb
                          (FilterState.services f) s)
             else JS.Array_includes ServiceName_eqb (FilterState.services f) s')
        /\ FilterState.timeRange f' = FilterState.timeRange f
        /\ FilterState.eventTypes f' = FilterState.eventTypes f
        /\ FilterState.searchQuery f' = FilterState.searchQuery f
        /\ (NoDup (FilterState.services f)
            -> NoDup (FilterState.services f'))).
Proof.
  split; intros x f'; subst f'; cbn [setFilters toggleEventType toggleService
    spread FilterUpdate.timeRange FilterUpdate.eventTypes FilterUpdate.services
    FilterUpdate.searchQuery FilterState.timeRange FilterState.eventTypes
    FilterState.services FilterState.searchQuery].
  - split; [|split; [|split; [|split]]]; try reflexivity.
    + intros t'. apply (toggled_includes _ EventType_eqb EventType_eqb_eq).
    + apply (toggled_NoDup _ EventType_eqb EventType_eqb_eq).
  - split; [|split; [|split; [|split]]]; try reflexivity.
    + intros s'. apply (toggled_includes _ ServiceName_eqb ServiceName_eqb_eq).
    + apply (toggled_NoDup _ ServiceName_eqb ServiceName_eqb_eq).
Qed.

(** X8.  A second click on the same chip undoes the first as far as the
    events shown are concerned: after two toggles of the same type, or of
    the same service, the filter returns what it returned before. *)
Theorem filter_bar_toggle_twice (events : list TelemetryEvent.t)
  (f : FilterState.t) :
  (forall t : EventType,
     let f1 := setFilters f (toggleEventType f t) in
     let f2 := setFilters f1 (toggleEventType f1 t) in
     filterEvents events f2 = filterEvents events f)
  /\ (forall s : ServiceName,
        let f1 := setFilters f (toggleService f s) in
        let f2 := setFilters f1 (toggleService f1 s) in
        filterEvents events f2 = filterEvents events f).
Proof.
  split; intros x f1 f2; subst f1 f2; apply filterEvents_same_selection;
    cbn [setFilters toggleEventType toggleService
    spread FilterUpdate.timeRange FilterUpdate.eventTypes FilterUpdate.services
    FilterUpdate.searchQuery FilterState.timeRange FilterState.eventTypes
    FilterState.services FilterState.searchQuery];
    try reflexivity;
    try apply (toggled_twice _ EventType_eqb EventType_eqb_eq);
    try apply (toggled_twice _ ServiceName_eqb ServiceName_eqb_eq).
Qed.

Lemma filterCallback_inactive (r : TimeRange.t) (e : TelemetryEvent.t) :
  filterCallback (FilterState.mk r [] [] EmptyString) e = withinRange r e.
Proof.
  unfold filterCallback, withinRange.
  cbn [FilterState.timeRange FilterState.eventTypes FilterState.services
       FilterState.searchQuery List.length Z.of_nat Z.ltb Z.compare andb
       JS.truthy].
  destruct (Z.ltb_spec (TelemetryEvent.timestamp e) (TimeRange.start r));
    destruct (Z.gtb_spec (TelemetryEvent.timestamp e) (TimeRange.end_ r));
    destruct (Z.leb_spec (TimeRange.start r) (TelemetryEvent.timestamp e));
    destruct (Z.leb_spec (TelemetryEvent.timestamp e) (TimeRange.end_ r));
    try reflexivity; lia.
Qed.

(** X9.  [Clear] resets the filter bar and nothing else: afterwards no
    filter is active, the time range is the one it was, and the filter
    returns exactly the events whose timestamp lies in that range, bounds
    included. *)
Theorem clearFilters_shows_time_range (events : list TelemetryEvent.t)
  (f : FilterState.t) :
  let f' := setFilters f clearFilters in
  hasActiveFilters f' = false
  /\ FilterState.timeRange f' = FilterState.timeRange f
  /\ filterEvents events f'
     = filter (withinRange (FilterState.timeRange f)) events.
Proof.
  intros f'. subst f'. split; [reflexivity|]. split; [reflexivity|].
  unfold filterEvents. apply filter_ext. intros e.
  apply filterCallback_inactive.
Qed.

(** X10.  The [Clear] button is shown exactly when a click on it would
    change the filters. *)
Theorem hasActiveFilters_iff_clear_changes (f : FilterState.t) :
  hasActiveFilters f = false <-> setFilters f clearFilters = f.
Proof.
  destruct f as [r ts ss q]. unfold hasActiveFilters, setFilters, clearFilters.
  cbn [spread FilterUpdate.timeRange FilterUpdate.eventTypes
       FilterUpdate.services FilterUpdate.searchQuery FilterState.timeRange
       FilterState.eventTypes FilterState.services FilterState.searchQuery].
  destruct ts, ss, q; simpl; split; intros H;
    try reflexivity; try discriminate.
Qed.
(* ================================================================== *)
(** * Properties of the time range picker *)
(* ================================================================== *)

(** X11.  The picker highlights at most one option, and the right one: for
    every time range no two offered durations are both highlighted; after
    an option is selected, at whatever time, its button is the highlighted
    one; and with the default time range of the hook it is the button of
    24 hours. *)
Theorem picker_highlights_selected_option (d d' : Z) :
  In d offeredDurations -> In d' offeredDurations ->
  (forall r, isActive r d = true -> isActive r d' = true -> d = d')
  /\ (forall now, isActive (handleRangeSelect now d) d' = (d =? d'))
  /\ (forall now, isActive (getDefaultTimeRange now) d' = (24 * HOUR =? d')).
Proof.
  unfold offeredDurations, TIME_RANGE_OPTIONS, isActive, handleRangeSelect,
    getDefaultTimeRange, HOUR, MINUTE.
  cbn [map snd In TimeRange.start TimeRange.end_].
  change (60 * (60 * 1000) / 2) with 1800000.
  intros Hd Hd'. split; [|split].
  - intros r. rewrite !Z.ltb_lt. lia.
  - intros now.
    destruct (Z.ltb_spec (Z.abs (now - (now - d) - d')) 1800000);
      destruct (Z.eqb_spec d d'); try reflexivity; lia.
  - intros now.
    destruct (Z.ltb_spec
                (Z.abs (now - (now - 24 * (60 * (60 * 1000))) - d')) 1800000);
      destruct (Z.eqb_spec (24 * (60 * (60 * 1000))) d'); try reflexivity; lia.
Qed.

Lemma picker_highlights_sample :
  In HOUR offeredDurations /\ In (6 * HOUR) offeredDurations
  /\ (forall r, isActive r HOUR = true -> isActive r (6 * HOUR) = true ->
                HOUR = 6 * HOUR)
  /\ (forall now, isActive (handleRangeSelect now HOUR) (6 * HOUR)
                  = (HOUR =? 6 * HOUR))
  /\ (forall now, isActive (getDefaultTimeRange now) (6 * HOUR)
                  = (24 * HOUR =? 6 * HOUR)).
Proof.
  assert (H1 : In HOUR offeredDurations) by (left; reflexivity).
  assert (H6 : In (6 * HOUR) offeredDurations) by (right; left; reflexivity).
  split; [exact H1|]. split; [exact H6|].
  apply (picker_highlights_selected_option HOUR (6 * HOUR) H1 H6).
Defined.

(* ================================================================== *)
(** * What the chart receives *)
(* ================================================================== *)




(* ================================================================== *)
(** * Properties of the statistics *)
(* ================================================================== *)

Lemma orZero_Some (v : Z) : orZero (Some v) = v.
Proof. unfold orZero. destruct (Z.eqb_spec v 0); congruence. Qed.

Section CountsFacts.

Variable K : Type.
Variable eqb : K -> K -> bool.
Hypothesis eqb_eq : forall a b, eqb a b = true <-> a = b.

Lemma eqb_refl_true (a : K) : eqb a a = true.
Proof. apply eqb_eq. reflexivity. Qed.

Lemma Counts_get_set (o : Counts K) (k k' : K) (v : Z) :
  Counts_get eqb (Counts_set eqb o k v) k'
  = if eqb k' k then Some v else Counts_get eqb o k'.
Proof.
  induction o as [|[k0 v0] o IH]; simpl.
  - destruct (eqb k' k); reflexivity.
  - destruct (eqb k k0) eqn:E; simpl.
    + apply eqb_eq in E. subst k0. destruct (eqb k' k); reflexivity.
    + rewrite IH. destruct (eqb k' k0) eqn:E'; [|reflexivity].
      apply eqb_eq in E'. subst k0.
      destruct (eqb k' k) eqn:E''; [|reflexivity].
      apply eqb_eq in E''. subst k'. rewrite eqb_refl_true in E. discriminate.
Qed.

Variable A : Type.
Variable key : A -> K.

(** What the counting loop maintains: each count grows by the number of
    elements seen that carry its key, and a key is absent as long as none
    does. *)
Lemma counting_loop (l : list A) (o : Counts K) (k : K) :
  let o' := fold_left (fun o a => increment eqb o (key a)) l o in
  orZero (Counts_get eqb o' k)
  = orZero (Counts_get eqb o k)
    + Z.of_nat (List.length (filter (fun a => eqb (key a) k) l))
  /\ (Counts_get eqb o' k = None
      <-> Counts_get eqb o k = None /\ forall a, In a l -> key a <> k).
Proof.
  revert o. induction l as [|a l IH]; intros o; cbn zeta.
  - simpl. split; [lia|]. split; [intros H; split; [exact H | intros ? []]
                                 | intros [H _]; exact H].
  - cbn [fold_left filter]. destruct (IH (increment eqb o (key a))) as [IH1 IH2].
    cbv zeta in IH1, IH2. rewrite IH1, IH2. unfold increment.
    rewrite Counts_get_set.
    destruct (eqb k (key a)) eqn:E.
    + apply eqb_eq in E. subst k. rewrite eqb_refl_true, orZero_Some.
      cbn [List.length]. split; [lia|].
      split; [intros [H _]; discriminate|].
      intros [_ H]. exfalso. apply (H a); [left|]; reflexivity.
    + assert (E' : eqb (key a) k = false).
      { destruct (eqb (key a) k) eqn:E'; [|reflexivity].
        apply eqb_eq in E'. rewrite E', eqb_refl_true in E. discriminate. }
      rewrite E'. split; [reflexivity|]. split.
      * intros [H1 H2]. split; [exact H1|]. intros b [<- | Hb].
        -- intros Hk. rewrite Hk, eqb_refl_true in E'. discriminate.
        -- apply H2. exact Hb.
      * intros [H1 H2]. split; [exact H1|]. intros b Hb. apply H2.
        right. exact Hb.
Qed.

End CountsFacts.

Lemma stats_folds (filteredEvents : list TelemetryEvent.t)
  (tc : Counts EventType) (sc : Counts ServiceName) :
  fold_left
    (fun (counts : Counts EventType * Counts ServiceName) event =>
       (increment EventType_eqb (fst counts) (TelemetryEvent.eventType event),
        increment ServiceName_eqb (snd counts) (TelemetryEvent.service event)))
    filteredEvents (tc, sc)
  = (fold_left (fun o e => increment EventType_eqb o (TelemetryEvent.eventType e))
               filteredEvents tc,
     fold_left (fun o e => increment ServiceName_eqb o (TelemetryEvent.service e))
               filteredEvents sc).
Proof.
  revert tc sc. induction filteredEvents as [|e l IH]; intros tc sc;
    [reflexivity|].
  cbn [fold_left fst snd]. apply IH.
Qed.

Lemma stats_unfold (events filteredEvents : list TelemetryEvent.t)
  (filters : FilterState.t) :
  stats events filteredEvents filters
  = DataStats.mk (Z.of_nat (List.length events))
      (Z.of_nat (List.length filteredEvents))
      (FilterState.timeRange filters)
      (fold_left (fun o e => increment EventType_eqb o (TelemetryEvent.eventType e))
                 filteredEvents [])
      (fold_left (fun o e => increment ServiceName_eqb o (TelemetryEvent.service e))
                 filteredEvents []).
Proof. unfold stats. rewrite stats_folds. reflexivity. Qed.

Lemma stats_eventTypeCounts (events filteredEvents : list TelemetryEvent.t)
  (filters : FilterState.t) (t : EventType) :
  orZero (Counts_get EventType_eqb
            (DataStats.eventTypeCounts (stats events filteredEvents filters)) t)
  = eventsOfType t filteredEvents.
Proof.
  rewrite stats_unfold. cbn [DataStats.eventTypeCounts].
  destruct (counting_loop _ EventType_eqb EventType_eqb_eq _
              TelemetryEvent.eventType filteredEvents [] t) as [H _].
  cbv zeta in H. rewrite H. reflexivity.
Qed.

Lemma stats_serviceCounts (events filteredEvents : list TelemetryEvent.t)
  (filters : FilterState.t) (s : ServiceName) :
  orZero (Counts_get ServiceName_eqb
            (DataStats.serviceCounts (stats events filteredEvents filters)) s)
  = eventsOfService s filteredEvents.
Proof.
  rewrite stats_unfold. cbn [DataStats.serviceCounts].
  destruct (counting_loop _ ServiceName_eqb ServiceName_eqb_eq _
              TelemetryEvent.service filteredEvents [] s) as [H _].
  cbv zeta in H. rewrite H. reflexivity.
Qed.

Lemma eventsOfType_total (l : list TelemetryEvent.t) :
  eventsOfType log l + (eventsOfType metric l + (eventsOfType trace l
    + (eventsOfType error l + (eventsOfType span l + 0))))
  = Z.of_nat (List.length l).
Proof.
  unfold eventsOfType. induction l as [|e l IH]; [reflexivity|].
  cbn [filter List.length].
  destruct (TelemetryEvent.eventType e); cbn [EventType_eqb List.length];
    rewrite !Nat2Z.inj_succ; lia.
Qed.

Lemma eventsOfService_total (l : list TelemetryEvent.t) :
  eventsOfService api_gateway l + (eventsOfService auth_service l
    + (eventsOfService user_service l + (eventsOfService payment_service l
    + (eventsOfService notification_service l + 0))))
  = Z.of_nat (List.length l).
Proof.
  unfold eventsOfService. induction l as [|e l IH]; [reflexivity|].
  cbn [filter List.length].
  destruct (TelemetryEvent.service e); cbn [ServiceName_eqb List.length];
    rewrite !Nat2Z.inj_succ; lia.
Qed.

(** X14.  The statistics count what is shown: for every type and every
    service the count the hook reports (read with [|| 0]) is the number of
    filtered events of that type or service, a key being absent exactly
    when there is no such event; the counts of the five types, and those of
    the five services, add up to the number of filtered events; and the
    error count of the dashboard is the number of filtered error events. *)
Theorem stats_count_the_filtered_events
  (events filteredEvents : list TelemetryEvent.t) (filters : FilterState.t) :
  let s := stats events filteredEvents filters in
  (forall t, orZero (Counts_get EventType_eqb (DataStats.eventTypeCounts s) t)
             = eventsOfType t filteredEvents)
  /\ (forall sv,
        orZero (Counts_get ServiceName_eqb (DataStats.serviceCounts s) sv)
        = eventsOfService sv filteredEvents)
  /\ (forall t, Counts_get EventType_eqb (DataStats.eventTypeCounts s) t = None
                <-> forall e, In e filteredEvents
                              -> TelemetryEvent.eventType e <> t)
  /\ totalOf EventType_eqb (DataStats.eventTypeCounts s) EVENT_TYPES
     = DataStats.filteredEvents s
  /\ totalOf ServiceName_eqb (DataStats.serviceCounts s) SERVICES
     = DataStats.filteredEvents s
  /\ errorCount s = eventsOfType error filteredEvents.
Proof.
  intros s. subst s.
  split; [intros t; apply stats_eventTypeCounts|].
  split; [intros sv; apply stats_serviceCounts|].
  split; [|split; [|split]].
  - intros t. rewrite stats_unfold. cbn [DataStats.eventTypeCounts].
    destruct (counting_loop _ EventType_eqb EventType_eqb_eq _
                TelemetryEvent.eventType filteredEvents [] t) as [_ H].
    cbv zeta in H. rewrite H. cbn [Counts_get]. tauto.
  - unfold totalOf, EVENT_TYPES. cbn [fold_right].
    rewrite !stats_eventTypeCounts, eventsOfType_total.
    rewrite stats_unfold. reflexivity.
  - unfold totalOf, SERVICES. cbn [fold_right].
    rewrite !stats_serviceCounts, eventsOfService_total.
    rewrite stats_unfold. reflexivity.
  - unfold errorCount. apply stats_eventTypeCounts.
Qed.
(* ================================================================== *)
(** * The hook and the worker *)
(* ================================================================== *)

Lemma afterMessages_progress (state : Hook.State) (ps : list number)
  (final : WorkerResponse) :
  afterMessages state (map Progress ps ++ [final])
  = Hook.onmessage (afterMessages state (map Progress ps)) final.
Proof. unfold afterMessages. rewrite fold_left_app. reflexivity. Qed.


(* ================================================================== *)
(** * Identifiers of the generated events *)
(* ================================================================== *)

Lemma digit36_value (d : Z) :
  0 <= d < 36 ->
  digitValue (JS.digit36 d) = d /\ JS.digit36 d <> "_"%char.
Proof.
  intros Hd. unfold digitValue, JS.digit36.
  destruct (Z.ltb_spec d 10) as [H | H].
  - assert (E : nat_of_ascii (ascii_of_nat (48 + Z.to_nat d))
                = (48 + Z.to_nat d)%nat)
      by (apply nat_ascii_embedding; lia).
    split.
    + rewrite E. destruct (Z.ltb_spec (Z.of_nat (48 + Z.to_nat d)) 58); lia.
    + intros C. apply (f_equal nat_of_ascii) in C. rewrite E in C.
      change (nat_of_ascii "_") with 95%nat in C. lia.
  - assert (E : nat_of_ascii (ascii_of_nat (87 + Z.to_nat d))
                = (87 + Z.to_nat d)%nat)
      by (apply nat_ascii_embedding; lia).
    split.
    + rewrite E. destruct (Z.ltb_spec (Z.of_nat (87 + Z.to_nat d)) 58); lia.
    + intros C. apply (f_equal nat_of_ascii) in C. rewrite E in C.
      change (nat_of_ascii "_") with 95%nat in C. lia.
Qed.

Lemma parse36_app (a b : string) (v : Z) :
  parse36 (a ++ b) v = parse36 b (parse36 a v).
Proof. revert v. induction a as [|c a IH]; intros v; simpl; [reflexivity | apply IH]. Qed.

Lemma without_app (c : ascii) (a b : string) :
  without c (a ++ b) <-> without c a /\ without c b.
Proof. induction a as [|x a IH]; simpl; tauto. Qed.

Lemma length_append (a b : string) :
  String.length (a ++ b) = (String.length a + String.length b)%nat.
Proof. induction a as [|c a IH]; simpl; [reflexivity | rewrite IH; reflexivity]. Qed.

(** With enough fuel the digits of [n] are put before [acc]: they write
    [n], and none of them is an underscore. *)
Lemma toString36_digits_spec (fuel : nat) (n : Z) (acc : string) :
  0 <= n < 36 ^ Z.of_nat fuel ->
  exists ds, JS.toString36_digits fuel n acc = (ds ++ acc)%string
             /\ (forall v, parse36 ds v = v * 36 ^ Z.of_nat (String.length ds) + n)
             /\ without "_" ds.
Proof.
  revert n acc. induction fuel as [|fuel IH]; intros n acc Hn.
  - exists EmptyString. simpl in *. split; [reflexivity|].
    split; [intros v; lia | exact I].
  - cbn [JS.toString36_digits].
    pose proof (Z.div_mod n 36 ltac:(lia)) as Hdm.
    pose proof (Z.mod_pos_bound n 36 ltac:(lia)) as Hb.
    destruct (digit36_value (n mod 36) Hb) as [Hv Hu].
    destruct (Z.ltb_spec n 36) as [Hlt | Hge].
    + exists (String (JS.digit36 (n mod 36)) EmptyString).
      split; [reflexivity|]. split; [|simpl; tauto].
      intros v. cbn [parse36 String.length]. rewrite Hv.
      rewrite Z.mod_small by lia. change (36 ^ Z.of_nat 1) with 36. lia.
    + assert (Hq : 0 <= n / 36 < 36 ^ Z.of_nat fuel).
      { rewrite Nat2Z.inj_succ, Z.pow_succ_r in Hn by lia.
        split; [apply Z.div_pos; lia|].
        apply Z.div_lt_upper_bound; lia. }
      destruct (IH (n / 36) (String (JS.digit36 (n mod 36)) acc) Hq)
        as [ds [E [Hp Hw]]].
      exists (ds ++ String (JS.digit36 (n mod 36)) EmptyString)%string.
      split; [|split].
      * rewrite E, append_assoc. reflexivity.
      * intros v. rewrite parse36_app, Hp. cbn [parse36]. rewrite Hv.
        rewrite length_append. cbn [String.length].
        rewrite Nat2Z.inj_add. change (Z.of_nat 1) with 1.
        rewrite Z.pow_add_r by lia. change (36 ^ 1) with 36. lia.
      * apply without_app. split; [exact Hw | simpl; tauto].
Qed.

(** The base-36 numeral of a non-negative integer writes that integer and
    holds no underscore. *)
Lemma toString36_spec (n : Z) :
  0 <= n ->
  parse36 (JS.toString36 n) 0 = n /\ without "_" (JS.toString36 n).
Proof.
  intros Hn. unfold JS.toString36.
  destruct (Z.ltb_spec n 0) as [H | _]; [lia|].
  assert (Hf : 0 <= n < 36 ^ Z.of_nat (S (Z.to_nat (Z.log2 n)))).
  { split; [exact Hn|].
    rewrite Nat2Z.inj_succ, Z2Nat.id by apply Z.log2_nonneg.
    destruct (Z.eq_dec n 0) as [-> | Hnz]; [reflexivity|].
    pose proof (Z.log2_spec n ltac:(lia)) as [_ Hl].
    apply (Z.lt_le_trans _ _ _ Hl).
    apply Z.pow_le_mono_l. pose proof (Z.log2_nonneg n). lia. }
  destruct (toString36_digits_spec _ n EmptyString Hf) as [ds [E [Hp Hw]]].
  rewrite E.
  assert (Hnil : (ds ++ EmptyString)%string = ds).
  { clear. induction ds as [|c ds IH]; simpl; congruence. }
  rewrite Hnil. split; [rewrite Hp; lia | exact Hw].
Qed.

(** Two strings without underscore that are followed by one are equal when
    the whole strings are. *)
Lemma underscore_splits (a a' b b' : string) :
  without "_" a -> without "_" a' ->
  (a ++ String "_" b)%string = (a' ++ String "_" b')%string -> a = a'.
Proof.
  revert a'. induction a as [|c a IH]; intros [|c' a'] Ha Ha' E;
    simpl in *.
  - reflexivity.
  - injection E as E _. destruct Ha' as [Hc _]. congruence.
  - injection E as E _. destruct Ha as [Hc _]. congruence.
  - injection E as Ec E. subst c'. f_equal.
    apply (IH a'); tauto.
Qed.

Lemma generateEvent_id (i startTime timeSpan now : Z) (r : Rng) :
  TelemetryEvent.id (fst (generateEvent i startTime timeSpan now r))
  = ("evt_" ++ JS.toString36 i ++ "_" ++ JS.toString36 now)%string.
Proof.
  unfold generateEvent, bind, ret. destruct_calls. reflexivity.
Qed.

(** The identifiers of events built for distinct indices differ. *)
Lemma generateEvent_id_inj (i j s1 s2 t1 t2 n1 n2 : Z) (r1 r2 : Rng) :
  0 <= i -> 0 <= j ->
  TelemetryEvent.id (fst (generateEvent i s1 t1 n1 r1))
  = TelemetryEvent.id (fst (generateEvent j s2 t2 n2 r2)) ->
  i = j.
Proof.
  intros Hi Hj E. rewrite !generateEvent_id in E.
  cbn [append] in E. injection E as E.
  destruct (toString36_spec i Hi) as [Pi Wi].
  destruct (toString36_spec j Hj) as [Pj Wj].
  apply underscore_splits in E; [|assumption|assumption].
  rewrite <- Pi, <- Pj, E. reflexivity.
Qed.
Lemma generateLoop_indices (n : nat) (i count startTime timeSpan : Z)
  (clock : nat -> Z) (r : Rng) :
  0 <= i ->
  let events := fst (generateLoop n i count startTime timeSpan clock r) in
  (forall e, In e events ->
             exists j now r',
               i <= j < i + Z.of_nat n
               /\ e = fst (generateEvent j startTime timeSpan now r'))
  /\ NoDup (map TelemetryEvent.id events).
Proof.
  revert i r. induction n as [|n IH]; intros i r Hi; cbn zeta.
  - split; [intros e [] | constructor].
  - cbn [generateLoop].
    destruct (generateEvent i startTime timeSpan (clock (S (Z.to_nat i))) r)
      as [event r'] eqn:Ee.
    destruct (IH (i + 1) r' ltac:(lia)) as [IH1 IH2]. cbv zeta in IH1, IH2.
    destruct (generateLoop n (i + 1) count startTime timeSpan clock r')
      as [events posts].
    cbn [fst] in *.
    assert (Hev : event = fst (generateEvent i startTime timeSpan
                                 (clock (S (Z.to_nat i))) r))
      by (rewrite Ee; reflexivity).
    split.
    + intros e [<- | He].
      * exists i, (clock (S (Z.to_nat i))), r. split; [lia | exact Hev].
      * destruct (IH1 e He) as [j [now [r0 [Hj E]]]].
        exists j, now, r0. split; [lia | exact E].
    + cbn [map]. constructor; [|exact IH2].
      intros Hin. apply in_map_iff in Hin. destruct Hin as [e [Eid He]].
      destruct (IH1 e He) as [j [now [r0 [Hj E]]]].
      rewrite E, Hev in Eid.
      apply generateEvent_id_inj in Eid; lia.
Qed.

(** X16.  The identifiers of a generated dataset are pairwise distinct:
    the index an identifier starts with tells its event from the others,
    whatever the clock reads. *)
Theorem generated_ids_are_distinct
  (count startTime endTime : Z) (clock : nat -> Z) :
  0 <= count < 2 ^ 32 ->
  exists events posts,
    generateEvents count startTime endTime clock = JS.Normal (events, posts)
    /\ NoDup (map TelemetryEvent.id events).
Proof.
  intros Hc. rewrite (generateEvents_unfold count startTime endTime clock Hc).
  eexists. eexists. split; [reflexivity|].
  destruct (generateLoop_indices (Z.to_nat count) 0 count startTime
              (endTime - startTime) clock (createRng (clock O)) ltac:(lia))
    as [_ Hnd].
  cbv zeta in Hnd.
  refine (Permutation_NoDup _ Hnd).
  apply Permutation_map, Permutation_sym, Array_sort_Permutation.
Qed.

Lemma generated_ids_sample :
  0 <= 3 < 2 ^ 32
  /\ exists events posts,
       generateEvents 3 0 10000 (frozenClock 7) = JS.Normal (events, posts)
       /\ NoDup (map TelemetryEvent.id events).
Proof.
  split; [lia|].
  apply (generated_ids_are_distinct 3 0 10000 (frozenClock 7)). lia.
Defined.
(* ================================================================== *)
(** * Random indices *)
(* ================================================================== *)

(** Shifting out zeros is exact. *)
Lemma iter_pos_shr_exact (k m : positive) :
  iter_pos shr_1 k
    {| shr_m := Zpos (Pos.iter xO m k); shr_r := false; shr_s := false |}
  = {| shr_m := Zpos m; shr_r := false; shr_s := false |}.
Proof.
  revert m. induction k as [k IH | k IH |]; intros m.
  - cbn [iter_pos Pos.iter shr_1 orb]. rewrite IH, IH. reflexivity.
  - cbn [iter_pos Pos.iter]. rewrite IH, IH. reflexivity.
  - reflexivity.
Qed.

(** A mantissa of 53 digits followed by [k] zeros rounds to itself. *)
Lemma binary_round_aux_shifted (s : bool) (m k : positive) (e : Z) :
  digits2_pos m = 53%positive -> -1074 <= e + Zpos k <= 971 ->
  binary_round_aux JS.prec JS.emax s (Zpos (Pos.iter xO m k)) e loc_Exact
  = S754_finite s m (e + Zpos k).
Proof.
  intros Hd He. unfold binary_round_aux.
  assert (Hshr : shr_fexp JS.prec JS.emax (Zpos (Pos.iter xO m k)) e loc_Exact
                 = ({| shr_m := Zpos m; shr_r := false; shr_s := false |},
                    e + Zpos k)).
  { unfold shr_fexp. cbn [Zdigits2]. rewrite digits2_pos_iter_xO, Hd.
    rewrite fexp_normal by lia.
    replace (Zpos (53 + k) + e - 53 - e) with (Zpos k) by lia.
    cbn [shr shr_record_of_loc]. rewrite iter_pos_shr_exact. reflexivity. }
  rewrite Hshr. cbn [shr_m loc_of_shr_record round_nearest_even].
  rewrite shr_fexp_canonical by (assumption || lia). cbn [shr_m].
  unfold JS.emax, JS.prec.
  destruct (Z.leb_spec (e + Zpos k) (1024 - 53)); [reflexivity | lia].
Qed.

Lemma iter_xO_inj_value (a b : positive) : Zpos a = Zpos b -> a = b.
Proof. intros H. injection H as H. exact H. Qed.

(** The product of two integers held with 53 digits, when it has fewer than
    53 digits itself: the product, held with 53 digits. *)
Lemma mul_exact (p q : positive) (ep eq : Z) :
  (digits2_pos p < 53)%positive -> (digits2_pos q < 53)%positive ->
  (digits2_pos (p * q) < 53)%positive ->
  -1000 <= ep + eq <= 900 ->
  JS.mul (S754_finite false (Pos.iter xO p (53 - digits2_pos p)) ep)
         (S754_finite false (Pos.iter xO q (53 - digits2_pos q)) eq)
  = S754_finite false (Pos.iter xO (p * q)%positive (53 - digits2_pos (p * q)%positive))
      (ep + eq + (53 - Zpos (digits2_pos p)) + (53 - Zpos (digits2_pos q))
       - (53 - Zpos (digits2_pos (p * q)%positive))).
Proof.
  intros Hp Hq Hpq He. unfold JS.mul, SFmul. cbn [xorb].
  set (dp := digits2_pos p) in *. set (dq := digits2_pos q) in *.
  set (d := digits2_pos (p * q)%positive) in *.
  assert (Hd : (d <= dp + dq)%positive).
  { unfold d, dp, dq.
    pose proof (Pos.size_gt p) as Gp. pose proof (Pos.size_gt q) as Gq.
    rewrite <- !digits2_pos_size in Gp, Gq.
    assert (H : Zpos (digits2_pos (p * q)%positive)
                <= Zpos (digits2_pos p) + Zpos (digits2_pos q)).
    { apply digits2_pos_bound; [lia|].
      rewrite Z.pow_add_r by lia. rewrite Pos2Z.inj_mul.
      apply Pos2Z.pos_lt_pos in Gp, Gq. rewrite Pos2Z.inj_pow in Gp, Gq.
      apply Z.mul_lt_mono_nonneg; lia. }
    lia. }
  assert (Hlow : (dp + dq <= d + 1)%positive).
  { unfold d, dp, dq.
    pose proof (Pos.size_le p) as Lp. pose proof (Pos.size_le q) as Lq.
    pose proof (Pos.size_gt (p * q)%positive) as G.
    rewrite <- !digits2_pos_size in Lp, Lq, G.
    apply Pos2Z.pos_le_pos in Lp, Lq. apply Pos2Z.pos_lt_pos in G.
    rewrite Pos2Z.inj_pow in Lp, Lq, G.
    change (Zpos p~0) with (2 * Zpos p) in Lp.
    change (Zpos q~0) with (2 * Zpos q) in Lq.
    rewrite Pos2Z.inj_mul in G.
    destruct (Z_le_gt_dec (Zpos (digits2_pos p) + Zpos (digits2_pos q))
                          (Zpos (digits2_pos (p * q)%positive) + 1)) as [H | H]; [lia|].
    exfalso.
    assert (H2 : 2 ^ (Zpos (digits2_pos (p * q)%positive) + 2)
                 <= 2 ^ (Zpos (digits2_pos p) + Zpos (digits2_pos q)))
      by (apply Z.pow_le_mono_r; lia).
    rewrite !Z.pow_add_r in H2 by lia. change (2 ^ 2) with 4 in H2.
    nia. }
  assert (Hm : (Pos.iter xO p (53 - dp) * Pos.iter xO q (53 - dq))%positive
               = Pos.iter xO (Pos.iter xO (p * q)%positive (53 - d))
                          (53 + d - dp - dq)).
  { apply iter_xO_inj_value. rewrite Pos2Z.inj_mul, !iter_xO_value.
    rewrite Pos2Z.inj_mul.
    replace (Zpos (53 - dp)) with (53 - Zpos dp) by lia.
    replace (Zpos (53 - dq)) with (53 - Zpos dq) by lia.
    replace (Zpos (53 - d)) with (53 - Zpos d) by lia.
    replace (Zpos (53 + d - dp - dq)) with (53 + Zpos d - Zpos dp - Zpos dq)
      by lia.
    rewrite <- !Z.mul_assoc. f_equal.
    rewrite (Z.mul_comm (2 ^ (53 - Zpos dp))), <- !Z.mul_assoc. f_equal.
    rewrite <- !Z.pow_add_r by lia. f_equal. lia. }
  rewrite Hm, binary_round_aux_shifted.
  - f_equal. lia.
  - rewrite digits2_pos_iter_xO. lia.
  - lia.
Qed.

(** The integer read from the number of an integer. *)
Lemma toZ_ofZ (z : Z) : 0 <= z < 2 ^ 52 -> JS.toZ (JS.ofZ z) = z.
Proof.
  intros Hz. destruct z as [|p|p]; [reflexivity | | lia].
  pose proof (digits2_pos_bound p 52 ltac:(lia) (proj2 Hz)) as Hd.
  rewrite ofZ_pos by lia. unfold JS.toZ.
  destruct (Z.leb_spec 0 (Zpos (digits2_pos p) - 53)); [lia|].
  cbn [cond_Zopp]. rewrite iter_xO_value.
  replace (- (Zpos (digits2_pos p) - 53)) with (Zpos (53 - digits2_pos p))
    by lia.
  apply Z.div_mul. apply Z.pow_nonzero; lia.
Qed.

(** [Math.floor] of a number below 2^52 and its integer reading: the floor
    of the value. *)
Lemma toZ_floor (m : positive) (e : Z) :
  e < 0 -> Zpos m / 2 ^ (- e) < 2 ^ 52 ->
  JS.toZ (JS.Math_floor (S754_finite false m e)) = Zpos m / 2 ^ (- e).
Proof.
  intros He Hb. unfold JS.Math_floor.
  destruct (Z.leb_spec 0 e); [lia|]. cbn [cond_Zopp].
  destruct (Z.eqb_spec (Zpos m / 2 ^ (- e)) 0) as [E | E].
  - rewrite E. reflexivity.
  - apply toZ_ofZ. split; [|exact Hb].
    apply Z.div_pos; [lia|]. apply Z.pow_pos_nonneg; lia.
Qed.
(** The number [rng()] returns for the 32-bit integer [u]. *)
Lemma uint32_fraction_pos (p : positive) :
  Zpos p < 2 ^ 32 ->
  JS.div (JS.ofZ (Zpos p)) (JS.ofZ 4294967296)
  = S754_finite false (Pos.iter xO p (53 - digits2_pos p))
                      (Zpos (digits2_pos p) - 85).
Proof.
  intros Hu.
  pose proof (digits2_pos_bound p 32 ltac:(lia) Hu) as Hd.
  rewrite ofZ_pos by lia. rewrite div_two32.
  - f_equal. lia.
  - rewrite digits2_pos_iter_xO. lia.
  - lia.
Qed.

(** [Math.floor(rng() * n)] is computed without rounding: it is the floor
    of [u * n / 2^32] for the 32-bit integer [u] the source draws. *)
Lemma floor_of_scaled_fraction (u n : Z) :
  0 <= u < 2 ^ 32 -> 0 < n <= 2 ^ 20 ->
  JS.toZ (JS.Math_floor
            (JS.mul (JS.div (JS.ofZ u) (JS.ofZ 4294967296)) (JS.ofZ n)))
  = u * n / 2 ^ 32.
Proof.
  intros Hu Hn. destruct n as [|q|q]; [lia | | lia].
  assert (Hdq : Zpos (digits2_pos q) <= 21)
    by (apply digits2_pos_bound; lia).
  destruct u as [|p|p]; [| |lia].
  - change (JS.div (JS.ofZ 0) (JS.ofZ 4294967296)) with (S754_zero false).
    rewrite ofZ_pos by lia. reflexivity.
  - assert (Hdp : Zpos (digits2_pos p) <= 32)
      by (apply digits2_pos_bound; lia).
    assert (Hpq : Zpos (p * q) < 2 ^ 52).
    { rewrite Pos2Z.inj_mul. change (2 ^ 52) with (2 ^ 32 * 2 ^ 20).
      apply Z.le_lt_trans with (Zpos p * 2 ^ 20).
      - apply Z.mul_le_mono_nonneg_l; lia.
      - apply Z.mul_lt_mono_pos_r; lia. }
    assert (Hd : Zpos (digits2_pos (p * q)) <= 52)
      by (apply digits2_pos_bound; lia).
    rewrite uint32_fraction_pos by lia.
    rewrite ofZ_pos by lia.
    rewrite mul_exact by lia.
    set (d := digits2_pos (p * q)) in *.
    assert (Hpow : 2 ^ (- (Zpos d - 85)) = 2 ^ 32 * 2 ^ Zpos (53 - d)).
    { rewrite <- Z.pow_add_r by lia. f_equal. lia. }
    assert (Hval : Zpos (Pos.iter xO (p * q)%positive (53 - d))
                   / 2 ^ (- (Zpos d - 85))
                   = Zpos p * Zpos q / 2 ^ 32).
    { rewrite iter_xO_value, Hpow, Pos2Z.inj_mul.
      apply Z.div_mul_cancel_r; apply Z.pow_nonzero; lia. }
    replace (Zpos (digits2_pos p) - 85 + (Zpos (digits2_pos q) - 53)
             + (53 - Zpos (digits2_pos p)) + (53 - Zpos (digits2_pos q))
             - (53 - Zpos d))
      with (Zpos d - 85) by lia.
    rewrite toZ_floor.
    + exact Hval.
    + lia.
    + rewrite Hval. apply Z.div_lt_upper_bound; [lia|].
      rewrite <- Pos2Z.inj_mul. lia.
Qed.

(** The index [randomIndex n] draws: the floor of [u * n / 2^32], which is
    an index below [n]. *)
Lemma randomIndex_exact (n : Z) (r : Rng) :
  0 < n <= 2 ^ 20 ->
  randomIndex n r = (fst (mulberry32 r) * n / 2 ^ 32, snd (mulberry32 r))
  /\ 0 <= fst (mulberry32 r) * n / 2 ^ 32 < n.
Proof.
  intros Hn. pose proof (mulberry32_range r) as Hu.
  split.
  - unfold randomIndex, bind, ret, rng.
    destruct (mulberry32 r) as [u seed]. cbn [fst snd] in *.
    rewrite floor_of_scaled_fraction by assumption. reflexivity.
  - split.
    + apply Z.div_pos; [|lia]. apply Z.mul_nonneg_nonneg; lia.
    + apply Z.div_lt_upper_bound; [lia|].
      nia.
Qed.
(* ================================================================== *)
(** * The events the generator builds *)
(* ================================================================== *)

Lemma randomIndex_range (n : Z) (r : Rng) :
  0 < n <= 2 ^ 20 -> 0 <= fst (randomIndex n r) < n.
Proof.
  intros Hn. destruct (randomIndex_exact n r Hn) as [E Hb].
  rewrite E. exact Hb.
Qed.

Ltac draw_index k r' Hk :=
  match goal with
  | |- context [randomIndex ?n ?r] =>
      let Hr := fresh in
      assert (Hr : 0 < n <= 2 ^ 20) by (vm_compute; split; congruence);
      pose proof (randomIndex_range n r Hr) as Hk; clear Hr;
      destruct (randomIndex n r) as [k r']; cbn [fst] in Hk
  end.

Lemma generateValue_range (t : EventType) (r : Rng) :
  valueInRange t (fst (generateValue t r)).
Proof.
  destruct t; unfold generateValue, bind, ret; draw_index k r' Hk;
    cbn [fst valueInRange].
  - exists k. split; [lia | reflexivity].
  - exists k. split; [lia | reflexivity].
  - exists (k + 1). split; [lia | reflexivity].
  - exists (k + 400). split; [lia | reflexivity].
  - exists (k + 1). split; [lia | reflexivity].
Qed.

Lemma generateEvent_shape (i startTime timeSpan now : Z) (r : Rng) :
  let e := fst (generateEvent i startTime timeSpan now r) in
  valueInRange (TelemetryEvent.eventType e) (TelemetryEvent.value e)
  /\ hasLevelAndMessage e.
Proof.
  unfold generateEvent, bind, ret.
  draw_index kt r1 Hkt. draw_index ks r2 Hks.
  destruct (rng r2) as [clusterCenter r3].
  destruct (rng r3) as [x r4].
  destruct (rng r4) as [y r5].
  pose proof (generateValue_range (nth (Z.to_nat kt) EVENT_TYPES log) r5) as Hv.
  destruct (generateValue (nth (Z.to_nat kt) EVENT_TYPES log) r5) as [v r6].
  draw_index kl r7 Hkl. draw_index km r8 Hkm.
  cbn [fst] in *. cbv zeta.
  cbn [TelemetryEvent.eventType TelemetryEvent.value].
  split; [exact Hv|].
  unfold hasLevelAndMessage. cbn [TelemetryEvent.level TelemetryEvent.message].
  split.
  - destruct (nth_error LEVELS (Z.to_nat kl)) as [l|] eqn:E.
    + exists l. split; [reflexivity | exact (nth_error_In _ _ E)].
    + apply nth_error_None in E. simpl in E, Hkl. lia.
  - destruct (nth_error SAMPLE_MESSAGES (Z.to_nat km)) as [m|] eqn:E.
    + exists m. split; [reflexivity | exact (nth_error_In _ _ E)].
    + apply nth_error_None in E. simpl in E, Hkm. lia.
Qed.

Lemma generateEvents_shape (count startTime endTime : Z) (clock : nat -> Z)
  (P : TelemetryEvent.t -> Prop) :
  (forall i now r, P (fst (generateEvent i startTime (endTime - startTime)
                             now r))) ->
  0 <= count < 2 ^ 32 ->
  exists events posts,
    generateEvents count startTime endTime clock = JS.Normal (events, posts)
    /\ Forall P events.
Proof.
  intros HP Hc. rewrite (generateEvents_unfold count startTime endTime clock Hc).
  eexists. eexists. split; [reflexivity|].
  apply Forall_forall. intros e He. apply Array_sort_In in He.
  destruct (generateLoop_indices (Z.to_nat count) 0 count startTime
              (endTime - startTime) clock (createRng (clock O)) ltac:(lia))
    as [Hall _].
  destruct (Hall e He) as [j [now [r' [_ ->]]]]. apply HP.
Qed.

(** X17.  The index [Math.floor(rng() * n)] is computed without rounding
    error: for every state of the random source and every [n] from 1 to
    2^20 it is the floor of [u * n / 2^32], where [u] is the 32-bit integer
    the source draws, and so an index from 0 to [n - 1]. *)
Theorem random_index_is_in_bounds (n : Z) (r : Rng) :
  0 < n <= 2 ^ 20 ->
  randomIndex n r = (fst (mulberry32 r) * n / 2 ^ 32, snd (mulberry32 r))
  /\ 0 <= fst (randomIndex n r) < n.
Proof.
  intros Hn. split.
  - apply randomIndex_exact. exact Hn.
  - apply randomIndex_range. exact Hn.
Qed.

Lemma random_index_sample :
  0 < 12 <= 2 ^ 20
  /\ randomIndex 12 (createRng 7)
     = (fst (mulberry32 (createRng 7)) * 12 / 2 ^ 32,
        snd (mulberry32 (createRng 7)))
  /\ 0 <= fst (randomIndex 12 (createRng 7)) < 12.
Proof.
  assert (H : 0 < 12 <= 2 ^ 20) by (split; [lia | vm_compute; discriminate]).
  split; [exact H | apply (random_index_is_in_bounds 12 (createRng 7) H)].
Defined.

(** X18.  Every generated event has a level and a message, each taken from
    its pool: the optional fields are never left undefined. *)
Theorem generated_events_have_level_and_message
  (count startTime endTime : Z) (clock : nat -> Z) :
  0 <= count < 2 ^ 32 ->
  exists events posts,
    generateEvents count startTime endTime clock = JS.Normal (events, posts)
    /\ Forall hasLevelAndMessage events.
Proof.
  apply generateEvents_shape. intros i now r.
  apply (generateEvent_shape i startTime (endTime - startTime) now r).
Qed.

Lemma generated_level_and_message_sample :
  0 <= 3 < 2 ^ 32
  /\ exists events posts,
       generateEvents 3 0 10000 (frozenClock 7) = JS.Normal (events, posts)
       /\ Forall hasLevelAndMessage events.
Proof.
  split; [lia|].
  apply (generated_events_have_level_and_message 3 0 10000 (frozenClock 7)).
  lia.
Defined.

(** X19.  The value of a generated event lies in the range of its type: a
    tenth of an integer from 0 to 999 for a metric, an integer from 1 to 500
    for a trace or a span, from 400 to 899 for an error and from 0 to 99 for
    a log. *)
Theorem generated_values_are_in_range
  (count startTime endTime : Z) (clock : nat -> Z) :
  0 <= count < 2 ^ 32 ->
  exists events posts,
    generateEvents count startTime endTime clock = JS.Normal (events, posts)
    /\ Forall (fun e => valueInRange (TelemetryEvent.eventType e)
                                     (TelemetryEvent.value e)) events.
Proof.
  apply generateEvents_shape. intros i now r.
  apply (generateEvent_shape i startTime (endTime - startTime) now r).
Qed.

Lemma generated_values_sample :
  0 <= 3 < 2 ^ 32
  /\ exists events posts,
       generateEvents 3 0 10000 (frozenClock 7) = JS.Normal (events, posts)
       /\ Forall (fun e => valueInRange (TelemetryEvent.eventType e)
                                        (TelemetryEvent.value e)) events.
Proof.
  split; [lia|].
  apply (generated_values_are_in_range 3 0 10000 (frozenClock 7)). lia.
Defined.
Lemma Selected_ext_in {A} (P Q : A -> Prop) (l l' : list A) :
  (forall x, In x l -> (P x <-> Q x)) ->
  Selected P l l' -> Selected Q l l'.
Proof.
  intros H S. induction S as [|x l l' Hx S IH|x l l' Hx S IH].
  - constructor.
  - apply Selected_keep.
    + apply (H x); [left; reflexivity | exact Hx].
    + apply IH. intros y Hy. apply H. right. exact Hy.
  - apply Selected_drop.
    + intros Hq. apply Hx. apply (H x); [left; reflexivity | exact Hq].
    + apply IH. intros y Hy. apply H. right. exact Hy.
Qed.

(** For an event with a message of the pool the search clause of the filter
    is the one the specification words. *)
Lemma matches_with_message (f : FilterState.t) (e : TelemetryEvent.t) :
  hasLevelAndMessage e -> (matches f e <-> matchesAsSpecified f e).
Proof.
  intros [_ [m [Hm Hin]]].
  assert (Hne : m <> EmptyString).
  { intros ->. unfold SAMPLE_MESSAGES in Hin. simpl in Hin.
    repeat (destruct Hin as [Hin | Hin]; [discriminate|]). exact Hin. }
  unfold matches, matchesAsSpecified, searchAdmits, searchRequiresMessage.
  rewrite Hm. split.
  - intros [H1 [H2 [H3 H4]]]. repeat (split; [assumption|]).
    destruct H4 as [H4 | [H4 | [H4 | H4]]];
      [left; exact H4 | discriminate | congruence | right; exact H4].
  - intros [H1 [H2 [H3 H4]]]. repeat (split; [assumption|]).
    destruct H4 as [H4 | H4]; [left; exact H4 | right; right; right; exact H4].
Qed.

(* ================================================================== *)
(** * Rounding *)
(* ================================================================== *)

Lemma shr_1_m (r : shr_record) :
  0 <= shr_m r -> shr_m (shr_1 r) = shr_m r / 2.
Proof.
  destruct r as [m r s]. cbn [shr_m]. intros Hm.
  destruct m as [|[p|p|]|p]; cbn [shr_1 shr_m]; try lia.
  - reflexivity.
  - apply Z.div_unique with (r := 1); lia.
  - apply Z.div_unique with (r := 0); lia.
  - reflexivity.
Qed.

Lemma iter_pos_shr_m (k : positive) (r : shr_record) :
  0 <= shr_m r ->
  shr_m (iter_pos shr_1 k r) = shr_m r / 2 ^ Zpos k.
Proof.
  revert r. induction k as [k IH | k IH |]; intros r Hr; cbn [iter_pos].
  - assert (H1 : 0 <= shr_m (shr_1 r))
      by (rewrite shr_1_m by exact Hr; apply Z.div_pos; lia).
    assert (H2 : 0 <= shr_m (iter_pos shr_1 k (shr_1 r)))
      by (rewrite IH by exact H1; apply Z.div_pos; [exact H1|];
          apply Z.pow_pos_nonneg; lia).
    rewrite IH, IH, shr_1_m by assumption.
    rewrite !Z.div_div by (try apply Z.pow_pos_nonneg; lia).
    f_equal. replace (Zpos k~1) with (1 + Zpos k + Zpos k) by lia.
    rewrite !Z.pow_add_r by lia. change (2 ^ 1) with 2. lia.
  - assert (H1 : 0 <= shr_m (iter_pos shr_1 k r))
      by (rewrite IH by exact Hr; apply Z.div_pos; [exact Hr|];
          apply Z.pow_pos_nonneg; lia).
    rewrite IH, IH by assumption.
    rewrite !Z.div_div by (try apply Z.pow_pos_nonneg; lia).
    f_equal. replace (Zpos k~0) with (Zpos k + Zpos k) by lia.
    rewrite Z.pow_add_r by lia. reflexivity.
  - rewrite shr_1_m by exact Hr. reflexivity.
Qed.

Lemma round_nearest_even_bounds (m : Z) (l : location) :
  m <= round_nearest_even m l <= m + 1.
Proof.
  destruct l as [|[| |]]; cbn [round_nearest_even];
    try destruct (Z.even m); lia.
Qed.

(** The shift that brings a mantissa to its exponent: the mantissa is
    divided by a power of two. *)
Lemma shr_fexp_spec (m e : Z) (l : location) :
  0 <= m ->
  let k := Z.max 0 (fexp JS.prec JS.emax (Zdigits2 m + e) - e) in
  exists mrs,
    shr_fexp JS.prec JS.emax m e l = (mrs, e + k)
    /\ shr_m mrs = m / 2 ^ k
    /\ (k = 0 -> mrs = shr_record_of_loc m l).
Proof.
  intros Hm k. subst k. unfold shr_fexp, shr.
  assert (Hrec : shr_m (shr_record_of_loc m l) = m)
    by (destruct l as [|[| |]]; reflexivity).
  destruct (fexp JS.prec JS.emax (Zdigits2 m + e) - e) as [|p|p].
  - exists (shr_record_of_loc m l). rewrite Z.max_l by lia.
    split; [f_equal; lia|]. split; [|reflexivity].
    rewrite Hrec, Z.pow_0_r, Z.div_1_r. reflexivity.
  - exists (iter_pos shr_1 p (shr_record_of_loc m l)).
    rewrite Z.max_r by lia. split; [reflexivity|]. split; [|lia].
    rewrite iter_pos_shr_m by (rewrite Hrec; exact Hm).
    rewrite Hrec. reflexivity.
  - exists (shr_record_of_loc m l). rewrite Z.max_l by lia.
    split; [f_equal; lia|]. split; [|reflexivity].
    rewrite Hrec, Z.pow_0_r, Z.div_1_r. reflexivity.
Qed.

Lemma Zdigits2_gt (x : Z) : 0 <= x -> x < 2 ^ Zdigits2 x.
Proof.
  intros Hx. destruct x as [|p|p]; [reflexivity | | lia].
  cbn [Zdigits2]. rewrite digits2_pos_size.
  pose proof (Pos.size_gt p) as H. apply Pos2Z.pos_lt_pos in H.
  rewrite Pos2Z.inj_pow in H. exact H.
Qed.

Lemma Zdigits2_le (x n : Z) : 0 <= x < 2 ^ n -> 0 <= n -> Zdigits2 x <= n.
Proof.
  intros Hx Hn. destruct x as [|p|p]; [exact Hn | | lia].
  cbn [Zdigits2]. apply digits2_pos_bound; lia.
Qed.

Lemma Zdigits2_nonneg (x : Z) : 0 <= Zdigits2 x.
Proof. destruct x; cbn [Zdigits2]; lia. Qed.
Lemma fexp_eq (x : Z) :
  fexp JS.prec JS.emax x = Z.max (x - 53) (-1074).
Proof. reflexivity. Qed.

(** What rounding a positive mantissa returns: a mantissa below 2^53 at an
    exponent at most one above the exponent [e1] the format gives the
    value, exceeding the value by at most one unit of [e1]. *)
Lemma binary_round_aux_spec (s : bool) (M : positive) (E : Z) :
  let e1 := Z.max E (Z.max (Zpos (digits2_pos M) + E - 53) (-1074)) in
  exists m2 e2,
    e1 <= e2 <= e1 + 1
    /\ 0 <= m2 < 2 ^ 53
    /\ m2 * 2 ^ (e2 - E) <= Zpos M + 2 ^ (e1 - E)
    /\ binary_round_aux JS.prec JS.emax s (Zpos M) E loc_Exact
       = match m2 with
         | Z0 => S754_zero s
         | Zpos m => if e2 <=? 971 then S754_finite s m e2
                     else S754_infinity s
         | Zneg _ => S754_nan
         end.
Proof.
  intros e1. unfold binary_round_aux.
  destruct (shr_fexp_spec (Zpos M) E loc_Exact ltac:(lia))
    as [mrs1 [H1 [Hm1 Hk1]]].
  cbv zeta in H1, Hm1, Hk1. cbn [Zdigits2] in H1, Hm1, Hk1.
  rewrite fexp_eq in H1, Hm1, Hk1.
  set (dM := Zpos (digits2_pos M)) in *.
  set (k1 := Z.max 0 (Z.max (dM + E - 53) (-1074) - E)) in *.
  rewrite H1.
  set (m1 := round_nearest_even (shr_m mrs1) (loc_of_shr_record mrs1)).
  pose proof (round_nearest_even_bounds (shr_m mrs1) (loc_of_shr_record mrs1))
    as Hr. fold m1 in Hr. rewrite Hm1 in Hr.
  assert (Hk1nn : 0 <= k1) by lia.
  assert (HA : 0 < 2 ^ k1) by (apply Z.pow_pos_nonneg; lia).
  assert (Hq1 : 0 <= Zpos M / 2 ^ k1) by (apply Z.div_pos; lia).
  assert (Hq1le : 2 ^ k1 * (Zpos M / 2 ^ k1) <= Zpos M)
    by (apply Z.mul_div_le; exact HA).
  assert (Hm1nn : 0 <= m1) by lia.
  assert (HMlt : Zpos M < 2 ^ dM)
    by (apply (Zdigits2_gt (Zpos M)); lia).
  assert (Hm1lt : m1 < 2 ^ 54 /\ (k1 = 0 -> m1 = Zpos M /\ dM <= 53)).
  { destruct (Z.eq_dec k1 0) as [E0 | E0].
    - assert (Hm : m1 = Zpos M).
      { unfold m1. rewrite (Hk1 E0). reflexivity. }
      assert (Hd : dM <= 53) by lia.
      split; [|intros _; split; assumption].
      rewrite Hm. apply (Z.lt_le_trans _ _ _ HMlt).
      apply Z.pow_le_mono_r; lia.
    - split; [|intros C; contradiction].
      assert (Hd : dM <= 53 + k1) by lia.
      assert (Hlt : Zpos M / 2 ^ k1 < 2 ^ 53).
      { apply Z.div_lt_upper_bound; [exact HA|].
        rewrite <- Z.pow_add_r by lia.
        apply (Z.lt_le_trans _ _ _ HMlt). apply Z.pow_le_mono_r; lia. }
      change (2 ^ 54) with (2 * 2 ^ 53). lia. }
  destruct Hm1lt as [Hm1lt Hexact].
  assert (Hd1 : Zdigits2 m1 <= 54) by (apply Zdigits2_le; lia).
  pose proof (Zdigits2_nonneg m1) as Hd1nn.
  destruct (shr_fexp_spec m1 (E + k1) loc_Exact Hm1nn)
    as [mrs2 [H2 [Hm2 _]]].
  cbv zeta in H2, Hm2. rewrite fexp_eq in H2, Hm2.
  set (k2 := Z.max 0 (Z.max (Zdigits2 m1 + (E + k1) - 53) (-1074) - (E + k1)))
    in *.
  rewrite H2. rewrite Hm2.
  assert (He1 : e1 = E + k1) by (unfold e1, k1; lia).
  assert (Hk2 : 0 <= k2 <= 1) by (unfold k2; lia).
  assert (HB : 0 < 2 ^ k2) by (apply Z.pow_pos_nonneg; lia).
  assert (Hq2 : 0 <= m1 / 2 ^ k2) by (apply Z.div_pos; lia).
  assert (Hq2le : 2 ^ k2 * (m1 / 2 ^ k2) <= m1)
    by (apply Z.mul_div_le; exact HB).
  exists (m1 / 2 ^ k2), (E + k1 + k2).
  split; [lia|]. split; [split; [exact Hq2|]|split].
  - apply Z.div_lt_upper_bound; [exact HB|].
    rewrite <- Z.pow_add_r by lia.
    apply (Z.lt_le_trans _ (2 ^ Zdigits2 m1)).
    + apply Zdigits2_gt. exact Hm1nn.
    + apply Z.pow_le_mono_r; [lia|]. unfold k2. lia.
  - replace (E + k1 + k2 - E) with (k2 + k1) by lia.
    replace (e1 - E) with k1 by lia.
    rewrite Z.pow_add_r by lia.
    assert (Hstep : m1 / 2 ^ k2 * 2 ^ k2 * 2 ^ k1 <= m1 * 2 ^ k1).
    { apply Z.mul_le_mono_nonneg_r; lia. }
    assert (Hstep2 : m1 * 2 ^ k1 <= (Zpos M / 2 ^ k1 + 1) * 2 ^ k1).
    { apply Z.mul_le_mono_nonneg_r; lia. }
    lia.
  - change (JS.emax - JS.prec) with 971. reflexivity.
Qed.
Lemma binary_round_aux_proper (s : bool) (M : positive) (E : Z) :
  properNumber (binary_round_aux JS.prec JS.emax s (Zpos M) E loc_Exact).
Proof.
  destruct (binary_round_aux_spec s M E) as [m2 [e2 [_ [Hm [_ ->]]]]].
  destruct m2 as [|m|m]; [exact I | | lia].
  destruct (e2 <=? 971); [apply Hm | exact I].
Qed.

(** Far from the largest exponent the result of rounding is finite. *)
Lemma binary_round_aux_finite (s : bool) (M : positive) (E : Z) :
  Zpos (digits2_pos M) + E <= 1000 -> E <= 900 ->
  finiteNumber (binary_round_aux JS.prec JS.emax s (Zpos M) E loc_Exact).
Proof.
  intros Hd HE.
  destruct (binary_round_aux_spec s M E) as [m2 [e2 [He [Hm [_ ->]]]]].
  cbv zeta in He.
  destruct m2 as [|m|m]; [exact I | | lia].
  destruct (Z.leb_spec e2 971); [apply Hm | lia].
Qed.

Lemma shl_align_spec (m : positive) (e e' : Z) :
  let (mz, ez) := shl_align m e e' in
  ez <= e
  /\ Zpos (digits2_pos mz) + ez = Zpos (digits2_pos m) + e
  /\ Zpos mz = Zpos m * 2 ^ (e - ez)
  /\ ez = Z.min e e'.
Proof.
  unfold shl_align. destruct (e' - e) as [|d|d] eqn:Ed.
  - rewrite Z.sub_diag. change (2 ^ 0) with 1. lia.
  - rewrite Z.sub_diag. change (2 ^ 0) with 1. lia.
  - rewrite digits2_pos_iter_xO, iter_xO_value.
    replace (e - e') with (Zpos d) by lia. lia.
Qed.

Lemma binary_round_proper (s : bool) (m : positive) (e : Z) :
  properNumber (binary_round JS.prec JS.emax s m e).
Proof.
  unfold binary_round.
  destruct (shl_align m e _) as [mz ez]. apply binary_round_aux_proper.
Qed.

Lemma binary_round_finite (s : bool) (m : positive) (e : Z) :
  Zpos (digits2_pos m) + e <= 1000 -> e <= 900 ->
  finiteNumber (binary_round JS.prec JS.emax s m e).
Proof.
  intros Hd He. unfold binary_round.
  pose proof (shl_align_spec m e
                (fexp JS.prec JS.emax (Zpos (digits2_pos m) + e))) as H.
  destruct (shl_align m e _) as [mz ez]. destruct H as [H1 [H2 _]].
  apply binary_round_aux_finite; lia.
Qed.

Lemma binary_normalize_proper (D e : Z) :
  properNumber (binary_normalize JS.prec JS.emax D e false).
Proof.
  destruct D; cbn [binary_normalize];
    [exact I | apply binary_round_proper | apply binary_round_proper].
Qed.

Lemma binary_normalize_finite (D e : Z) (n : Z) :
  Z.abs D < 2 ^ n -> 0 <= n -> n + e <= 1000 -> e <= 900 ->
  finiteNumber (binary_normalize JS.prec JS.emax D e false).
Proof.
  intros HD Hn Hne He.
  destruct D as [|p|p]; cbn [binary_normalize]; [exact I | |];
    apply binary_round_finite; try lia;
    pose proof (digits2_pos_bound p n Hn ltac:(lia)); lia.
Qed.

Lemma literal_half :
  JS.literal 5 10 = S754_finite false 4503599627370496 (-53).
Proof. vm_compute. reflexivity. Qed.

Lemma literal_tenth :
  JS.literal 1 10 = S754_finite false 7205759403792794 (-56).
Proof. vm_compute. reflexivity. Qed.

Lemma ofZ_zero : JS.ofZ 0 = S754_zero false.
Proof. reflexivity. Qed.

Lemma ofZ_one : JS.ofZ 1 = S754_finite false 4503599627370496 (-52).
Proof. vm_compute. reflexivity. Qed.

Lemma digits53_lt (m : positive) :
  digits2_pos m = 53%positive -> Zpos m < 2 ^ 53.
Proof.
  intros H. pose proof (Zdigits2_gt (Zpos m) ltac:(lia)) as G.
  cbn [Zdigits2] in G. rewrite H in G. exact G.
Qed.

Lemma rng_unitFraction (r : Rng) : unitFraction (fst (rng r)).
Proof.
  unfold rng. pose proof (mulberry32_range r) as Hu.
  destruct (mulberry32 r) as [u seed]. cbn [fst] in *.
  destruct u as [|p|p]; [left; reflexivity | | lia].
  right. rewrite uint32_fraction_pos by lia.
  pose proof (digits2_pos_bound p 32 ltac:(lia) (proj2 Hu)) as Hd.
  eexists. eexists. split; [reflexivity|].
  split; [rewrite digits2_pos_iter_xO; lia | lia].
Qed.

Lemma unitFraction_finite (x : number) : unitFraction x -> finiteNumber x.
Proof.
  intros [-> | [m [e [-> [Hd _]]]]]; [exact I | apply digits53_lt, Hd].
Qed.

(** [y - 0.5] for a value [y] of the source is finite. *)
Lemma sub_half_finite (y : number) :
  unitFraction y -> finiteNumber (JS.sub y (JS.literal 5 10)).
Proof.
  rewrite literal_half.
  intros [-> | [m [e [-> [Hd He]]]]]; [vm_compute; reflexivity|].
  unfold JS.sub, SFsub. cbn [cond_Zopp].
  rewrite Z.min_l by lia.
  pose proof (shl_align_spec m e e) as H1.
  pose proof (shl_align_spec 4503599627370496 (-53) e) as H2.
  destruct (shl_align m e e) as [m1 e1].
  destruct (shl_align 4503599627370496 (-53) e) as [m2 e2].
  cbn [fst]. destruct H1 as [_ [_ [V1 X1]]]. destruct H2 as [_ [_ [V2 X2]]].
  pose proof (digits53_lt m Hd) as Hm.
  assert (E1 : e1 = e) by lia. assert (E2 : e2 = e) by lia.
  clear X1 X2. subst e1 e2.
  rewrite Z.sub_diag in V1. change (2 ^ 0) with 1 in V1.
  assert (Hp : 2 ^ (-53 - e) <= 2 ^ 31) by (apply Z.pow_le_mono_r; lia).
  assert (Hp0 : 0 < 2 ^ (-53 - e)) by (apply Z.pow_pos_nonneg; lia).
  apply (binary_normalize_finite _ e 84); lia.
Qed.

(** [x * 0.1] for a value [x] of the source is finite. *)
Lemma mul_tenth_finite (x : number) :
  unitFraction x -> finiteNumber (JS.mul x (JS.literal 1 10)).
Proof.
  rewrite literal_tenth.
  intros [-> | [m [e [-> [Hd He]]]]]; [exact I|].
  unfold JS.mul, SFmul. cbn [xorb].
  apply binary_round_aux_finite; [|lia].
  pose proof (digits53_lt m Hd) as Hm.
  assert (H : Zpos (digits2_pos (m * 7205759403792794)) <= 106).
  { apply digits2_pos_bound; [lia|]. rewrite Pos2Z.inj_mul.
    change (2 ^ 106) with (2 ^ 53 * 2 ^ 53).
    apply Z.mul_lt_mono_nonneg; lia. }
  lia.
Qed.

Lemma mul_proper (a b : number) :
  finiteNumber a -> finiteNumber b -> properNumber (JS.mul a b).
Proof.
  unfold JS.mul, SFmul.
  destruct a as [sa|sa| |sa ma ea], b as [sb|sb| |sb mb eb];
    cbn [finiteNumber]; try contradiction; intros _ _; try exact I.
  apply binary_round_aux_proper.
Qed.

Lemma add_proper (c z : number) :
  finiteNumber c -> properNumber z -> properNumber (JS.add c z).
Proof.
  unfold JS.add, SFadd.
  destruct c as [sc|sc| |sc mc ec], z as [sz|sz| |sz mz ez];
    cbn [finiteNumber properNumber]; try contradiction; intros Hc Hz;
    try exact I; try assumption.
  - destruct sc, sz; exact I.
  - apply binary_normalize_proper.
Qed.
(** Clamping a number that is not [NaN] to [0, 1]. *)
Lemma clamp_unitInterval (t : number) :
  properNumber t ->
  unitInterval (JS.Math_max (JS.ofZ 0) (JS.Math_min (JS.ofZ 1) t)).
Proof.
  rewrite ofZ_zero, ofZ_one. intros Ht.
  destruct t as [s|s| |s m e]; cbn [properNumber] in Ht; [| |contradiction|].
  - left. destruct s; vm_compute; reflexivity.
  - destruct s; [left | right; left]; vm_compute; reflexivity.
  - destruct s; [left; reflexivity|].
    assert (Hone : JS.Math_max (S754_zero false)
                     (S754_finite false 4503599627370496 (-52))
                   = S754_finite false 4503599627370496 (-52))
      by (vm_compute; reflexivity).
    assert (Hmax : JS.Math_max (S754_zero false) (S754_finite false m e)
                   = S754_finite false m e) by reflexivity.
    cbv [JS.Math_min SFcompare].
    destruct (Z.compare_spec (-52) e) as [He | He | He].
    + subst e.
      rewrite Pos.compare_cont_spec. cbn [Pos.switch_Eq].
      destruct (Pos.compare_spec 4503599627370496 m) as [Hm | Hm | Hm];
        cbn [Pos.switch_Eq].
      * right. left. exact Hone.
      * right. left. exact Hone.
      * right. right. exists m, (-52). split; [exact Hmax|].
        split; [reflexivity|].
        change (- -52) with 52. change (2 ^ 52) with 4503599627370496.

        apply Pos2Z.pos_lt_pos. exact Hm.
    + right. left. exact Hone.
    + right. right. exists m, e. split; [exact Hmax|]. clear Hone Hmax.
      split; [lia|].
      apply (Z.lt_le_trans _ _ _ Ht). apply Z.pow_le_mono_r; lia.
Qed.

Lemma unitInterval_signClear (x : number) : unitInterval x -> signClear x.
Proof.
  intros [-> | [-> | [m [e [-> _]]]]]; reflexivity.
Qed.

(** Scaling a number of [0, 1] to a span and flooring gives an integer of
    the span. *)
Lemma scaled_floor_range (nt : number) (span : Z) :
  unitInterval nt -> 0 <= span < 2 ^ 52 ->
  0 <= JS.toZ (JS.Math_floor (JS.mul nt (JS.ofZ span))) <= span.
Proof.
  intros Hnt Hs. split.
  - apply toZ_nonneg, Math_floor_signClear, mul_signClear.
    + apply unitInterval_signClear. exact Hnt.
    + apply ofZ_signClear. lia.
  - destruct span as [|q|q]; [| |lia].
    + rewrite ofZ_zero.
      destruct Hnt as [-> | [-> | [m [e [-> _]]]]];
        unfold JS.mul, SFmul; cbn [xorb JS.Math_floor JS.toZ]; lia.
    + pose proof (digits2_pos_bound q 52 ltac:(lia) (proj2 Hs)) as Hdq.
      rewrite ofZ_pos by lia.
      set (dq := digits2_pos q) in *.
      destruct Hnt as [-> | [-> | [m [e [-> [He Hm]]]]]].
      * unfold JS.mul, SFmul. cbn [xorb JS.Math_floor JS.toZ]. lia.
      * change (S754_finite false 4503599627370496 (-52))
          with (S754_finite false (Pos.iter xO 1%positive (53 - digits2_pos 1))
                            (-52)).
        unfold dq. rewrite mul_exact; try (cbn [digits2_pos]; lia).
        -- rewrite Pos.mul_1_l. fold dq. rewrite toZ_floor.
           ++ rewrite iter_xO_value.
              replace (- (-52 + (Zpos dq - 53) + (53 - Zpos (digits2_pos 1))
                          + (53 - Zpos dq) - (53 - Zpos dq)))
                with (Zpos (53 - dq)) by (cbn [digits2_pos]; lia).
              rewrite Z.div_mul by (apply Z.pow_nonzero; lia). lia.
           ++ cbn [digits2_pos]. lia.
           ++ rewrite iter_xO_value.
              replace (- (-52 + (Zpos dq - 53) + (53 - Zpos (digits2_pos 1))
                          + (53 - Zpos dq) - (53 - Zpos dq)))
                with (Zpos (53 - dq)) by (cbn [digits2_pos]; lia).
              rewrite Z.div_mul by (apply Z.pow_nonzero; lia). lia.
        -- rewrite Pos.mul_1_l. fold dq. lia.
      * unfold JS.mul, SFmul. cbn [xorb].
        set (mq := Pos.iter xO q (53 - dq)).
        set (E := e + (Zpos dq - 53)).
        destruct (binary_round_aux_spec false (m * mq) E)
          as [m2 [e2 [He2 [Hm2 [Hup ->]]]]].
        cbv zeta in He2, Hup.
        assert (Hmq : Zpos mq = Zpos q * 2 ^ Zpos (53 - dq))
          by (unfold mq; apply iter_xO_value).
        assert (HE : E < 0) by (unfold E; lia).
        assert (Hpow : 2 ^ (- E) = 2 ^ (- e) * 2 ^ Zpos (53 - dq)).
        { rewrite <- Z.pow_add_r by lia. f_equal. unfold E. lia. }
        assert (Hpe : 0 < 2 ^ (- e)) by (apply Z.pow_pos_nonneg; lia).
        assert (Hpd : 0 < 2 ^ Zpos (53 - dq)) by (apply Z.pow_pos_nonneg; lia).
        assert (HM : Zpos (m * mq) + 1 <= Zpos q * 2 ^ (- E)).
        { rewrite Pos2Z.inj_mul, Hmq, Hpow.
          assert (H1 : Zpos m + 1 <= 2 ^ (- e)) by lia.
          assert (H2 : (Zpos m + 1) * (Zpos q * 2 ^ Zpos (53 - dq))
                       <= 2 ^ (- e) * (Zpos q * 2 ^ Zpos (53 - dq)))
            by (apply Z.mul_le_mono_nonneg_r; lia).
          assert (H3 : 1 <= Zpos q * 2 ^ Zpos (53 - dq)) by lia.
          lia. }
        assert (HdM : Zpos (digits2_pos (m * mq)) + E - 53 <= 0).
        { assert (H : Zpos (digits2_pos (m * mq)) <= 52 + - E).
          { apply digits2_pos_bound; [lia|].
            rewrite Z.pow_add_r by lia.
            assert (Zpos q * 2 ^ (- E) < 2 ^ 52 * 2 ^ (- E)).
            { apply Z.mul_lt_mono_pos_r; [|lia].
              apply Z.pow_pos_nonneg; lia. }
            lia. }
          lia. }
        set (e1 := Z.max E (Z.max (Zpos (digits2_pos (m * mq)) + E - 53)
                                  (-1074))) in *.
        assert (He1 : E <= e1 <= 0) by (unfold e1; lia).
        assert (Hp1 : 2 ^ (e1 - E) <= 2 ^ (- E))
          by (apply Z.pow_le_mono_r; lia).
        assert (HpE : 0 < 2 ^ (- E)) by (apply Z.pow_pos_nonneg; lia).
        assert (Hlt : m2 * 2 ^ (e2 - E) < (Zpos q + 1) * 2 ^ (- E)) by lia.
        destruct m2 as [|m'|m']; [cbn [JS.Math_floor JS.toZ]; lia | | lia].
        destruct (Z.leb_spec e2 971); [|lia].
        destruct (Z_lt_dec e2 0) as [Hneg | Hnn].
        -- assert (Hsplit : 2 ^ (- E) = 2 ^ (- e2) * 2 ^ (e2 - E)).
           { rewrite <- Z.pow_add_r by lia. f_equal; lia. }
           assert (Hp2 : 0 < 2 ^ (e2 - E)) by (apply Z.pow_pos_nonneg; lia).
           assert (Hp3 : 0 < 2 ^ (- e2)) by (apply Z.pow_pos_nonneg; lia).
           assert (Hq : Zpos m' / 2 ^ (- e2) <= Zpos q).
           { apply Z.lt_succ_r. apply Z.div_lt_upper_bound; [exact Hp3|].
             rewrite Hsplit in Hlt.
             apply (Z.mul_lt_mono_pos_r (2 ^ (e2 - E))); [exact Hp2|].
             unfold Z.succ. lia. }
           rewrite toZ_floor; lia.
        -- unfold JS.Math_floor.
           destruct (Z.leb_spec 0 e2); [|lia]. unfold JS.toZ.
           destruct (Z.leb_spec 0 e2); [|lia]. cbn [cond_Zopp].
           assert (Hsplit : 2 ^ (e2 - E) = 2 ^ e2 * 2 ^ (- E)).
           { rewrite <- Z.pow_add_r by lia. f_equal; lia. }
           rewrite Hsplit in Hlt.
           assert (Hp2 : 0 < 2 ^ e2) by (apply Z.pow_pos_nonneg; lia).
           apply Z.lt_succ_r.
           apply (Z.mul_lt_mono_pos_r (2 ^ (- E))); [exact HpE|].
           unfold Z.succ. lia.
Qed.
(** The timestamp of a generated event lies in the span. *)
Lemma generateEvent_timestamp_range (i startTime timeSpan now : Z) (r : Rng) :
  0 <= timeSpan < 2 ^ 52 ->
  startTime
  <= TelemetryEvent.timestamp (fst (generateEvent i startTime timeSpan now r))
  <= startTime + timeSpan.
Proof.
  intros Hs. unfold generateEvent, bind, ret.
  destruct (randomIndex _ r) as [kt r1].
  destruct (randomIndex _ r1) as [ks r2].
  pose proof (rng_unitFraction r2) as Hc.
  destruct (rng r2) as [clusterCenter r3]. cbn [fst] in Hc.
  pose proof (rng_unitFraction r3) as Hx.
  destruct (rng r3) as [x r4]. cbn [fst] in Hx.
  pose proof (rng_unitFraction r4) as Hy.
  destruct (rng r4) as [y r5]. cbn [fst] in Hy.
  destruct (generateValue _ r5) as [v r6].
  destruct (randomIndex _ r6) as [kl r7].
  destruct (randomIndex _ r7) as [km r8].
  cbn [fst TelemetryEvent.timestamp].
  match goal with
  | |- _ <= _ + JS.toZ (JS.Math_floor (JS.mul ?nt _)) <= _ =>
      assert (Hnt : unitInterval nt)
  end.
  { apply clamp_unitInterval, add_proper.
    - apply unitFraction_finite. exact Hc.
    - apply mul_proper.
      + apply sub_half_finite. exact Hy.
      + apply mul_tenth_finite. exact Hx. }
  pose proof (scaled_floor_range _ timeSpan Hnt Hs) as Hk.
  clear Hnt Hc Hx Hy. lia.
Qed.

Lemma filter_all {A} (f : A -> bool) (l : list A) :
  (forall x, In x l -> f x = true) -> filter f l = l.
Proof.
  intros H. induction l as [|x l IH]; [reflexivity|]. simpl.
  rewrite (H x (or_introl eq_refl)). f_equal. apply IH.
  intros y Hy. apply H. right. exact Hy.
Qed.

Lemma generated_events_in_range
  (count startTime endTime : Z) (clock : nat -> Z) :
  0 <= count < 2 ^ 32 ->
  0 <= endTime - startTime < 2 ^ 52 ->
  exists events posts,
    generateEvents count startTime endTime clock = JS.Normal (events, posts)
    /\ Forall (fun e => startTime <= TelemetryEvent.timestamp e <= endTime)
              events
    /\ Z.of_nat (List.length events) = count.
Proof.
  intros Hc Hs.
  destruct (generateEvents_shape count startTime endTime clock
              (fun e => startTime <= TelemetryEvent.timestamp e <= endTime))
    as [events [posts [E Hall]]]; [|exact Hc|].
  - intros i now r.
    pose proof (generateEvent_timestamp_range i startTime
                  (endTime - startTime) now r Hs) as H.
    lia.
  - exists events, posts. split; [exact E|]. split; [exact Hall|].
    rewrite (generateEvents_unfold count startTime endTime clock Hc) in E.
    injection E as Eevents Eposts. rewrite <- Eevents.
    rewrite Array_sort_length, generateLoop_length. lia.
Qed.

(** X21.  The timestamps of a generated dataset lie in the time range
    asked for, bounds included, when the range is not reversed and spans
    fewer than 2^52 milliseconds: the normalized time the source computes
    is a number from 0 to 1 (never [NaN]), and scaling it to the span and
    flooring stays within the span. *)
Theorem generated_timestamps_lie_in_time_range
  (count startTime endTime : Z) (clock : nat -> Z) :
  0 <= count < 2 ^ 32 ->
  0 <= endTime - startTime < 2 ^ 52 ->
  exists events posts,
    generateEvents count startTime endTime clock = JS.Normal (events, posts)
    /\ Forall (fun e => startTime <= TelemetryEvent.timestamp e <= endTime)
              events.
Proof.
  intros Hc Hs. apply generateEvents_shape; [|exact Hc].
  intros i now r.
  pose proof (generateEvent_timestamp_range i startTime
                (endTime - startTime) now r Hs) as H.
  lia.
Qed.

Lemma generated_timestamps_sample :
  0 <= 3 < 2 ^ 32 /\ 0 <= 10000 - 0 < 2 ^ 52
  /\ exists events posts,
       generateEvents 3 0 10000 (frozenClock 7) = JS.Normal (events, posts)
       /\ Forall (fun e => 0 <= TelemetryEvent.timestamp e <= 10000) events.
Proof.
  assert (H1 : 0 <= 3 < 2 ^ 32) by lia.
  assert (H2 : 0 <= 10000 - 0 < 2 ^ 52) by lia.
  split; [exact H1|]. split; [exact H2|].
  apply (generated_timestamps_lie_in_time_range 3 0 10000 (frozenClock 7)
           H1 H2).
Defined.

(** X22.  After the data is regenerated with no filter active, filtering
    keeps every generated event: the filters then carry the time range the
    data was generated for, and every timestamp lies in it. *)
Theorem regenerated_data_passes_the_filter (now count : Z) (clock : nat -> Z)
  (state : Hook.State) (filters : FilterState.t) :
  0 <= count < 2 ^ 32 ->
  hasActiveFilters filters = false ->
  let '(started, filters', request) :=
    Hook.regenerateData now count state filters in
  let s := afterMessages started (onmessage clock request) in
  filterEvents (Hook.events s) filters' = Hook.events s
  /\ Z.of_nat (List.length (filterEvents (Hook.events s) filters')) = count.
Proof.
  intros Hc Hf. unfold Hook.regenerateData. cbv zeta.
  set (started := Hook.mkState _ _ _ _ true _).
  assert (Hs : 0 <= now - (now - 24 * HOUR) < 2 ^ 52)
    by (unfold HOUR, MINUTE; lia).
  destruct (generated_events_in_range count (now - 24 * HOUR) now clock Hc Hs)
    as [events [posts [E [Hall Hlen]]]].
  cbn [onmessage]. unfold getDefaultTimeRange.
  cbn [TimeRange.start TimeRange.end_]. rewrite E.
  destruct (generateLoop_posts_Progress (Z.to_nat count) 0 count
              (now - 24 * HOUR) (now - (now - 24 * HOUR))
              clock (createRng (clock O))) as [ps Hps].
  rewrite (generateEvents_unfold count (now - 24 * HOUR) now clock Hc) in E.
  rewrite Hps in E. injection E as Eevents Eposts.
  rewrite <- Eposts. clear Eevents Eposts.
  rewrite afterMessages_progress. cbn [Hook.onmessage Hook.events].
  assert (Hfilters : filters
                     = FilterState.mk (FilterState.timeRange filters) [] []
                                      EmptyString).
  { destruct filters as [r ts ss q]. unfold hasActiveFilters in Hf.
    cbn [FilterState.timeRange FilterState.eventTypes FilterState.services
         FilterState.searchQuery] in *.
    destruct ts, ss, q; try discriminate Hf; reflexivity. }
  rewrite Hfilters.
  cbn [FilterState.eventTypes FilterState.services FilterState.searchQuery].
  assert (Hid : filterEvents events
                  (FilterState.mk (TimeRange.mk (now - 24 * HOUR) now) [] []
                                  EmptyString) = events).
  { unfold filterEvents. apply filter_all. intros e He.
    rewrite filterCallback_inactive. unfold withinRange.
    cbn [TimeRange.start TimeRange.end_].
    rewrite Forall_forall in Hall. specialize (Hall e He).
    apply andb_true_intro. split; apply Z.leb_le; lia. }
  rewrite Hid. split; [reflexivity | exact Hlen].
Qed.

Lemma regenerated_data_sample :
  0 <= 3 < 2 ^ 32
  /\ hasActiveFilters (getDefaultFilters 0) = false
  /\ let '(started, filters', request) :=
       Hook.regenerateData 1000 3 initialState (getDefaultFilters 0) in
     let s := afterMessages started (onmessage (frozenClock 7) request) in
     filterEvents (Hook.events s) filters' = Hook.events s
     /\ Z.of_nat (List.length (filterEvents (Hook.events s) filters')) = 3.
Proof.
  assert (H1 : 0 <= 3 < 2 ^ 32) by lia.
  assert (H2 : hasActiveFilters (getDefaultFilters 0) = false) by reflexivity.
  split; [exact H1|]. split; [exact H2|].
  exact (regenerated_data_passes_the_filter 1000 3 (frozenClock 7)
           initialState (getDefaultFilters 0) H1 H2).
Defined.
(* ================================================================== *)
(** * Statistics of generated data *)
(* ================================================================== *)

Lemma smallValues_withinChart (k : Z) :
  0 <= k <= 999 ->
  withinChart (JS.ofZ k) = true
  /\ withinChart (JS.div (JS.ofZ k) (JS.ofZ 10)) = true.
Proof.
  intros Hk.
  assert (H : smallValuesChecked = true) by (vm_compute; reflexivity).
  unfold smallValuesChecked in H. rewrite forallb_forall in H.
  specialize (H (Z.to_nat k)). cbv zeta in H.
  rewrite Z2Nat.id in H by lia.
  apply andb_true_iff. apply H. apply in_seq. lia.
Qed.

Lemma valueInRange_withinChart (t : EventType) (v : number) :
  valueInRange t v -> withinChart v = true.
Proof.
  destruct t; cbn [valueInRange]; intros [k [Hk ->]];
    apply smallValues_withinChart; lia.
Qed.

Lemma withinChart_spec (v : number) :
  withinChart v = true ->
  notNaN v /\ SFleb (JS.ofZ 0) v = true /\ SFleb v (JS.ofZ 999) = true.
Proof.
  unfold withinChart, notNaN. intros H.
  apply andb_true_iff in H. destruct H as [H1 H2].
  apply andb_true_iff in H2. destruct H2 as [H2 H3].
  split; [|split; assumption].
  destruct (JS.isNaN v); [discriminate | reflexivity].
Qed.

(** The statistics of a bucket whose values lie on the scale. *)
Lemma summarize_onScale (k : BucketKey) (values : list number) :
  values <> [] ->
  Forall (fun v => withinChart v = true) values ->
  statisticsOnScale (summarize (k, values)).
Proof.
  intros Hne Hall.
  assert (Hnn : Forall notNaN values).
  { apply Forall_forall. intros v Hv. rewrite Forall_forall in Hall.
    apply (withinChart_spec v (Hall v Hv)). }
  destruct (summarize_fields k values Hne)
    as [Hc [Hn [_ [_ [Hmin [Hmax [i [_ [Hlt Hp]]]]]]]]].
  set (sorted := JS.Array_sort JS.subSign values) in *.
  assert (Hlen : List.length sorted = List.length values)
    by apply Array_sort_length.
  assert (Hmem : forall j, (j < List.length sorted)%nat ->
                           withinChart (nth j sorted S754_nan) = true).
  { intros j Hj. rewrite Forall_forall in Hall. apply Hall.
    apply (proj1 (Array_sort_In JS.subSign values _)). apply nth_In. exact Hj. }
  unfold statisticsOnScale. rewrite Hc, Hmin, Hmax, Hp.
  split; [exact Hn|].
  split; [apply (withinChart_spec _ (Hmem 0%nat ltac:(lia)))|].
  split; [apply sorted_values_bounds; [exact Hnn | lia]|].
  split; [apply sorted_values_bounds; [exact Hnn | lia]|].
  apply (withinChart_spec _ (Hmem (List.length sorted - 1)%nat ltac:(lia))).
Qed.

(** X23.  Whatever is generated, filtered and then aggregated with a
    positive bucket size, every bucket has at least one event and
    statistics on the scale of the generated values: 0 <= min <= p95 <= max
    <= 999, none of them [NaN]. *)
Theorem generated_data_statistics_on_scale
  (count startTime endTime w : Z) (clock : nat -> Z) (f : FilterState.t) :
  0 <= count < 2 ^ 32 -> 0 < w ->
  exists events posts,
    generateEvents count startTime endTime clock = JS.Normal (events, posts)
    /\ Forall statisticsOnScale (aggregateEvents (filterEvents events f) w).
Proof.
  intros Hc Hw.
  destruct (generateEvents_shape count startTime endTime clock
              (fun e => withinChart (TelemetryEvent.value e) = true))
    as [events [posts [E Hall]]]; [|exact Hc|].
  - intros i now r.
    apply (valueInRange_withinChart
             (TelemetryEvent.eventType
                (fst (generateEvent i startTime (endTime - startTime) now r)))).
    apply (generateEvent_shape i startTime (endTime - startTime) now r).
  - exists events, posts. split; [exact E|].
    apply Forall_forall. intros b Hb.
    apply aggregateEvents_In in Hb. destruct Hb as [k [values [Hin ->]]].
    apply groupValues_entries in Hin. destruct Hin as [-> Hne].
    apply summarize_onScale; [exact Hne|].
    apply Forall_forall. intros v Hv. unfold valuesAt in Hv.
    apply in_map_iff in Hv. destruct Hv as [e [<- He]].
    apply filter_In in He. destruct He as [He _].
    unfold filterEvents in He. apply filter_In in He. destruct He as [He _].
    rewrite Forall_forall in Hall. apply Hall. exact He.
Qed.

Lemma generated_data_statistics_sample :
  0 <= 3 < 2 ^ 32 /\ 0 < 1000
  /\ exists events posts,
       generateEvents 3 0 10000 (frozenClock 7) = JS.Normal (events, posts)
       /\ Forall statisticsOnScale
                 (aggregateEvents (filterEvents events wideFilter) 1000).
Proof.
  assert (H1 : 0 <= 3 < 2 ^ 32) by lia.
  assert (H2 : 0 < 1000) by lia.
  split; [exact H1|]. split; [exact H2|].
  apply (generated_data_statistics_on_scale 3 0 10000 1000 (frozenClock 7)
           wideFilter H1 H2).
Defined.

(* ================================================================== *)
(** * Rounding to nearest *)
(* ================================================================== *)

Lemma loc_of_shr_record_of_loc (m : Z) (l : location) :
  loc_of_shr_record (shr_record_of_loc m l) = l.
Proof. destruct l as [|[| |]]; reflexivity. Qed.

Lemma shr_m_record_of_loc (m : Z) (l : location) :
  shr_m (shr_record_of_loc m l) = m.
Proof. destruct l as [|[| |]]; reflexivity. Qed.

(** One shift keeps the location of the value, for twice the divisor. *)
Lemma shr_1_Located (mrs : shr_record) (N D : Z) :
  0 <= shr_m mrs -> 0 < D -> Located mrs N D ->
  Located (shr_1 mrs) N (2 * D).
Proof.
  intros Hm HD [rho [HN [Hr Hl]]].
  destruct mrs as [m r s]. cbn [shr_m] in *.
  assert (Hrs : (r = false /\ s = false /\ rho = 0)
                \/ (r = false /\ s = true /\ 0 < rho /\ 2 * rho < D)
                \/ (r = true /\ s = false /\ 2 * rho = D)
                \/ (r = true /\ s = true /\ D < 2 * rho)).
  { unfold locationOf in Hl.
    destruct (Z.eqb_spec rho 0) as [E | E];
      [|destruct (Z.compare_spec (2 * rho) D) as [C | C | C]];
      destruct r, s; cbn in Hl; try discriminate Hl; lia. }
  clear Hl.
  destruct m as [|[p|p|]|p]; try lia; cbn [shr_1 shr_m].
  - (* m = 0 *)
    exists rho. cbn [shr_m loc_of_shr_record]. split; [lia|]. split; [lia|].
    unfold locationOf.
    destruct Hrs as [[-> [-> H]] | [[-> [-> H]] | [[-> [-> H]] | [-> [-> H]]]]];
      cbn [orb loc_of_shr_record];
      destruct (Z.eqb_spec rho 0); try lia; try reflexivity;
      destruct (Z.compare_spec (2 * rho) (2 * D)); try lia; reflexivity.
  - (* m = 2p + 1 *)
    exists (D + rho). cbn [shr_m]. split; [lia|]. split; [lia|].
    unfold locationOf.
    destruct Hrs as [[-> [-> H]] | [[-> [-> H]] | [[-> [-> H]] | [-> [-> H]]]]];
      cbn [orb loc_of_shr_record];
      destruct (Z.eqb_spec (D + rho) 0); try lia;
      destruct (Z.compare_spec (2 * (D + rho)) (2 * D)); try lia; reflexivity.
  - (* m = 2p *)
    exists rho. cbn [shr_m]. split; [lia|]. split; [lia|].
    unfold locationOf.
    destruct Hrs as [[-> [-> H]] | [[-> [-> H]] | [[-> [-> H]] | [-> [-> H]]]]];
      cbn [orb loc_of_shr_record];
      destruct (Z.eqb_spec rho 0); try lia; try reflexivity;
      destruct (Z.compare_spec (2 * rho) (2 * D)); try lia; reflexivity.
  - (* m = 1 *)
    exists (D + rho). cbn [shr_m]. split; [lia|]. split; [lia|].
    unfold locationOf.
    destruct Hrs as [[-> [-> H]] | [[-> [-> H]] | [[-> [-> H]] | [-> [-> H]]]]];
      cbn [orb loc_of_shr_record];
      destruct (Z.eqb_spec (D + rho) 0); try lia;
      destruct (Z.compare_spec (2 * (D + rho)) (2 * D)); try lia; reflexivity.
Qed.

Lemma shr_1_nonneg (mrs : shr_record) : 0 <= shr_m mrs -> 0 <= shr_m (shr_1 mrs).
Proof.
  intros H. rewrite shr_1_m by exact H. apply Z.div_pos; lia.
Qed.

Lemma iter_pos_shr_nonneg (k : positive) (mrs : shr_record) :
  0 <= shr_m mrs -> 0 <= shr_m (iter_pos shr_1 k mrs).
Proof.
  intros H. rewrite iter_pos_shr_m by exact H.
  apply Z.div_pos; [exact H|]. apply Z.pow_pos_nonneg; lia.
Qed.

Lemma iter_pos_Located (k : positive) (mrs : shr_record) (N D : Z) :
  0 <= shr_m mrs -> 0 < D -> Located mrs N D ->
  Located (iter_pos shr_1 k mrs) N (2 ^ Zpos k * D).
Proof.
  revert mrs D. induction k as [k IH | k IH |]; intros mrs D Hm HD HL;
    cbn [iter_pos].
  - replace (2 ^ Zpos k~1 * D) with (2 ^ Zpos k * (2 ^ Zpos k * (2 * D))).
    + assert (Hp : 0 < 2 ^ Zpos k) by (apply Z.pow_pos_nonneg; lia).
      apply IH; [apply iter_pos_shr_nonneg, shr_1_nonneg, Hm | nia |].
      apply IH; [apply shr_1_nonneg, Hm | lia |].
      apply shr_1_Located; assumption.
    + replace (Zpos k~1) with (1 + Zpos k + Zpos k) by lia.
      rewrite !Z.pow_add_r by lia. change (2 ^ 1) with 2. lia.
  - replace (2 ^ Zpos k~0 * D) with (2 ^ Zpos k * (2 ^ Zpos k * D)).
    + assert (Hp : 0 < 2 ^ Zpos k) by (apply Z.pow_pos_nonneg; lia).
      apply IH; [apply iter_pos_shr_nonneg, Hm | nia |].
      apply IH; assumption.
    + replace (Zpos k~0) with (Zpos k + Zpos k) by lia.
      rewrite Z.pow_add_r by lia. lia.
  - change (2 ^ 1) with 2. apply shr_1_Located; assumption.
Qed.

(** Rounding a located value: the integer nearest to [N / D]. *)
Lemma round_nearest_even_Located (mrs : shr_record) (N D : Z) :
  0 < D -> Located mrs N D ->
  let R := round_nearest_even (shr_m mrs) (loc_of_shr_record mrs) in
  2 * Z.abs (R * D - N) <= D
  /\ shr_m mrs <= R <= shr_m mrs + 1
  /\ (N = shr_m mrs * D -> R = shr_m mrs).
Proof.
  intros HD [rho [HN [Hr Hl]]] R. subst R. rewrite Hl. unfold locationOf.
  destruct (Z.eqb_spec rho 0) as [E | E]; cbn [round_nearest_even].
  - split; [|split]; lia.
  - destruct (Z.compare_spec (2 * rho) D) as [C | C | C];
      cbn [round_nearest_even]; try destruct (Z.even (shr_m mrs));
      (split; [|split]); try lia; intros; nia.
Qed.

(** The location the division computes for a remainder. *)
Lemma new_location_Located (D q r : Z) :
  0 < D -> 0 <= r < D ->
  Located (shr_record_of_loc q (new_location D r)) (q * D + r) D.
Proof.
  intros HD Hr. exists r. rewrite shr_m_record_of_loc.
  split; [reflexivity|]. split; [exact Hr|].
  rewrite loc_of_shr_record_of_loc.
  unfold new_location, new_location_even, new_location_odd, locationOf.
  destruct (Z.even D) eqn:Ev; destruct (Z.eqb_spec r 0); try reflexivity.
  f_equal.
  assert (Hodd : Z.odd D = true) by (rewrite <- Z.negb_even, Ev; reflexivity).
  apply Z.odd_spec in Hodd. destruct Hodd as [h Hh].
  destruct (Z.compare_spec (2 * r + 1) D);
    destruct (Z.compare_spec (2 * r) D); try reflexivity; lia.
Qed.

Lemma shr_fexp_Located (m e : Z) (l : location) (N D : Z) :
  0 <= m -> 0 < D -> Located (shr_record_of_loc m l) N D ->
  let k := Z.max 0 (fexp JS.prec JS.emax (Zdigits2 m + e) - e) in
  exists mrs,
    shr_fexp JS.prec JS.emax m e l = (mrs, e + k)
    /\ shr_m mrs = m / 2 ^ k
    /\ Located mrs N (2 ^ k * D).
Proof.
  intros Hm HD HL k. subst k. unfold shr_fexp, shr.
  pose proof (shr_m_record_of_loc m l) as Hrec.
  destruct (fexp JS.prec JS.emax (Zdigits2 m + e) - e) as [|p|p].
  - exists (shr_record_of_loc m l). rewrite Z.max_l by lia.
    split; [f_equal; lia|].
    rewrite Hrec, Z.pow_0_r, Z.div_1_r, Z.mul_1_l. split; [reflexivity|exact HL].
  - exists (iter_pos shr_1 p (shr_record_of_loc m l)).
    rewrite Z.max_r by lia. split; [reflexivity|]. split.
    + rewrite iter_pos_shr_m by (rewrite Hrec; exact Hm).
      rewrite Hrec. reflexivity.
    + apply iter_pos_Located; [rewrite Hrec; exact Hm | exact HD | exact HL].
  - exists (shr_record_of_loc m l). rewrite Z.max_l by lia.
    split; [f_equal; lia|].
    rewrite Hrec, Z.pow_0_r, Z.div_1_r, Z.mul_1_l. split; [reflexivity|exact HL].
Qed.

(** Rounding returns the number nearest to the value [N / D * 2^E] it is
    given as the mantissa [M = N / D] (integer part) and the location of
    the rest: at the exponent [e1] the format gives the value, its mantissa
    [m1] is within half a unit of [N / (D * 2^(e1 - E))]. *)
Lemma binary_round_aux_nearest (s : bool) (M E : Z) (l : location) (N D : Z) :
  0 <= M -> 0 < D -> Located (shr_record_of_loc M l) N D ->
  let e1 := Z.max E (fexp JS.prec JS.emax (Zdigits2 M + E)) in
  let T := 2 ^ (e1 - E) in
  exists m1,
    0 <= m1 <= 2 ^ 53
    /\ M / T <= m1 <= M / T + 1
    /\ 2 * Z.abs (m1 * (T * D) - N) <= T * D
    /\ (N = M / T * (T * D) -> m1 = M / T)
    /\ binary_round_aux JS.prec JS.emax s M E l = roundResult s m1 e1.
Proof.
  intros HM HD HL e1 T. unfold binary_round_aux.
  destruct (shr_fexp_Located M E l N D HM HD HL) as [mrs1 [H1 [Hm1 HL1]]].
  cbv zeta in H1, Hm1, HL1. rewrite fexp_eq in H1, Hm1, HL1.
  assert (He1 : e1 = Z.max E (Z.max (Zdigits2 M + E - 53) (-1074)))
    by reflexivity.
  clearbody e1.
  set (dM := Zdigits2 M) in *.
  set (k1 := Z.max 0 (Z.max (dM + E - 53) (-1074) - E)) in *.
  assert (Hk1 : e1 - E = k1) by (unfold k1; lia).
  assert (HT : T = 2 ^ k1) by (unfold T; rewrite Hk1; reflexivity).
  clearbody T. subst T.
  rewrite H1.
  assert (Hk1nn : 0 <= k1) by lia.
  assert (HA : 0 < 2 ^ k1) by (apply Z.pow_pos_nonneg; lia).
  assert (HAD : 0 < 2 ^ k1 * D) by nia.
  destruct (round_nearest_even_Located mrs1 N (2 ^ k1 * D) HAD HL1)
    as [Hnear [Hr Hex]].
  set (m1 := round_nearest_even (shr_m mrs1) (loc_of_shr_record mrs1)) in *.
  rewrite Hm1 in Hr, Hex.
  assert (Hq1 : 0 <= M / 2 ^ k1) by (apply Z.div_pos; lia).
  assert (HMlt : M < 2 ^ dM) by (apply Zdigits2_gt; exact HM).
  pose proof (Zdigits2_nonneg M) as HdM. fold dM in HdM.
  assert (Hm1le : m1 <= 2 ^ 53).
  { destruct (Z.eq_dec k1 0) as [E0 | E0].
    - assert (Hd : dM <= 53) by lia.
      assert (M < 2 ^ 53)
        by (apply (Z.lt_le_trans _ _ _ HMlt); apply Z.pow_le_mono_r; lia).
      rewrite E0, Z.pow_0_r, Z.div_1_r in Hr. lia.
    - assert (Hd : dM <= 53 + k1) by lia.
      assert (Hlt : M / 2 ^ k1 < 2 ^ 53).
      { apply Z.div_lt_upper_bound; [exact HA|].
        rewrite <- Z.pow_add_r by lia.
        apply (Z.lt_le_trans _ _ _ HMlt). apply Z.pow_le_mono_r; lia. }
      lia. }
  assert (Hm1nn : 0 <= m1) by lia.
  exists m1. split; [lia|]. split; [exact Hr|]. split; [exact Hnear|].
  split; [exact Hex|].
  assert (He1' : E + k1 = e1) by lia. rewrite He1'.
  assert (Hlow : -1074 <= e1) by lia.
  unfold shr_fexp. rewrite fexp_eq.
  destruct (Z.eq_dec m1 (2 ^ 53)) as [Etop | Etop].
  - rewrite Etop. change (Zdigits2 (2 ^ 53)) with 54.
    replace (Z.max (54 + e1 - 53) (-1074) - e1) with 1 by lia.
    cbn [shr shr_record_of_loc iter_pos shr_1 shr_m].
    change (2 ^ 53) with 9007199254740992. cbn [roundResult].
    change (9007199254740992 =? 9007199254740992) with true. cbv iota.
    change (JS.emax - JS.prec) with 971. reflexivity.
  - assert (Hd1 : Zdigits2 m1 <= 53) by (apply Zdigits2_le; lia).
    pose proof (Zdigits2_nonneg m1) as Hd1nn.
    assert (Hz : Z.max (Zdigits2 m1 + e1 - 53) (-1074) - e1 <= 0) by lia.
    assert (Hshr : shr (shr_record_of_loc m1 loc_Exact) e1
                       (Z.max (Zdigits2 m1 + e1 - 53) (-1074) - e1)
                   = (shr_record_of_loc m1 loc_Exact, e1)).
    { unfold shr.
      destruct (Z.max (Zdigits2 m1 + e1 - 53) (-1074) - e1); try reflexivity.
      lia. }
    rewrite Hshr. cbn [shr_record_of_loc shr_m].
    change (JS.emax - JS.prec) with 971.
    destruct m1 as [|p|p]; [reflexivity | | reflexivity].
    cbn [roundResult]. change (2 ^ 53) with 9007199254740992 in Etop.
    destruct (Z.eqb_spec (Zpos p) 9007199254740992); [contradiction|].
    reflexivity.
Qed.

(* ================================================================== *)
(** * Signed integers as binary64 numbers *)
(* ================================================================== *)

Lemma ofZ_neg (p : positive) :
  (digits2_pos p < 53)%positive -> JS.ofZ (Zneg p) = intNumber true p.
Proof.
  intros Hd. unfold JS.ofZ, binary_normalize, binary_round, intNumber.
  rewrite fexp_normal by lia.
  unfold shl_align.
  replace (Zpos (digits2_pos p) + 0 - 53 - 0)
    with (Zneg (53 - digits2_pos p)) by lia.
  apply binary_round_aux_canonical.
  - rewrite digits2_pos_iter_xO. lia.
  - lia.
Qed.

Lemma ofZ_intNumber (z : Z) :
  z <> 0 -> Z.abs z < 2 ^ 52 ->
  JS.ofZ z = intNumber (z <? 0) (Z.to_pos (Z.abs z)).
Proof.
  intros Hz Hb. destruct z as [|p|p]; [contradiction | |].
  - cbn [Z.abs Z.to_pos Z.ltb Z.compare].
    apply ofZ_pos.
    pose proof (digits2_pos_bound p 52 ltac:(lia) Hb). lia.
  - cbn [Z.abs Z.to_pos Z.ltb Z.compare].
    apply ofZ_neg.
    pose proof (digits2_pos_bound p 52 ltac:(lia) Hb). lia.
Qed.

Lemma toZ_intNumber (s : bool) (p : positive) :
  (digits2_pos p < 53)%positive ->
  JS.toZ (intNumber s p) = cond_Zopp s (Zpos p).
Proof.
  intros Hd. unfold JS.toZ, intNumber.
  destruct (Z.leb_spec 0 (Zpos (digits2_pos p) - 53)); [lia|].
  replace (- (Zpos (digits2_pos p) - 53)) with (Zpos (53 - digits2_pos p))
    by lia.
  assert (Hp : 2 ^ Zpos (53 - digits2_pos p) <> 0)
    by (apply Z.pow_nonzero; lia).
  destruct s; cbn [cond_Zopp]; rewrite iter_xO_value.
  - rewrite <- Z.mul_opp_l. apply Z.div_mul. exact Hp.
  - apply Z.div_mul. exact Hp.
Qed.

Lemma binary_round_aux_sign (s : bool) (M E : Z) (l : location) :
  binary_round_aux JS.prec JS.emax s M E l
  = withSign s (binary_round_aux JS.prec JS.emax false M E l).
Proof.
  unfold binary_round_aux.
  destruct (shr_fexp JS.prec JS.emax M E l) as [mrs1 e1].
  destruct (shr_fexp JS.prec JS.emax
              (round_nearest_even (shr_m mrs1) (loc_of_shr_record mrs1)) e1
              loc_Exact) as [mrs2 e2].
  destruct (shr_m mrs2); [reflexivity | | reflexivity].
  destruct (e2 <=? JS.emax - JS.prec); reflexivity.
Qed.

(** The product of two integers, when it has fewer than 53 digits. *)
Lemma mul_intNumber (sx sy : bool) (p q : positive) :
  Zpos p * Zpos q < 2 ^ 52 ->
  JS.mul (intNumber sx p) (intNumber sy q)
  = intNumber (xorb sx sy) (p * q)%positive.
Proof.
  intros Hb.
  assert (Hpq : (digits2_pos (p * q) < 53)%positive).
  { pose proof (digits2_pos_bound (p * q)%positive 52 ltac:(lia)) as H.
    rewrite Pos2Z.inj_mul in H. specialize (H Hb). lia. }
  assert (Hp : (digits2_pos p < 53)%positive).
  { pose proof (digits2_pos_bound p 52 ltac:(lia)) as H.
    assert (Zpos p < 2 ^ 52) by nia. specialize (H H0). lia. }
  assert (Hq : (digits2_pos q < 53)%positive).
  { pose proof (digits2_pos_bound q 52 ltac:(lia)) as H.
    assert (Zpos q < 2 ^ 52) by nia. specialize (H H0). lia. }
  pose proof (mul_exact p q (Zpos (digits2_pos p) - 53)
                (Zpos (digits2_pos q) - 53) Hp Hq Hpq ltac:(lia)) as H.
  unfold JS.mul, SFmul in H. cbn [xorb] in H.
  unfold intNumber, JS.mul, SFmul.
  rewrite binary_round_aux_sign, H. cbn [withSign]. f_equal. lia.
Qed.

(* ================================================================== *)
(** * The quotient of two integers *)
(* ================================================================== *)

Lemma abs_scaled (x y z c : Z) :
  0 < c -> 2 * Z.abs (x * c - y * c) <= z * c -> 2 * Z.abs (x - y) <= z.
Proof.
  intros Hc H. rewrite <- Z.mul_sub_distr_r, Z.abs_mul, (Z.abs_eq c) in H by lia.
  rewrite Z.mul_assoc in H. apply Z.mul_le_mono_pos_r in H; assumption.
Qed.

(** A positive integer of [d] digits lies in [2^(d-1), 2^d). *)
Lemma digits2_pos_range (p : positive) :
  2 ^ (Zpos (digits2_pos p) - 1) <= Zpos p < 2 ^ Zpos (digits2_pos p).
Proof.
  rewrite digits2_pos_size.
  pose proof (Pos.size_gt p) as G. pose proof (Pos.size_le p) as L.
  apply Pos2Z.pos_lt_pos in G. apply Pos2Z.pos_le_pos in L.
  rewrite Pos2Z.inj_pow in G, L.
  change (Zpos p~0) with (2 * Zpos p) in L.
  split; [|exact G].
  replace (Zpos (Pos.size p)) with (1 + (Zpos (Pos.size p) - 1)) in L by lia.
  rewrite Z.pow_add_r in L by lia. change (2 ^ 1) with 2 in L. lia.
Qed.

(** The binary64 quotient of two integers below 2^52 lies on the side of
    the exact quotient's floor that makes [Math.floor] exact: with
    [a = n * b + r], its value [m * 2^e] satisfies
    [n <= m * 2^e < n + 1], and [n < m * 2^e] when [r] is not zero. *)
Lemma div_intNumber (sx sy : bool) (p q : positive) :
  Zpos p < 2 ^ 52 -> Zpos q < 2 ^ 52 ->
  exists m e,
    JS.div (intNumber sx p) (intNumber sy q) = S754_finite (xorb sx sy) m e
    /\ e < 0
    /\ Zpos p / Zpos q * 2 ^ (- e) <= Zpos m < (Zpos p / Zpos q + 1) * 2 ^ (- e)
    /\ (Zpos p mod Zpos q <> 0 -> Zpos p / Zpos q * 2 ^ (- e) < Zpos m)
    /\ (Zpos p mod Zpos q = 0 -> Zpos m = Zpos p / Zpos q * 2 ^ (- e)).
Proof.
  intros Hp Hq.
  pose proof (digits2_pos_bound p 52 ltac:(lia) Hp) as Hdp.
  pose proof (digits2_pos_bound q 52 ltac:(lia) Hq) as Hdq.
  pose proof (digits2_pos_range p) as Rp.
  pose proof (digits2_pos_range q) as Rq.
  set (dp := Zpos (digits2_pos p)) in *.
  set (dq := Zpos (digits2_pos q)) in *.
  assert (Hdp1 : 1 <= dp) by (unfold dp; lia).
  assert (Hdq1 : 1 <= dq) by (unfold dq; lia).
  unfold JS.div, SFdiv, intNumber, SFdiv_core_binary.
  cbn [Zdigits2]. rewrite !digits2_pos_iter_xO.
  replace (digits2_pos p + (53 - digits2_pos p))%positive with 53%positive
    by (unfold dp in *; lia).
  replace (digits2_pos q + (53 - digits2_pos q))%positive with 53%positive
    by (unfold dq in *; lia).
  fold dp dq. rewrite fexp_eq.
  replace (Z.min (Z.max (53 + (dp - 53) - (53 + (dq - 53)) - 53) (-1074))
                 (dp - 53 - (dq - 53)))
    with (dp - dq - 53) by lia.
  replace (dp - 53 - (dq - 53) - (dp - dq - 53)) with 53 by lia.
  rewrite Z.shiftl_mul_pow2 by lia.
  rewrite !iter_xO_value.
  replace (Zpos (53 - digits2_pos p)) with (53 - dp) by (unfold dp in *; lia).
  replace (Zpos (53 - digits2_pos q)) with (53 - dq) by (unfold dq in *; lia).
  set (a := Zpos p) in *. set (b := Zpos q) in *.
  set (Sa := 2 ^ (53 - dp)). set (Sb := 2 ^ (53 - dq)).
  assert (HSa : 0 < Sa) by (apply Z.pow_pos_nonneg; lia).
  assert (HSb : 0 < Sb) by (apply Z.pow_pos_nonneg; lia).
  assert (Ha : 0 < a) by (unfold a; lia).
  assert (Hb : 0 < b) by (unfold b; lia).
  assert (Hmx : 2 ^ 52 <= a * Sa < 2 ^ 53).
  { assert (E52 : 2 ^ 52 = 2 ^ (dp - 1) * Sa)
      by (unfold Sa; rewrite <- Z.pow_add_r by lia; f_equal; lia).
    assert (E53 : 2 ^ 53 = 2 ^ dp * Sa)
      by (unfold Sa; rewrite <- Z.pow_add_r by lia; f_equal; lia).
    rewrite E52, E53. clear E52 E53.
    split; [apply Z.mul_le_mono_nonneg_r | apply Z.mul_lt_mono_pos_r]; lia. }
  assert (Hmy : 2 ^ 52 <= b * Sb < 2 ^ 53).
  { assert (E52 : 2 ^ 52 = 2 ^ (dq - 1) * Sb)
      by (unfold Sb; rewrite <- Z.pow_add_r by lia; f_equal; lia).
    assert (E53 : 2 ^ 53 = 2 ^ dq * Sb)
      by (unfold Sb; rewrite <- Z.pow_add_r by lia; f_equal; lia).
    rewrite E52, E53. clear E52 E53.
    split; [apply Z.mul_le_mono_nonneg_r | apply Z.mul_lt_mono_pos_r]; lia. }
  pose proof (Z.div_eucl_eq (a * Sa * 2 ^ 53) (b * Sb) ltac:(lia)) as Heq.
  pose proof (Z.mod_pos_bound (a * Sa * 2 ^ 53) (b * Sb) ltac:(lia)) as Hrem.
  unfold Z.modulo in Hrem.
  destruct (Z.div_eucl (a * Sa * 2 ^ 53) (b * Sb)) as [qq rr].
  assert (Hqq : 2 ^ 52 <= qq < 2 ^ 54).
  { change (2 ^ 54) with (4 * 2 ^ 52). change (2 ^ 53) with (2 * 2 ^ 52) in *.
    set (P := 2 ^ 52) in *. assert (HP : 0 < P) by reflexivity.
    set (A := a * Sa) in *. set (B := b * Sb) in *.
    clearbody P A B. clear - Heq Hrem Hmx Hmy HP.
    split.
    - destruct (Z.le_gt_cases P qq) as [H | H]; [exact H|]. exfalso.
      assert (B * (qq + 1) <= B * P) by (apply Z.mul_le_mono_nonneg_l; lia).
      assert (B * P < 2 * P * P) by (apply Z.mul_lt_mono_pos_r; lia).
      assert (P * (2 * P) <= A * (2 * P))
        by (apply Z.mul_le_mono_nonneg_r; lia).
      lia.
    - destruct (Z.lt_ge_cases qq (4 * P)) as [H | H]; [exact H|]. exfalso.
      assert (B * (4 * P) <= B * qq) by (apply Z.mul_le_mono_nonneg_l; lia).
      assert (P * (4 * P) <= B * (4 * P))
        by (apply Z.mul_le_mono_nonneg_r; lia).
      assert (A * (2 * P) < 2 * P * (2 * P))
        by (apply Z.mul_lt_mono_pos_r; lia).
      lia. }
  assert (HD1 : 0 < b * Sb) by lia.
  pose proof (new_location_Located (b * Sb) qq rr HD1 Hrem) as HL.
  replace (qq * (b * Sb) + rr) with (a * Sa * 2 ^ 53) in HL by lia.
  assert (Hqq0 : 0 <= qq) by lia.
  assert (HD0 : 0 < b * Sb) by lia.
  destruct (binary_round_aux_nearest (xorb sx sy) qq (dp - dq - 53)
              (new_location (b * Sb) rr) _ _ Hqq0 HD0 HL)
    as [m1 [Hm1 [Hlo [Hnear [_ Hres]]]]].
  cbv zeta in Hm1, Hlo, Hnear, Hres. rewrite fexp_eq in Hlo, Hnear, Hres.
  rewrite Hres. clear Hres HL.
  assert (Hd : 53 <= Zdigits2 qq <= 54).
  { split.
    - pose proof (Zdigits2_gt qq ltac:(lia)) as G.
      destruct (Z.le_gt_cases 53 (Zdigits2 qq)) as [H | H]; [exact H|].
      exfalso. pose proof (Zdigits2_nonneg qq).
      assert (2 ^ Zdigits2 qq <= 2 ^ 52) by (apply Z.pow_le_mono_r; lia).
      lia.
    - apply Zdigits2_le; lia. }
  set (k1 := Zdigits2 qq - 53) in *.
  replace (Z.max (dp - dq - 53) (Z.max (Zdigits2 qq + (dp - dq - 53) - 53) (-1074)))
    with (dp - dq - 53 + k1) in * by (unfold k1; lia).
  replace (dp - dq - 53 + k1 - (dp - dq - 53)) with k1 in * by lia.
  assert (Hk1 : 0 <= k1 <= 1) by (unfold k1; lia).
  clearbody k1. clear Hd.
  set (e1 := dp - dq - 53 + k1) in *.
  set (T' := 2 ^ (- e1)).
  assert (HT : 0 < 2 ^ k1) by (apply Z.pow_pos_nonneg; lia).
  assert (HT' : b < T').
  { unfold T', e1.
    replace (- (dp - dq - 53 + k1)) with (dq + (53 - dp - k1)) by lia.
    rewrite Z.pow_add_r by lia.
    assert (0 < 2 ^ (53 - dp - k1)) by (apply Z.pow_pos_nonneg; lia).
    nia. }
  assert (Hscale : Sa * 2 ^ 53 = T' * (2 ^ k1 * Sb)).
  { unfold Sa, Sb, T', e1. rewrite <- !Z.pow_add_r by lia. f_equal. lia. }
  assert (Hnear' : 2 * Z.abs (m1 * b - a * T') <= b).
  { apply (abs_scaled _ _ _ (2 ^ k1 * Sb)); [nia|].
    replace (m1 * b * (2 ^ k1 * Sb)) with (m1 * (2 ^ k1 * (b * Sb))) by ring.
    replace (a * T' * (2 ^ k1 * Sb)) with (a * Sa * 2 ^ 53)
      by (rewrite <- Z.mul_assoc, Hscale; ring).
    replace (b * (2 ^ k1 * Sb)) with (2 ^ k1 * (b * Sb)) by ring.
    exact Hnear. }
  clear Hnear Hscale Heq Hrem.
  assert (Hm1pos : 0 < m1).
  { assert (2 ^ 51 <= qq / 2 ^ k1); [|lia].
    apply Z.div_le_lower_bound; [exact HT|].
    assert (2 ^ k1 <= 2 ^ 1) by (apply Z.pow_le_mono_r; lia).
    change (2 ^ 1) with 2 in *. change (2 ^ 52) with (2 * 2 ^ 51) in Hqq.
    nia. }
  pose proof (Z.div_mod a b ltac:(lia)) as Hab.
  pose proof (Z.mod_pos_bound a b Hb) as Hr.
  assert (Hn : 0 <= a / b) by (apply Z.div_pos; lia).
  set (n := a / b) in *. set (r := a mod b) in *.
  assert (Hbounds : n * T' <= m1 < (n + 1) * T' /\ (r <> 0 -> n * T' < m1)
                    /\ (r = 0 -> m1 = n * T')).
  { clearbody n r T'. clear Hmx Hmy Hqq Hlo Rp Rq.
    assert (Hcase : m1 * b - a * T' <= 0 \/ 0 <= m1 * b - a * T') by lia.
    destruct Hcase as [C | C].
    - rewrite Z.abs_neq in Hnear' by exact C.
      split; [split|split]; [nia | nia | intros; nia | intros; nia].
    - rewrite Z.abs_eq in Hnear' by exact C.
      split; [split|split]; [nia | nia | intros; nia | intros; nia]. }
  destruct Hbounds as [Hb1 [Hb2 Hb3]].
  assert (Hn1 : n + 1 <= 2 ^ 52).
  { assert (Hna : n <= a).
    { unfold n. apply Z.div_le_upper_bound; [exact Hb|].
      clear - Ha Hb. nia. }
    clear - Hna Hp. lia. }
  assert (He1 : e1 < 0) by (unfold e1; lia).
  destruct m1 as [|pm|pm]; [lia | | lia].
  cbn [roundResult].
  destruct (Z.eqb_spec (Zpos pm) 9007199254740992) as [Etop | Etop].
  - (* the rounded mantissa is 2^53 *)
    assert (HT2 : 2 < T').
    { change 9007199254740992 with (2 * 2 ^ 52) in Etop.
      assert ((n + 1) * T' <= 2 ^ 52 * T')
        by (apply Z.mul_le_mono_nonneg_r; lia).
      lia. }
    assert (He2 : e1 + 1 < 0).
    { destruct (Z.lt_ge_cases (e1 + 1) 0) as [H | H]; [exact H|].
      exfalso. assert (E : e1 = -1) by lia.
      unfold T' in HT2. rewrite E in HT2. change (2 ^ (- -1)) with 2 in HT2.
      lia. }
    destruct (Z.leb_spec (e1 + 1) 971); [|lia].
    exists 4503599627370496%positive, (e1 + 1).
    split; [reflexivity|]. split; [exact He2|].
    assert (HTT : T' = 2 * 2 ^ (- (e1 + 1))).
    { unfold T'. replace (- e1) with (1 + (- (e1 + 1))) by lia.
      rewrite Z.pow_add_r by lia. reflexivity. }
    set (U := 2 ^ (- (e1 + 1))) in *.
    rewrite Etop in Hb1, Hb2, Hb3.
    change 9007199254740992 with (2 * 4503599627370496) in Hb1, Hb2, Hb3.
    split; [split|split];
      [nia | nia | intros Hrne; specialize (Hb2 Hrne); nia
       | intros Hrne; specialize (Hb3 Hrne); nia].
  - destruct (Z.leb_spec e1 971); [|lia].
    exists pm, e1. split; [reflexivity|]. split; [exact He1|].
    fold T'. split; [assumption|]. split; assumption.
Qed.

(* ================================================================== *)
(** * The bucket key in binary64 *)
(* ================================================================== *)

(** Flooring a signed quotient from bounds on its magnitude. *)
Lemma signed_floor (s1 s2 : bool) (a b m T : Z) :
  0 < a -> 0 < b -> 0 < T ->
  a / b * T <= m < (a / b + 1) * T ->
  (a mod b <> 0 -> a / b * T < m) ->
  (a mod b = 0 -> m = a / b * T) ->
  cond_Zopp (xorb s1 s2) m / T = cond_Zopp s1 a / cond_Zopp s2 b.
Proof.
  intros Ha Hb HT Hm Hnz Hz.
  assert (Hbne : b <> 0) by lia.
  assert (Hpos : m / T = a / b).
  { symmetry. apply (Z.div_unique m T (a / b) (m - T * (a / b))); lia. }
  assert (Hneg : - m / T = - a / b).
  { destruct (Z.eq_dec (a mod b) 0) as [E | E].
    - rewrite (Hz E). rewrite <- Z.mul_opp_l, Z.div_mul by lia.
      rewrite (Z.div_opp_l_z a b Hbne E). reflexivity.
    - rewrite (Z.div_opp_l_nz a b Hbne E).
      symmetry. apply (Z.div_unique (- m) T (- (a / b) - 1)
                         ((a / b + 1) * T - m)); [|lia].
      left. specialize (Hnz E). lia. }
  destruct s1, s2; cbn [xorb cond_Zopp].
  - rewrite Z.div_opp_opp by lia. exact Hpos.
  - exact Hneg.
  - rewrite Hneg.
    destruct (Z.eq_dec (a mod b) 0) as [E | E].
    + rewrite (Z.div_opp_l_z a b Hbne E), (Z.div_opp_r_z a b Hbne E).
      reflexivity.
    + rewrite (Z.div_opp_l_nz a b Hbne E), (Z.div_opp_r_nz a b Hbne E).
      reflexivity.
  - exact Hpos.
Qed.

(** [Math.floor] of the binary64 quotient of two integers below 2^52 is
    the floor of their exact quotient. *)
Lemma floor_div_intNumber (sx sy : bool) (p q : positive) :
  Zpos p < 2 ^ 52 -> Zpos q < 2 ^ 52 ->
  JS.Math_floor (JS.div (intNumber sx p) (intNumber sy q))
  = (if cond_Zopp sx (Zpos p) / cond_Zopp sy (Zpos q) =? 0
     then S754_zero (xorb sx sy)
     else JS.ofZ (cond_Zopp sx (Zpos p) / cond_Zopp sy (Zpos q))).
Proof.
  intros Hp Hq.
  destruct (div_intNumber sx sy p q Hp Hq) as [m [e [-> [He [Hm [Hnz Hz]]]]]].
  unfold JS.Math_floor. destruct (Z.leb_spec 0 e); [lia|].
  assert (HT : 0 < 2 ^ (- e)) by (apply Z.pow_pos_nonneg; lia).
  rewrite (signed_floor sx sy (Zpos p) (Zpos q) (Zpos m) (2 ^ (- e)));
    try assumption; try reflexivity.
Qed.

(** The floor of a quotient is at most one more than the quotient of the
    magnitudes. *)
Lemma floor_quotient_magnitude (t w : Z) :
  w <> 0 -> Z.abs (t / w * w) <= Z.abs t + Z.abs w.
Proof.
  intros Hw.
  pose proof (Z.div_mod t w Hw) as Hd.
  destruct (Z.lt_ge_cases 0 w) as [Hp | Hn].
  - pose proof (Z.mod_pos_bound t w Hp). lia.
  - pose proof (Z.mod_neg_bound t w ltac:(lia)). lia.
Qed.

(** The source's bucket key, computed in binary64 operation by operation,
    is the integer [bucketKey] computes, as long as the timestamp and the
    bucket size are below 2^52 in magnitude together. *)
Lemma bucketKeyBinary64_exact (timestamp bucketSize : Z) :
  bucketSize <> 0 -> Z.abs timestamp + Z.abs bucketSize < 2 ^ 52 ->
  readKey (bucketKeyBinary64 timestamp bucketSize)
  = bucketKey timestamp bucketSize
  /\ (0 < bucketSize ->
      bucketKeyBinary64 timestamp bucketSize
      = JS.ofZ (timestamp / bucketSize * bucketSize)).
Proof.
  intros Hw Hb. unfold bucketKey, bucketKeyBinary64.
  destruct (Z.eqb_spec bucketSize 0) as [E | _]; [contradiction|].
  pose proof (floor_quotient_magnitude timestamp bucketSize Hw) as Hmag.
  rewrite (ofZ_intNumber bucketSize Hw) by lia.
  destruct (Z.eq_dec timestamp 0) as [-> | Ht].
  - change (JS.ofZ 0) with (S754_zero false).
    rewrite Z.div_0_l by exact Hw. split; [reflexivity|].
    intros Hpos. destruct (Z.ltb_spec bucketSize 0); [lia|]. reflexivity.
  - rewrite (ofZ_intNumber timestamp Ht) by lia.
    set (st := timestamp <? 0). set (sw := bucketSize <? 0).
    set (p := Z.to_pos (Z.abs timestamp)). set (q := Z.to_pos (Z.abs bucketSize)).
    assert (Hp : Zpos p = Z.abs timestamp) by (unfold p; lia).
    assert (Hq : Zpos q = Z.abs bucketSize) by (unfold q; lia).
    assert (Et : cond_Zopp st (Zpos p) = timestamp).
    { rewrite Hp. unfold st. destruct (Z.ltb_spec timestamp 0);
        cbn [cond_Zopp]; lia. }
    assert (Ew : cond_Zopp sw (Zpos q) = bucketSize).
    { rewrite Hq. unfold sw. destruct (Z.ltb_spec bucketSize 0);
        cbn [cond_Zopp]; lia. }
    rewrite floor_div_intNumber by lia. rewrite Et, Ew.
    set (z := timestamp / bucketSize) in *.
    destruct (Z.eqb_spec z 0) as [Ez | Ez].
    + rewrite Ez. split; [reflexivity|].
      intros Hpos. unfold sw. destruct (Z.ltb_spec bucketSize 0); [lia|].
      unfold st. destruct (Z.ltb_spec timestamp 0) as [Hneg | _];
        [|reflexivity].
      exfalso.
      assert (Hz0 : z < 0)
        by (apply Z.div_lt_upper_bound; [exact Hpos | lia]).
      lia.
    + assert (Hzb : Z.abs z * Z.abs bucketSize < 2 ^ 52)
        by (rewrite <- Z.abs_mul; lia).
      assert (Hz1 : Z.abs z < 2 ^ 52) by nia.
      rewrite (ofZ_intNumber z Ez Hz1).
      rewrite mul_intNumber by (rewrite Hq; lia).
      assert (Hd : (digits2_pos (Z.to_pos (Z.abs z) * q) < 53)%positive).
      { pose proof (digits2_pos_bound (Z.to_pos (Z.abs z) * q)%positive 52
                      ltac:(lia)) as H.
        rewrite Pos2Z.inj_mul, Hq in H.
        assert (H1 : Zpos (Z.to_pos (Z.abs z)) = Z.abs z) by lia.
        rewrite H1 in H. specialize (H Hzb). lia. }
      assert (Hval : cond_Zopp (xorb (z <? 0) sw)
                       (Zpos (Z.to_pos (Z.abs z) * q)) = z * bucketSize).
      { rewrite Pos2Z.inj_mul, Hq.
        replace (Zpos (Z.to_pos (Z.abs z))) with (Z.abs z) by lia.
        unfold sw.
        destruct (Z.ltb_spec z 0), (Z.ltb_spec bucketSize 0);
          cbn [xorb cond_Zopp]; nia. }
      split.
      * unfold readKey. cbn [intNumber JS.isNaN].
        fold (intNumber (xorb (z <? 0) sw) (Z.to_pos (Z.abs z) * q)).
        rewrite toZ_intNumber by exact Hd. rewrite Hval. reflexivity.
      * intros Hpos.
        assert (Hzw : z * bucketSize <> 0) by nia.
        rewrite (ofZ_intNumber (z * bucketSize) Hzw) by lia.
        f_equal.
        -- unfold sw. destruct (Z.ltb_spec z 0), (Z.ltb_spec bucketSize 0),
             (Z.ltb_spec (z * bucketSize) 0); cbn [xorb]; try reflexivity; nia.
        -- rewrite Z.abs_mul. rewrite <- Hq.
           replace (Z.abs z) with (Zpos (Z.to_pos (Z.abs z))) by lia.
           reflexivity.
Qed.

(* ================================================================== *)
(** * The 95% index for every array length *)
(* ================================================================== *)

Lemma literal_95 :
  JS.literal 95 100 = S754_finite false 8556839292003942 (-53).
Proof. vm_compute. reflexivity. Qed.

Lemma Zdigits2_between (x lo hi : Z) :
  0 <= lo -> 2 ^ lo <= x < 2 ^ hi -> lo < Zdigits2 x <= hi.
Proof.
  intros Hlo Hx.
  assert (H0 : 0 < 2 ^ lo) by (apply Z.pow_pos_nonneg; lia).
  assert (Hhi : 0 <= hi).
  { destruct (Z.lt_ge_cases hi 0) as [H | H]; [|exact H].
    rewrite (Z.pow_neg_r 2 hi H) in Hx. lia. }
  split.
  - pose proof (Zdigits2_gt x ltac:(lia)) as G.
    pose proof (Zdigits2_nonneg x).
    destruct (Z.lt_ge_cases lo (Zdigits2 x)) as [H1 | H1]; [exact H1|].
    exfalso.
    assert (2 ^ Zdigits2 x <= 2 ^ lo) by (apply Z.pow_le_mono_r; lia).
    lia.
  - apply Zdigits2_le; lia.
Qed.

(** [Math.floor] of a rounded positive number with a negative exponent, read
    as an integer. *)
Lemma toZ_floor_roundResult (m e : Z) :
  0 <= m <= 2 ^ 53 -> e + 1 < 0 -> m / 2 ^ (- e) < 2 ^ 52 ->
  JS.toZ (JS.Math_floor (roundResult false m e)) = m / 2 ^ (- e).
Proof.
  intros Hm He Hb.
  destruct m as [|p|p]; [reflexivity | | lia].
  cbn [roundResult].
  destruct (Z.eqb_spec (Zpos p) 9007199254740992) as [Etop | Etop].
  - destruct (Z.leb_spec (e + 1) 971); [|lia].
    assert (Hhalf : Zpos p / 2 ^ (- e) = 4503599627370496 / 2 ^ (- (e + 1))).
    { rewrite Etop. change 9007199254740992 with (4503599627370496 * 2).
      replace (- e) with (- (e + 1) + 1) by lia.
      rewrite Z.pow_add_r by lia. change (2 ^ 1) with 2.
      apply Z.div_mul_cancel_r; [|lia].
      apply Z.pow_nonzero; lia. }
    rewrite Hhalf in *. apply toZ_floor; [lia | exact Hb].
  - destruct (Z.leb_spec e 971); [|lia].
    apply toZ_floor; [lia | exact Hb].
Qed.

(** [Math.floor(length * 0.95)] is the floor of [95 * length / 100] for
    every array length: the rounding of [0.95] and of the product never
    crosses an integer. *)
Lemma p95Index_floor (n : Z) :
  0 <= n < 2 ^ 32 -> p95Index n = 95 * n / 100.
Proof.
  intros Hn. destruct n as [|p|p]; [vm_compute; reflexivity | | lia].
  unfold p95Index. rewrite literal_95.
  pose proof (digits2_pos_bound p 32 ltac:(lia) (proj2 Hn)) as Hdp.
  pose proof (digits2_pos_range p) as Rp.
  rewrite ofZ_pos by lia.
  unfold JS.mul, SFmul. cbn [xorb].
  set (dn := Zpos (digits2_pos p)) in *.
  assert (Hdn : 1 <= dn) by (unfold dn; lia).
  set (mx := Pos.iter xO p (53 - digits2_pos p)).
  assert (Hmx : Zpos mx = Zpos p * 2 ^ (53 - dn)).
  { unfold mx. rewrite iter_xO_value. f_equal. f_equal. unfold dn. lia. }
  set (S := 2 ^ (53 - dn)) in *.
  assert (HS : 2 ^ 21 <= S) by (apply Z.pow_le_mono_r; lia).
  assert (HA : 2 ^ 52 <= Zpos mx < 2 ^ 53).
  { rewrite Hmx.
    assert (E52 : 2 ^ 52 = 2 ^ (dn - 1) * S)
      by (unfold S; rewrite <- Z.pow_add_r by lia; f_equal; lia).
    assert (E53 : 2 ^ 53 = 2 ^ dn * S)
      by (unfold S; rewrite <- Z.pow_add_r by lia; f_equal; lia).
    rewrite E52, E53. clear E52 E53.
    split; [apply Z.mul_le_mono_nonneg_r | apply Z.mul_lt_mono_pos_r]; lia. }
  set (M := Zpos (mx * 8556839292003942)).
  assert (HM : M = Zpos mx * 8556839292003942) by reflexivity.
  assert (HMr : 2 ^ 104 <= M < 2 ^ 106).
  { rewrite HM. change (2 ^ 104) with (2 ^ 52 * 2 ^ 52).
    change (2 ^ 106) with (2 ^ 53 * 2 ^ 53).
    change (2 ^ 52) with 4503599627370496 in *.
    change (2 ^ 53) with 9007199254740992 in *. lia. }
  assert (HL : Located (shr_record_of_loc M loc_Exact) M 1).
  { exists 0. cbn [shr_record_of_loc shr_m loc_of_shr_record].
    split; [lia|]. split; [lia|]. reflexivity. }
  assert (HM0 : 0 <= M) by (rewrite HM; lia).
  destruct (binary_round_aux_nearest false M (dn - 53 + -53) loc_Exact M 1
              HM0 ltac:(lia) HL) as [m1 [Hm1 [_ [Hnear [_ Hres]]]]].
  cbv zeta in Hnear, Hres. rewrite fexp_eq in Hnear, Hres.
  rewrite Hres. clear Hres HL.
  pose proof (Zdigits2_between M 104 106 ltac:(lia) HMr) as Hd.
  pose proof (Zdigits2_gt M HM0) as HMlt.
  set (k1 := Zdigits2 M - 53) in *.
  replace (Z.max (dn - 53 + -53) (Z.max (Zdigits2 M + (dn - 53 + -53) - 53) (-1074)))
    with (dn - 106 + k1) in * by (unfold k1; lia).
  replace (dn - 106 + k1 - (dn - 53 + -53)) with k1 in * by lia.
  replace (Zdigits2 M) with (k1 + 53) in HMlt by (unfold k1; lia).
  assert (Hk1 : k1 = 52 \/ k1 = 53) by (unfold k1; lia).
  clearbody k1. clear Hd.
  rewrite Z.mul_1_r in Hnear.
  set (e1 := dn - 106 + k1) in *.
  set (q := 95 * Zpos p / 100).
  pose proof (Z.div_mod (95 * Zpos p) 100 ltac:(lia)) as Hq.
  pose proof (Z.mod_pos_bound (95 * Zpos p) 100 ltac:(lia)) as Hr.
  fold q in Hq.
  set (r := (95 * Zpos p) mod 100) in *.
  assert (Hq0 : 0 <= q) by (unfold q; apply Z.div_pos; lia).
  assert (HqS : 100 * (q * S) + r * S = 95 * Zpos mx).
  { rewrite Hmx.
    replace (95 * (Zpos p * S)) with (95 * Zpos p * S) by ring.
    rewrite Hq. ring. }
  assert (HrS : 0 <= r * S <= 99 * S).
  { split; [apply Z.mul_nonneg_nonneg | apply Z.mul_le_mono_nonneg_r]; lia. }
  assert (HqS0 : 0 <= q * S) by (apply Z.mul_nonneg_nonneg; lia).
  assert (HU : 2 ^ (- e1) = 2 ^ (53 - k1) * S).
  { unfold S, e1. rewrite <- Z.pow_add_r by lia. f_equal. lia. }
  assert (Hfloor : m1 / 2 ^ (- e1) = q).
  { symmetry.
    apply (Z.div_unique m1 (2 ^ (- e1)) q (m1 - 2 ^ (- e1) * q)); [|lia].
    left. rewrite HU. clear HU.
    replace (2 ^ (53 - k1) * S * q) with (2 ^ (53 - k1) * (q * S)) by ring.
    set (qS := q * S) in *. set (rS := r * S) in *. set (A := Zpos mx) in *.
    clearbody qS rS A M S. clear - Hk1 Hnear HM HMlt HA HS HqS HrS HqS0 Hm1.
    subst M.
    destruct Hk1 as [-> | ->].
    - change (2 ^ (53 - 52)) with 2. change (2 ^ (52 + 53)) with (2 ^ 105) in HMlt.
      change (2 ^ 105) with 40564819207303340847894502572032 in HMlt.
      change (2 ^ 52) with 4503599627370496 in *.
      change (2 ^ 53) with 9007199254740992 in *.
      change (2 ^ 21) with 2097152 in *. lia.
    - change (2 ^ (53 - 53)) with 1. 
      change (2 ^ 52) with 4503599627370496 in *.
      change (2 ^ 53) with 9007199254740992 in *.
      change (2 ^ 21) with 2097152 in *. clear HMlt. lia. }
  assert (Hqb : q < 2 ^ 52).
  { unfold q. apply Z.div_lt_upper_bound; [lia|].
    change (2 ^ 32) with 4294967296 in Hn.
    change (2 ^ 52) with 4503599627370496. lia. }
  rewrite toZ_floor_roundResult; [exact Hfloor | exact Hm1 | | lia].
  unfold e1. lia.
Qed.

(* ================================================================== *)
(** * Timestamps under a reversed time range *)
(* ================================================================== *)

Lemma toZ_ofZ_signed (z : Z) : Z.abs z < 2 ^ 52 -> JS.toZ (JS.ofZ z) = z.
Proof.
  intros Hz. destruct (Z.eq_dec z 0) as [-> | Hne]; [reflexivity|].
  rewrite (ofZ_intNumber z Hne Hz).
  assert (Hd : (digits2_pos (Z.to_pos (Z.abs z)) < 53)%positive).
  { pose proof (digits2_pos_bound (Z.to_pos (Z.abs z)) 52 ltac:(lia)) as H.
    assert (H1 : Zpos (Z.to_pos (Z.abs z)) = Z.abs z) by lia.
    rewrite H1 in H. specialize (H Hz). lia. }
  rewrite toZ_intNumber by exact Hd.
  replace (Zpos (Z.to_pos (Z.abs z))) with (Z.abs z) by lia.
  destruct (Z.ltb_spec z 0); cbn [cond_Zopp]; lia.
Qed.

(** [Math.floor] of a negative number of magnitude at most [q]. *)
Lemma toZ_floor_negative (m : positive) (e q : Z) :
  e < 0 -> 0 <= q < 2 ^ 52 -> Zpos m <= q * 2 ^ (- e) ->
  - q <= JS.toZ (JS.Math_floor (S754_finite true m e)) <= 0.
Proof.
  intros He Hq Hm. unfold JS.Math_floor.
  destruct (Z.leb_spec 0 e); [lia|]. cbn [cond_Zopp].
  assert (HU : 0 < 2 ^ (- e)) by (apply Z.pow_pos_nonneg; lia).
  assert (Hlo : - q <= - Zpos m / 2 ^ (- e))
    by (apply Z.div_le_lower_bound; [exact HU | lia]).
  assert (Hhi : - Zpos m / 2 ^ (- e) <= 0)
    by (apply Z.div_le_upper_bound; [exact HU | lia]).
  destruct (Z.eqb_spec (- Zpos m / 2 ^ (- e)) 0) as [E | E].
  - cbn [JS.toZ]. lia.
  - rewrite toZ_ofZ_signed by lia. lia.
Qed.

(** A number of [0, 1] as a mantissa and an exponent. *)
Lemma unitInterval_cases (x : number) :
  unitInterval x ->
  x = S754_zero false
  \/ exists m e, x = S754_finite false m e /\ e < 0 /\ Zpos m <= 2 ^ (- e).
Proof.
  intros [-> | [-> | [m [e [-> [He Hm]]]]]].
  - left. reflexivity.
  - right. exists 4503599627370496%positive, (-52).
    split; [reflexivity|]. split; [reflexivity|]. discriminate.
  - right. exists m, e. split; [reflexivity|]. split; [exact He | lia].
Qed.

(** Scaling a number of [0, 1] to a negative span and flooring gives an
    integer between the span and zero. *)
Lemma scaled_floor_range_negative (nt : number) (span : Z) :
  unitInterval nt -> - 2 ^ 52 < span <= 0 ->
  span <= JS.toZ (JS.Math_floor (JS.mul nt (JS.ofZ span))) <= 0.
Proof.
  intros Hnt Hs.
  destruct span as [|qp|qp]; [| lia |].
  - rewrite ofZ_zero.
    destruct (unitInterval_cases nt Hnt) as [-> | [m [e [-> _]]]];
      unfold JS.mul, SFmul; cbn [xorb JS.Math_floor JS.toZ]; lia.
  - assert (Hq : Zpos qp < 2 ^ 52) by lia.
    pose proof (digits2_pos_bound qp 52 ltac:(lia) Hq) as Hdq.
    pose proof (digits2_pos_range qp) as Rq.
    rewrite ofZ_neg by lia. unfold intNumber.
    set (dq := Zpos (digits2_pos qp)) in *.
    assert (Hdq1 : 1 <= dq) by (unfold dq; lia).
    destruct (unitInterval_cases nt Hnt) as [-> | [m [e [-> [He Hm]]]]].
    + unfold JS.mul, SFmul. cbn [xorb JS.Math_floor JS.toZ]. lia.
    + unfold JS.mul, SFmul. cbn [xorb].
      set (mq := Pos.iter xO qp (53 - digits2_pos qp)).
      assert (Hmq : Zpos mq = Zpos qp * 2 ^ (53 - dq)).
      { unfold mq. rewrite iter_xO_value. f_equal. f_equal. unfold dq. lia. }
      set (E := e + (dq - 53)).
      set (M := Zpos (m * mq)).
      assert (HM : M = Zpos m * Zpos mq) by reflexivity.
      assert (HE : E < 0) by (unfold E; lia).
      assert (HQ : 2 ^ (- E) = 2 ^ (- e) * 2 ^ (53 - dq)).
      { unfold E. rewrite <- Z.pow_add_r by lia. f_equal. lia. }
      assert (Hpe : 0 < 2 ^ (- e)) by (apply Z.pow_pos_nonneg; lia).
      assert (Hpd : 0 < 2 ^ (53 - dq)) by (apply Z.pow_pos_nonneg; lia).
      assert (HpE : 0 < 2 ^ (- E)) by (apply Z.pow_pos_nonneg; lia).
      assert (HMQ : M <= Zpos qp * 2 ^ (- E)).
      { rewrite HM, Hmq, HQ.
        replace (Zpos qp * (2 ^ (- e) * 2 ^ (53 - dq)))
          with (2 ^ (- e) * (Zpos qp * 2 ^ (53 - dq))) by ring.
        apply Z.mul_le_mono_nonneg_r; lia. }
      assert (HM0 : 0 <= M) by (unfold M; lia).
      assert (HdM : Zdigits2 M <= 52 + - E).
      { apply Zdigits2_le; [|lia]. split; [exact HM0|].
        rewrite Z.pow_add_r by lia.
        assert (Zpos qp * 2 ^ (- E) < 2 ^ 52 * 2 ^ (- E))
          by (apply Z.mul_lt_mono_pos_r; lia).
        lia. }
      assert (HL : Located (shr_record_of_loc M loc_Exact) M 1).
      { exists 0. cbn [shr_record_of_loc shr_m loc_of_shr_record].
        split; [lia|]. split; [lia|]. reflexivity. }
      destruct (binary_round_aux_nearest true M E loc_Exact M 1
                  HM0 ltac:(lia) HL) as [m1 [Hm1 [_ [Hnear [_ Hres]]]]].
      cbv zeta in Hnear, Hres. rewrite fexp_eq in Hnear, Hres.
      fold E. change (Zpos (m * mq)) with M. rewrite Hres. clear Hres HL.
      pose proof (Zdigits2_nonneg M) as HdM0.
      set (e1 := Z.max E (Z.max (Zdigits2 M + E - 53) (-1074))) in *.
      assert (He1 : E <= e1 < 0) by (unfold e1; lia).
      rewrite Z.mul_1_r in Hnear.
      set (T := 2 ^ (e1 - E)) in *.
      assert (HT : 0 < T) by (apply Z.pow_pos_nonneg; lia).
      assert (HU : 0 < 2 ^ (- e1)) by (apply Z.pow_pos_nonneg; lia).
      assert (HUT : 2 ^ (- E) = 2 ^ (- e1) * T).
      { unfold T. rewrite <- Z.pow_add_r by lia. f_equal. lia. }
      assert (Hm1q : m1 <= Zpos qp * 2 ^ (- e1)).
      { rewrite HUT in HMQ.
        set (U := 2 ^ (- e1)) in *. set (q := Zpos qp) in *.
        assert (Hq0 : 0 < q) by (unfold q; lia).
        clearbody U T q M. clear - Hnear HMQ HT HU Hq0 Hm1.
        destruct (Z.le_gt_cases m1 (q * U)) as [H | H]; [exact H|].
        exfalso.
        assert ((q * U + 1) * T <= m1 * T)
          by (apply Z.mul_le_mono_nonneg_r; lia).
        lia. }
      clear Hnear HMQ.
      destruct m1 as [|p1|p1]; [cbn [roundResult JS.Math_floor JS.toZ]; lia | | lia].
      cbn [roundResult].
      destruct (Z.eqb_spec (Zpos p1) 9007199254740992) as [Etop | Etop].
      * destruct (Z.leb_spec (e1 + 1) 971); [|lia].
        assert (He2 : e1 + 1 < 0).
        { destruct (Z.lt_ge_cases (e1 + 1) 0) as [H1 | H1]; [exact H1|].
          exfalso. assert (E1 : e1 = -1) by lia.
          rewrite E1 in Hm1q. change (2 ^ (- -1)) with 2 in Hm1q.
          change (2 ^ 52) with 4503599627370496 in Hq. lia. }
        replace (Z.neg qp) with (- Zpos qp) by reflexivity.
        apply toZ_floor_negative; [exact He2 | lia |].
        assert (HUU : 2 ^ (- e1) = 2 * 2 ^ (- (e1 + 1))).
        { replace (- e1) with (1 + - (e1 + 1)) by lia.
          rewrite Z.pow_add_r by lia. reflexivity. }
        rewrite HUU, Etop in Hm1q. lia.
      * destruct (Z.leb_spec e1 971); [|lia].
        replace (Z.neg qp) with (- Zpos qp) by reflexivity.
        apply toZ_floor_negative; [lia | lia | exact Hm1q].
Qed.

(* ================================================================== *)
(** * Bucket keys of the source *)
(* ================================================================== *)

(** C7 (as amended).  For a positive bucket size, and a timestamp and a
    bucket size that stay below 2^52 together, the key the source computes
    in binary64, [Math.floor(timestamp / bucketSize) * bucketSize], is
    exactly the multiple of the bucket size at or below the timestamp, the
    floor toward negative infinity: the timestamp lies in
    [key, key + bucketSize).  For a negative timestamp that is not a
    multiple of the bucket size the key is strictly below the multiple that
    truncation toward zero would give.  The event is counted in the bucket
    that carries this key. *)
Theorem bucketKey_floors_toward_minus_infinity
  (e : TelemetryEvent.t) (w : Z) (Hw : 0 < w)
  (Hb : Z.abs (TelemetryEvent.timestamp e) + w < 2 ^ 52) :
  exists k,
    bucketKeyBinary64 (TelemetryEvent.timestamp e) w = JS.ofZ k
    /\ keyOf w e = Key k
    /\ (w | k)
    /\ k <= TelemetryEvent.timestamp e < k + w
    /\ (TelemetryEvent.timestamp e < 0 -> k < 0)
    /\ (TelemetryEvent.timestamp e < 0 ->
        ~ (w | TelemetryEvent.timestamp e) ->
        k < Z.quot (TelemetryEvent.timestamp e) w * w)
    /\ (forall events, In e events ->
          exists b, In b (aggregateEvents events w)
                    /\ AggregatedData.timestamp b = Key k).
Proof.
  set (ts := TelemetryEvent.timestamp e) in *.
  exists (ts / w * w).
  assert (Hkey : keyOf w e = Key (ts / w * w)).
  { unfold keyOf, bucketKey. fold ts.
    destruct (Z.eqb_spec w 0); [lia | reflexivity]. }
  assert (Hrange : ts / w * w <= ts < ts / w * w + w).
  { pose proof (Z.div_mod ts w ltac:(lia)) as Hdm.
    pose proof (Z.mod_pos_bound ts w Hw) as Hm. lia. }
  split.
  { apply (bucketKeyBinary64_exact ts w); [lia | | exact Hw].
    rewrite (Z.abs_eq w) by lia. exact Hb. }
  split; [exact Hkey|]. split; [exists (ts / w); reflexivity|].
  split; [exact Hrange|]. split; [lia|]. split.
  - intros Hneg Hnd.
    pose proof (Z.quot_rem' ts w) as Hq.
    pose proof (Z.rem_bound_pos_neg ts w Hw ltac:(lia)) as Hr.
    assert (ts / w * w <> ts).
    { intros E. apply Hnd. exists (ts / w). symmetry. exact E. }
    lia.
  - intros events Hin.
    destruct (aggregateEvents_has_bucket events w e Hin) as [b [H1 [H2 _]]].
    exists b. split; [exact H1 | congruence].
Qed.

(** The timestamp -1 with bucket size 1000 falls in bucket -1000, not 0,
    in binary64 as on the integers. *)
Lemma bucketKey_of_minus_one :
  bucketKeyBinary64 (-1) 1000 = JS.ofZ (-1000)
  /\ keyOf 1000 (sampleEvent (-1) (JS.ofZ 7)) = Key (-1000).
Proof.
  destruct (bucketKey_floors_toward_minus_infinity
              (sampleEvent (-1) (JS.ofZ 7)) 1000 eq_refl eq_refl)
    as [k [Hk64 [Hk [[q Hq] [Hr _]]]]].
  assert (E : k = -1000) by (simpl in Hr; lia).
  rewrite E in Hk64, Hk. split; [exact Hk64 | exact Hk].
Defined.

(** C7 fails as stated for timestamps near 2^53: the quotient and the
    product round.  For the timestamp -(2^53 - 1) and bucket size 7 the
    floor of the exact quotient gives -9007199254740995, and the source
    computes -9007199254740996, which is no multiple of 7; for the timestamp
    -8500000000000000 and bucket size 4000000000000001 it computes
    -12000000000000004 where the floor gives -12000000000000003. *)
Lemma bucketKey_rounds_beyond_2_53 :
  readKey (bucketKeyBinary64 (- (2 ^ 53 - 1)) 7) = Key (-9007199254740996)
  /\ bucketKey (- (2 ^ 53 - 1)) 7 = Key (-9007199254740995)
  /\ ~ (7 | -9007199254740996)
  /\ readKey (bucketKeyBinary64 (-8500000000000000) 4000000000000001)
     = Key (-12000000000000004)
  /\ bucketKey (-8500000000000000) 4000000000000001
     = Key (-12000000000000003).
Proof.
  split; [vm_compute; reflexivity|]. split; [vm_compute; reflexivity|].
  split; [|split; vm_compute; reflexivity].
  intros [q Hq]. lia.
Qed.

(** For a bucket size other than zero, and events and a bucket size below
    2^52 together, the binary64 keys are the integer keys. *)
Lemma keysExact_bounded (w : Z) (events : list TelemetryEvent.t) :
  w <> 0 ->
  Forall (fun e => Z.abs (TelemetryEvent.timestamp e) + Z.abs w < 2 ^ 52)
         events ->
  keysExact w events.
Proof.
  intros Hw H. unfold keysExact. rewrite Forall_forall in *.
  intros e He. unfold keyOf.
  exact (proj1 (bucketKeyBinary64_exact _ w Hw (H e He))).
Qed.

(** C1 (as amended).  A bucket size that is zero or negative is not
    rejected: the handler answers with an [Aggregated] message that carries
    the result of [aggregateEvents], no [Error].  The result is empty for an
    empty input.  For bucket size zero every key is [NaN] in binary64, and
    a non-empty input gives one bucket with timestamp [NaN] that counts all
    events.  For a negative bucket size, events and bucket size below 2^52
    together, the keys the source computes in binary64 are the integer
    keys, and every bucket is keyed by a multiple [k] of the bucket size
    and counts the events with [k + bucketSize < timestamp <= k], of which
    there is at least one. *)
Theorem aggregate_accepts_nonpositive_bucketSize
  (clock : nat -> Z) (events : list TelemetryEvent.t) (agg : AggregationType)
  (w : Z) (Hw : w <= 0) :
  onmessage clock (Aggregate events agg w)
  = [Aggregated (aggregateEvents events w)]
  /\ (events = [] -> aggregateEvents events w = [])
  /\ (w = 0 ->
      (forall timestamp, bucketKeyBinary64 timestamp w = S754_nan)
      /\ (events <> [] ->
          exists b, aggregateEvents events w = [b]
                    /\ AggregatedData.timestamp b = NaN
                    /\ AggregatedData.count b = List.length events))
  /\ (w < 0 ->
      Forall (fun e => Z.abs (TelemetryEvent.timestamp e) + Z.abs w < 2 ^ 52)
             events ->
      keysExact w events
      /\ forall b, In b (aggregateEvents events w) ->
         exists k, AggregatedData.timestamp b = Key k
                   /\ (w | k)
                   /\ (1 <= AggregatedData.count b)%nat
                   /\ AggregatedData.count b
                      = List.length
                          (filter (fun e =>
                                     andb (k + w <? TelemetryEvent.timestamp e)
                                          (TelemetryEvent.timestamp e <=? k))
                                  events)
                   /\ (forall e, In e events ->
                         (keyOf w e = Key k
                          <-> k + w < TelemetryEvent.timestamp e <= k))).
Proof.
  split; [reflexivity|]. split; [intros ->; reflexivity|]. split.
  - intros ->. split; [exact bucketKeyBinary64_zero|]. intros Hne.
    exists (summarize (NaN, map TelemetryEvent.value events)).
    rewrite aggregateEvents_unfold, (groupValues_zero events Hne).
    split; [reflexivity|]. split; [reflexivity|].
    rewrite summarize_count. apply length_map.
  - intros Hneg Hbound.
    split; [apply keysExact_bounded; [lia | exact Hbound]|].
    intros b Hb.
    pose proof (aggregateEvents_count_at events w b Hb) as Hcount.
    apply aggregateEvents_In in Hb. destruct Hb as [k [vs [Hin ->]]].
    apply groupValues_entries in Hin. destruct Hin as [-> Hne].
    pose proof Hne as Hne'.
    apply valuesAt_nonempty in Hne. destruct Hne as [e0 [Hin0 Hk0]].
    assert (Hform : forall e, keyOf w e
                              = Key (TelemetryEvent.timestamp e / w * w)).
    { intros e. unfold keyOf, bucketKey.
      destruct (Z.eqb_spec w 0); [lia | reflexivity]. }
    rewrite Hform in Hk0. subst k.
    set (k := TelemetryEvent.timestamp e0 / w * w) in *.
    assert (Hiff : forall e,
               keyOf w e = Key k <-> k + w < TelemetryEvent.timestamp e <= k).
    { intros e. rewrite Hform.
      pose proof (Z.div_mod (TelemetryEvent.timestamp e) w ltac:(lia)) as Hdm.
      pose proof (Z.mod_neg_bound (TelemetryEvent.timestamp e) w Hneg) as Hm.
      rewrite (Z.mul_comm w) in Hdm.
      split.
      - intros H. injection H as H. rewrite H in Hdm. lia.
      - intros H. f_equal. unfold k. f_equal. symmetry.
        apply (Z.div_unique_neg _ _ _
                 (TelemetryEvent.timestamp e
                  - TelemetryEvent.timestamp e0 / w * w)); [|fold k; lia].
        fold k. lia. }
    exists k. rewrite summarize_timestamp in *. cbn [fst] in *.
    split; [reflexivity|].
    split; [exists (TelemetryEvent.timestamp e0 / w); reflexivity|].
    assert (Hlen : List.length (valuesAt w (Key k) events)
                   = List.length
                       (filter (fun e =>
                                  andb (k + w <? TelemetryEvent.timestamp e)
                                       (TelemetryEvent.timestamp e <=? k))
                               events)).
    { unfold valuesAt. rewrite length_map. f_equal.
      apply filter_ext. intros e.
      destruct (BucketKey_eqb (keyOf w e) (Key k)) eqn:E.
      - apply BucketKey_eqb_eq in E. apply Hiff in E. symmetry.
        apply andb_true_iff. split; [apply Z.ltb_lt | apply Z.leb_le]; lia.
      - symmetry. apply not_true_is_false. intros H.
        apply andb_true_iff in H. destruct H as [H1 H2].
        apply Z.ltb_lt in H1. apply Z.leb_le in H2.
        assert (Hk : keyOf w e = Key k) by (apply Hiff; lia).
        apply BucketKey_eqb_eq in Hk. congruence. }
    split; [|split; [|intros e _; apply Hiff]].
    + rewrite Hcount. destruct (valuesAt w (Key k) events);
        [contradiction | simpl; lia].
    + rewrite Hcount. exact Hlen.
Qed.

(** Three events and the bucket size -1000 satisfy the hypotheses of C1 as
    amended: the keys are exact, and the buckets 1000 and 2000 hold one and
    two events. *)
Lemma aggregate_accepts_negative_bucketSize :
  keysExact (-1000) [sampleEvent 1500 (JS.ofZ 10); sampleEvent 900 (JS.ofZ 10);
                     sampleEvent 2000 (JS.ofZ 10)]
  /\ map keyAndCount
       (aggregateEvents [sampleEvent 1500 (JS.ofZ 10);
                         sampleEvent 900 (JS.ofZ 10);
                         sampleEvent 2000 (JS.ofZ 10)] (-1000))
     = [(Key 1000, 1%nat); (Key 2000, 2%nat)].
Proof.
  split; [|vm_compute; reflexivity].
  refine (proj1 (proj2 (proj2 (proj2
            (aggregate_accepts_nonpositive_bucketSize (frozenClock 0)
               [sampleEvent 1500 (JS.ofZ 10); sampleEvent 900 (JS.ofZ 10);
                sampleEvent 2000 (JS.ofZ 10)] agg_count (-1000)
               ltac:(discriminate)))) eq_refl _)).
  repeat constructor.
Defined.

(** C1 fails as stated: with bucket size 0 the aggregate request for one
    event is answered by a normal result, a bucket whose key is [NaN]; with
    bucket size -1000 by a normal result with the bucket 2000.  Neither is
    an error. *)
Lemma aggregate_zero_bucketSize_is_not_rejected :
  onmessage (frozenClock 0)
    (Aggregate [sampleEvent 1500 (JS.ofZ 10)] agg_count 0)
  = [Aggregated
       [AggregatedData.mk NaN 1 (JS.ofZ 10) (JS.ofZ 10) (JS.ofZ 10)
                          (JS.ofZ 10) (JS.ofZ 10)]]
  /\ onmessage (frozenClock 0)
       (Aggregate [sampleEvent 1500 (JS.ofZ 10)] agg_count (-1000))
     = [Aggregated
          [AggregatedData.mk (Key 2000) 1 (JS.ofZ 10) (JS.ofZ 10) (JS.ofZ 10)
                             (JS.ofZ 10) (JS.ofZ 10)]]
  /\ (forall msg,
        onmessage (frozenClock 0)
          (Aggregate [sampleEvent 1500 (JS.ofZ 10)] agg_count 0)
        <> [Error msg]).
Proof.
  split; [vm_compute; reflexivity|]. split; [vm_compute; reflexivity|].
  intros msg. vm_compute. discriminate.
Qed.

(* ================================================================== *)
(** * The p95 of a bucket *)
(* ================================================================== *)

(** The sorted values of a bucket ascend in the order of binary64. *)
Lemma sorted_values_SFleb (values : list number) :
  Forall notNaN values ->
  StronglySorted (fun a b => SFleb a b = true)
                 (JS.Array_sort JS.subSign values).
Proof.
  intros Hv.
  pose proof (sorted_values_ascending values Hv) as Hs.
  assert (Hn : Forall notNaN (JS.Array_sort JS.subSign values)).
  { rewrite Forall_forall in *. intros v Hin. apply Hv.
    exact (proj1 (Array_sort_In JS.subSign values v) Hin). }
  induction Hs as [|x l Hs IH Hx]; constructor.
  - apply IH. inversion Hn; assumption.
  - inversion Hn as [|? ? Hnx Hnl]; subst.
    rewrite Forall_forall in *. intros y Hy.
    apply numLe_SFleb; [exact Hnx | apply Hnl, Hy | apply Hx, Hy].
Qed.

(** Two finite numbers that the comparator orders both ways are equal. *)
Lemma numLe_antisym (x y : number) :
  (exists s m e, x = S754_finite s m e) ->
  (exists s m e, y = S754_finite s m e) ->
  numLe x y -> numLe y x -> x = y.
Proof.
  intros [sx [mx [ex ->]]] [sy [my [ey ->]]].
  unfold numLe, JS.subSign, SFcompare.
  rewrite (Z.compare_antisym ex ey).
  change (Pos.compare_cont Eq my mx) with (Pos.compare my mx).
  change (Pos.compare_cont Eq mx my) with (Pos.compare mx my).
  rewrite (Pos.compare_antisym mx my).
  destruct sx, sy; try congruence;
    destruct (Z.compare_spec ex ey) as [-> | Hlt | Hgt]; cbn;
      try congruence;
      destruct (Pos.compare_spec mx my) as [-> | Hl | Hg]; cbn; congruence.
Qed.

(** Two ascending lists with the same elements, on which the order is
    antisymmetric, are equal. *)
Lemma StronglySorted_unique {A} (R : A -> A -> Prop) (l1 l2 : list A) :
  (forall a b, In a l1 -> In b l1 -> R a b -> R b a -> a = b) ->
  StronglySorted R l1 -> StronglySorted R l2 -> Permutation l1 l2 ->
  l1 = l2.
Proof.
  intros Hanti H1. revert l2.
  induction H1 as [|x l1 Hs1 IH Hx]; intros l2 H2 Hp.
  - apply Permutation_nil in Hp. symmetry. exact Hp.
  - destruct l2 as [|y l2];
      [apply Permutation_sym, Permutation_nil in Hp; discriminate|].
    inversion H2 as [|? ? Hs2 Hy]; subst.
    rewrite Forall_forall in Hx, Hy.
    assert (Hxy : x = y).
    { assert (Hyin : In y (x :: l1))
        by (apply (Permutation_in _ (Permutation_sym Hp)); left; reflexivity).
      assert (Hxin : In x (y :: l2))
        by (apply (Permutation_in _ Hp); left; reflexivity).
      destruct Hyin as [E | Hyin]; [exact E|].
      destruct Hxin as [E | Hxin]; [symmetry; exact E|].
      apply Hanti; [left; reflexivity | right; exact Hyin | apply Hx, Hyin
                   | apply Hy, Hxin]. }
    subst y. f_equal. apply IH.
    + intros a b Ha Hb. apply Hanti; right; assumption.
    + exact Hs2.
    + exact (Permutation_cons_inv Hp).
Qed.

Lemma ascendingb_sorted (l : list number) :
  Forall notNaN l -> ascendingb l = true -> StronglySorted numLe l.
Proof.
  intros Hn. induction Hn as [|a l Ha Hl IH]; intros H; [constructor|].
  destruct l as [|b r]; [constructor; constructor|].
  cbn [ascendingb] in H. apply andb_true_iff in H. destruct H as [Hab Hr].
  specialize (IH Hr). constructor; [exact IH|].
  assert (Hle : numLe a b).
  { unfold numLe. destruct (JS.subSign a b); congruence. }
  inversion IH as [|? ? _ Hb]; subst.
  inversion Hl as [|? ? Hnb Hnr]; subst.
  constructor; [exact Hle|].
  rewrite Forall_forall in *. intros z Hz.
  apply (subSign_trans a b z Ha Hnb (Hnr z Hz) Hle (Hb z Hz)).
Qed.

Lemma oneToHundred_finite (x : number) :
  In x oneToHundred -> exists s m e, x = S754_finite s m e.
Proof.
  intros H. unfold oneToHundred in H. apply in_map_iff in H.
  destruct H as [i [<- Hi]]. apply in_seq in Hi.
  destruct i as [|i]; [lia|].
  rewrite Nat2Z.inj_succ. unfold Z.succ.
  assert (Hp : exists p, Z.of_nat i + 1 = Zpos p /\ Zpos p < 2 ^ 52).
  { exists (Z.to_pos (Z.of_nat i + 1)). split; [lia|].
    change (2 ^ 52) with 4503599627370496. lia. }
  destruct Hp as [p [-> Hp]].
  pose proof (digits2_pos_bound p 52 ltac:(lia) Hp).
  rewrite ofZ_pos by lia. eexists. eexists. eexists. reflexivity.
Qed.

Lemma oneToHundred_sorted : StronglySorted numLe oneToHundred.
Proof.
  apply ascendingb_sorted; [|vm_compute; reflexivity].
  apply Forall_forall. intros x Hx.
  destruct (oneToHundred_finite x Hx) as [s [m [e ->]]]. reflexivity.
Qed.

(** The values 1..100, in whatever order they come, sort to 1..100. *)
Lemma sort_oneToHundred (values : list number) :
  Permutation values oneToHundred ->
  JS.Array_sort JS.subSign values = oneToHundred.
Proof.
  intros Hp.
  assert (Hn : Forall notNaN values).
  { apply Forall_forall. intros v Hv.
    apply (Permutation_in _ Hp) in Hv.
    destruct (oneToHundred_finite v Hv) as [s [m [e ->]]]. reflexivity. }
  assert (Hps : Permutation (JS.Array_sort JS.subSign values) oneToHundred).
  { rewrite Array_sort_Permutation. exact Hp. }
  apply (StronglySorted_unique numLe).
  - intros a b Ha Hb. apply numLe_antisym; apply oneToHundred_finite;
      apply (Permutation_in _ Hps); assumption.
  - apply sorted_values_ascending. exact Hn.
  - exact oneToHundred_sorted.
  - exact Hps.
Qed.

Lemma p95Index_hundred : p95Index 100 = 95.
Proof. vm_compute. reflexivity. Qed.

(** The index at which the p95 is read is the floor of 95% of the count. *)
Lemma p95_read_index (n : Z) :
  1 <= n < 2 ^ 32 -> Z.min (p95Index n) (n - 1) = 95 * n / 100.
Proof.
  intros Hn. rewrite p95Index_floor by lia.
  apply Z.min_l.
  assert (95 * n / 100 < n); [|lia].
  apply Z.div_lt_upper_bound; lia.
Qed.

(** C5.  The p95 a bucket reports is the element of its ascending sorted
    values at index [min(floor(count * 0.95), count - 1)], no interpolation:
    the bucket summarizes a value collection of the map, [sorted] is that
    collection sorted (a permutation of it that ascends in the order of
    binary64 when no value is [NaN]), and [p95] is read at that index, which
    is in range.  For every array length the binary64 product floors to the
    exact floor of 95%, so the index is [floor(95 * count / 100)].  A bucket
    of one value reports that value.  A bucket that holds the 100 values
    1..100, in whatever order the events come, reports p95 = 96: so do the
    events that carry them in ascending order and those that carry them
    scrambled.  A single event gives its own value. *)
Theorem p95_is_nearest_rank :
  (forall events w b,
     In b (aggregateEvents events w) ->
     exists (values sorted : list number) (i : nat),
       In (AggregatedData.timestamp b, values) (groupValues events w)
       /\ sorted = JS.Array_sort JS.subSign values
       /\ Permutation sorted values
       /\ (Forall notNaN values ->
           StronglySorted (fun x y => SFleb x y = true) sorted)
       /\ AggregatedData.count b = List.length sorted
       /\ (1 <= AggregatedData.count b)%nat
       /\ Z.of_nat i
          = Z.min (p95Index (Z.of_nat (AggregatedData.count b)))
                  (Z.of_nat (AggregatedData.count b) - 1)
       /\ nth_error sorted i = Some (AggregatedData.p95 b)
       /\ (Z.of_nat (AggregatedData.count b) < 2 ^ 32 ->
           Z.of_nat i = 95 * Z.of_nat (AggregatedData.count b) / 100)
       /\ (AggregatedData.count b = 1%nat ->
           values = [AggregatedData.p95 b]))
  /\ (forall events w b,
        In b (aggregateEvents events w) ->
        Permutation (valuesAt w (AggregatedData.timestamp b) events)
                    oneToHundred ->
        AggregatedData.count b = 100%nat
        /\ AggregatedData.p95 b = JS.ofZ 96)
  /\ map (fun b => (AggregatedData.timestamp b, AggregatedData.count b,
                    AggregatedData.p95 b))
         (aggregateEvents hundredEvents 1000)
     = [(Key 0, 100%nat, JS.ofZ 96)]
  /\ map (fun b => (AggregatedData.timestamp b, AggregatedData.count b,
                    AggregatedData.p95 b))
         (aggregateEvents scrambledEvents 1000)
     = [(Key 0, 100%nat, JS.ofZ 96)]
  /\ (forall e w,
        map AggregatedData.p95 (aggregateEvents [e] w)
        = [TelemetryEvent.value e]).
Proof.
  split; [|split; [|split; [|split]]].
  - intros events w b Hb.
    apply aggregateEvents_In in Hb. destruct Hb as [k [values [Hin ->]]].
    pose proof (proj1 (groupValues_entries _ _ _ _) Hin) as [_ Hne].
    destruct (summarize_fields k values Hne)
      as [Hc [Hn [_ [_ [_ [_ [i [Hi [Hlt Hp]]]]]]]]].
    exists values, (JS.Array_sort JS.subSign values), i.
    split; [exact Hin|]. split; [reflexivity|].
    split; [apply Array_sort_Permutation|].
    split; [apply sorted_values_SFleb|].
    split; [exact Hc|]. rewrite Hc.
    split; [exact Hn|]. split; [exact Hi|]. split; [|split].
    + rewrite Hp. apply nth_error_nth'. exact Hlt.
    + intros Hlen. rewrite Hi. apply p95_read_index. lia.
    + intros H1. rewrite Array_sort_length in H1.
      destruct values as [|v [|v' values]];
        [contradiction | | cbn [List.length] in H1; lia].
      rewrite summarize_single_p95. reflexivity.
  - intros events w b Hb Hperm.
    pose proof (aggregateEvents_count_at events w b Hb) as Hcount.
    apply aggregateEvents_In in Hb. destruct Hb as [k [values [Hin ->]]].
    apply groupValues_entries in Hin. destruct Hin as [-> _].
    rewrite summarize_timestamp in Hperm, Hcount. cbn [fst] in Hperm, Hcount.
    split.
    + rewrite Hcount, (Permutation_length Hperm). reflexivity.
    + unfold summarize. cbn [AggregatedData.p95 snd].
      rewrite (sort_oneToHundred _ Hperm).
      change (Z.of_nat (List.length oneToHundred)) with 100.
      rewrite p95Index_hundred. vm_compute. reflexivity.
  - vm_compute. reflexivity.
  - vm_compute. reflexivity.
  - intros e w. rewrite aggregateEvents_single.
    cbn [map]. rewrite summarize_single_p95. reflexivity.
Qed.

Lemma scrambled_values_sorted :
  JS.Array_sort JS.subSign (valuesAt 1000 (Key 0) scrambledEvents)
  = oneToHundred.
Proof. vm_compute. reflexivity. Qed.

Lemma scrambledBucket_returned :
  In (summarize (Key 0, valuesAt 1000 (Key 0) scrambledEvents))
     (aggregateEvents scrambledEvents 1000).
Proof. vm_compute. left. reflexivity. Qed.

(** The 100 events that carry the values 1..100 out of order make one
    bucket, whose values are a permutation of 1..100, so the second part of
    C5 applies to it: its p95 is 96. *)
Lemma p95_of_hundred_values :
  Permutation (valuesAt 1000 (Key 0) scrambledEvents) oneToHundred
  /\ valuesAt 1000 (Key 0) scrambledEvents <> oneToHundred
  /\ AggregatedData.p95 (summarize (Key 0, valuesAt 1000 (Key 0) scrambledEvents))
     = JS.ofZ 96.
Proof.
  assert (Hp : Permutation (valuesAt 1000 (Key 0) scrambledEvents)
                           oneToHundred).
  { rewrite <- scrambled_values_sorted. symmetry.
    apply Array_sort_Permutation. }
  split; [exact Hp|]. split; [vm_compute; discriminate|].
  exact (proj2 (proj1 (proj2 p95_is_nearest_rank) scrambledEvents 1000
                  (summarize (Key 0, valuesAt 1000 (Key 0) scrambledEvents))
                  scrambledBucket_returned Hp)).
Defined.

(* ================================================================== *)
(** * Generated timestamps for exact times *)
(* ================================================================== *)

(** The normalized time of an event is a number from 0 to 1. *)
Lemma normalizedTime_unitInterval (r2 r3 r4 : Rng) :
  unitInterval
    (JS.Math_max (JS.ofZ 0)
       (JS.Math_min (JS.ofZ 1)
          (JS.add (fst (rng r2))
             (JS.mul (JS.sub (fst (rng r4)) (JS.literal 5 10))
                     (JS.mul (fst (rng r3)) (JS.literal 1 10)))))).
Proof.
  apply clamp_unitInterval, add_proper.
  - apply unitFraction_finite, rng_unitFraction.
  - apply mul_proper.
    + apply sub_half_finite, rng_unitFraction.
    + apply mul_tenth_finite, rng_unitFraction.
Qed.

(** Under a reversed time range the timestamp of a generated event lies
    between the end and the start. *)
Lemma generateEvent_timestamp_reversed (i startTime timeSpan now : Z) (r : Rng) :
  - 2 ^ 52 < timeSpan <= 0 ->
  startTime + timeSpan
  <= TelemetryEvent.timestamp (fst (generateEvent i startTime timeSpan now r))
  <= startTime.
Proof.
  intros Hs. unfold generateEvent, bind, ret.
  destruct (randomIndex _ r) as [kt r1].
  destruct (randomIndex _ r1) as [ks r2].
  pose proof (normalizedTime_unitInterval r2) as Hnt.
  destruct (rng r2) as [clusterCenter r3]. cbn [fst] in Hnt.
  specialize (Hnt r3).
  destruct (rng r3) as [x r4]. cbn [fst] in Hnt.
  specialize (Hnt r4).
  destruct (rng r4) as [y r5]. cbn [fst] in Hnt.
  destruct (generateValue _ r5) as [v r6].
  destruct (randomIndex _ r6) as [kl r7].
  destruct (randomIndex _ r7) as [km r8].
  cbn [fst TelemetryEvent.timestamp].
  pose proof (scaled_floor_range_negative _ timeSpan Hnt Hs) as Hk.
  clear Hnt. lia.
Qed.

Lemma exactTime_span (startTime endTime : Z) :
  exactTime startTime -> exactTime endTime ->
  - 2 ^ 52 < endTime - startTime < 2 ^ 52.
Proof.
  unfold exactTime. change (2 ^ 52) with (2 * 2 ^ 51). lia.
Qed.

(** For exact times every generated timestamp lies between the two ends
    of the range. *)
Lemma generateEvent_timestamp_between (i startTime endTime now : Z) (r : Rng) :
  exactTime startTime -> exactTime endTime ->
  Z.min startTime endTime
  <= TelemetryEvent.timestamp
       (fst (generateEvent i startTime (endTime - startTime) now r))
  <= Z.max startTime endTime.
Proof.
  intros Hs He. pose proof (exactTime_span _ _ Hs He) as Hspan.
  destruct (Z.le_gt_cases 0 (endTime - startTime)) as [Hpos | Hneg].
  - pose proof (generateEvent_timestamp_range i startTime
                  (endTime - startTime) now r ltac:(lia)) as H.
    lia.
  - pose proof (generateEvent_timestamp_reversed i startTime
                  (endTime - startTime) now r ltac:(lia)) as H.
    lia.
Qed.

(** C3 (as amended).  For a count that is an array length, an integer in
    [0, 2^32), and any time range, [generateEvents] does not fail: it returns
    [count] events, none for count 0, and the handler posts them in a
    [Generated] message after the progress messages.  For a start and an
    end that are exact times the events are sorted by timestamp and every
    timestamp lies between the two ends of the range.  The time span is not
    clamped: when [endTime <= startTime] every timestamp is at or before
    [startTime], and not before [endTime]. *)
Theorem generate_returns_count_events
  (count startTime endTime : Z) (clock : nat -> Z)
  (Hc : 0 <= count < 2 ^ 32) :
  exists events posts,
    generateEvents count startTime endTime clock = JS.Normal (events, posts)
    /\ Z.of_nat (List.length events) = count
    /\ (count = 0 -> events = [])
    /\ onmessage clock (Generate count (TimeRange.mk startTime endTime))
       = posts ++ [Generated events]
    /\ (exactTime startTime -> exactTime endTime ->
        StronglySorted
          (fun a b => TelemetryEvent.timestamp a <= TelemetryEvent.timestamp b)
          events
        /\ Forall (fun e => Z.min startTime endTime
                            <= TelemetryEvent.timestamp e
                            <= Z.max startTime endTime) events
        /\ (endTime <= startTime ->
            Forall (fun e => endTime <= TelemetryEvent.timestamp e
                             <= startTime) events)).
Proof.
  pose proof (generateEvents_unfold count startTime endTime clock Hc) as Hg.
  destruct (generateEvents_shape count startTime endTime clock
              (fun e => exactTime startTime -> exactTime endTime ->
                        Z.min startTime endTime
                        <= TelemetryEvent.timestamp e
                        <= Z.max startTime endTime))
    as [events [posts [E Hall]]]; [|exact Hc|].
  { intros i now r Hs He.
    apply generateEvent_timestamp_between; assumption. }
  exists events, posts. split; [exact E|].
  rewrite Hg in E. injection E as Eevents Eposts.
  split; [|split; [|split; [|]]].
  - rewrite <- Eevents, Array_sort_length, generateLoop_length. lia.
  - intros ->. rewrite <- Eevents. reflexivity.
  - unfold onmessage. cbn [TimeRange.start TimeRange.end_]. rewrite Hg.
    rewrite Eevents, Eposts. reflexivity.
  - intros Hs He.
    split; [rewrite <- Eevents; apply compareEvents_sorted|].
    assert (Hin : Forall (fun e => Z.min startTime endTime
                                   <= TelemetryEvent.timestamp e
                                   <= Z.max startTime endTime) events).
    { rewrite Forall_forall in *. intros e Hin. exact (Hall e Hin Hs He). }
    split; [exact Hin|].
    intros Hrev. rewrite Forall_forall in *. intros e Hine.
    specialize (Hin e Hine). lia.
Qed.

(** Two events over the reversed range [1000, 0] satisfy the hypotheses of
    C3 as amended: their timestamps lie between 0 and 1000. *)
Lemma generate_two_events_reversed_range :
  exists events posts,
    generateEvents 2 1000 0 (frozenClock 1700000000000)
    = JS.Normal (events, posts)
    /\ Z.of_nat (List.length events) = 2
    /\ Forall (fun e => 0 <= TelemetryEvent.timestamp e <= 1000) events.
Proof.
  destruct (generate_returns_count_events 2 1000 0 (frozenClock 1700000000000)
              ltac:(lia))
    as [events [posts [H1 [H2 [_ [_ H5]]]]]].
  exists events, posts.
  split; [exact H1|]. split; [exact H2|].
  destruct (H5 eq_refl eq_refl) as [_ [_ H6]]. apply H6. lia.
Defined.

(** C3 fails as stated: over the reversed range [1000, 0] the two events
    generated have the timestamps 51 and 748, both before the start 1000
    (the span -1000 is used as it is); and a count of 2^32, which is not an
    array length, makes [new Array(count)] throw, which the handler reports
    as an error. *)
Lemma generate_does_not_clamp :
  eventTimestamps (generateEvents 2 1000 0 (frozenClock 1700000000000))
  = [51; 748]
  /\ generateEvents 4294967296 0 1000 (frozenClock 1700000000000)
     = JS.Throw "Invalid array length"
  /\ onmessage (frozenClock 1700000000000)
       (Generate 4294967296 (TimeRange.mk 0 1000))
     = [Error "Invalid array length"].
Proof.
  split; [vm_compute; reflexivity|].
  split; [apply generateEvents_throws; lia|].
  unfold onmessage. cbn [TimeRange.start TimeRange.end_].
  rewrite generateEvents_throws by lia. reflexivity.
Qed.

(** X4.  Generating and then filtering gives a chronological list within
    the range: for a start and an end that are exact times, the events the
    worker generates come sorted by timestamp, and filtering keeps that
    order, whatever the filter; every timestamp that is left lies between
    the two ends of the range the events were generated for. *)
Theorem generated_then_filtered_chronological
  (count startTime endTime : Z) (clock : nat -> Z) (f : FilterState.t) :
  0 <= count < 2 ^ 32 ->
  exactTime startTime -> exactTime endTime ->
  exists events posts,
    generateEvents count startTime endTime clock = JS.Normal (events, posts)
    /\ chronological (filterEvents events f)
    /\ Forall (fun e => Z.min startTime endTime
                        <= TelemetryEvent.timestamp e
                        <= Z.max startTime endTime)
              (filterEvents events f).
Proof.
  intros Hc Hs He.
  destruct (generateEvents_shape count startTime endTime clock
              (fun e => Z.min startTime endTime
                        <= TelemetryEvent.timestamp e
                        <= Z.max startTime endTime))
    as [events [posts [E Hall]]]; [|exact Hc|].
  { intros i now r. apply generateEvent_timestamp_between; assumption. }
  exists events, posts. split; [exact E|].
  rewrite (generateEvents_unfold count startTime endTime clock Hc) in E.
  injection E as Eevents _.
  split.
  - rewrite <- Eevents. apply filter_StronglySorted, compareEvents_sorted.
  - rewrite Forall_forall in *. intros e Hin. apply Hall.
    unfold filterEvents in Hin. apply filter_In in Hin. tauto.
Qed.

(** Twenty events over the reversed range [10000, 0]: the sample filter
    keeps six of them. *)
Lemma generated_then_filtered_sample :
  0 <= 20 < 2 ^ 32 /\ exactTime 10000 /\ exactTime 0
  /\ exists events posts,
       generateEvents 20 10000 0 (frozenClock 7) = JS.Normal (events, posts)
       /\ chronological (filterEvents events wideFilter)
       /\ Forall (fun e => 0 <= TelemetryEvent.timestamp e <= 10000)
                 (filterEvents events wideFilter)
       /\ List.length (filterEvents events wideFilter) = 6%nat.
Proof.
  split; [lia|]. split; [reflexivity|]. split; [reflexivity|].
  destruct (generated_then_filtered_chronological 20 10000 0 (frozenClock 7)
              wideFilter ltac:(lia) eq_refl eq_refl)
    as [events [posts [E [H1 H2]]]].
  exists events, posts.
  split; [exact E|]. split; [exact H1|]. split; [exact H2|].
  assert (Hc : match generateEvents 20 10000 0 (frozenClock 7) with
               | JS.Normal (evs, _) =>
                   List.length (filterEvents evs wideFilter)
               | JS.Throw _ => 0%nat
               end = 6%nat) by (vm_compute; reflexivity).
  rewrite E in Hc. exact Hc.
Defined.

Lemma SAMPLE_MESSAGES_ascii (m : string) :
  In m SAMPLE_MESSAGES -> isAscii m = true.
Proof.
  assert (H : forallb isAscii SAMPLE_MESSAGES = true)
    by (vm_compute; reflexivity).
  rewrite forallb_forall in H. apply H.
Qed.

(** X20.  On generated data the search behaves as the specification words
    it, for a query of ASCII characters and a range between exact times:
    the messages of the generated events are ASCII strings, and the filter
    returns, in order, exactly the generated events in the time range and
    the selections whose message contains the query, letter case ignored;
    no generated event gets through a non-empty query without a matching
    message. *)
Theorem search_on_generated_events_requires_a_match
  (count startTime endTime : Z) (clock : nat -> Z) (f : FilterState.t) :
  0 <= count < 2 ^ 32 ->
  exactTime startTime -> exactTime endTime ->
  asciiQuery f ->
  exists events posts,
    generateEvents count startTime endTime clock = JS.Normal (events, posts)
    /\ Forall asciiMessage events
    /\ Forall (fun e => Z.min startTime endTime
                        <= TelemetryEvent.timestamp e
                        <= Z.max startTime endTime) events
    /\ Selected (matchesAsSpecified f) events (filterEvents events f).
Proof.
  intros Hc Hs He _.
  destruct (generateEvents_shape count startTime endTime clock
              (fun e => hasLevelAndMessage e
                        /\ Z.min startTime endTime
                           <= TelemetryEvent.timestamp e
                           <= Z.max startTime endTime))
    as [events [posts [E Hall]]];
    [|exact Hc|].
  - intros i now r. split.
    + apply (generateEvent_shape i startTime (endTime - startTime) now r).
    + apply generateEvent_timestamp_between; assumption.
  - exists events, posts. split; [exact E|].
    rewrite Forall_forall in Hall.
    split; [|split].
    + apply Forall_forall. intros e Hin.
      destruct (Hall e Hin) as [[_ [m [Hm Hpool]]] _].
      unfold asciiMessage. rewrite Hm. apply SAMPLE_MESSAGES_ascii, Hpool.
    + apply Forall_forall. intros e Hin. apply (Hall e Hin).
    + apply (Selected_ext_in (matches f)).
      * intros e Hin. apply matches_with_message. apply (Hall e Hin).
      * unfold filterEvents. apply filter_Selected. apply filterCallback_iff.
Qed.

(** Of twenty generated events the query "failed" keeps the one whose
    message contains it. *)
Lemma search_on_generated_events_sample :
  0 <= 20 < 2 ^ 32 /\ exactTime 0 /\ exactTime 10000
  /\ asciiQuery searchFailed
  /\ exists events posts,
       generateEvents 20 0 10000 (frozenClock 7) = JS.Normal (events, posts)
       /\ Forall asciiMessage events
       /\ Forall (fun e => 0 <= TelemetryEvent.timestamp e <= 10000) events
       /\ Selected (matchesAsSpecified searchFailed) events
                   (filterEvents events searchFailed)
       /\ map TelemetryEvent.message (filterEvents events searchFailed)
          = [Some "Retrying failed request"%string].
Proof.
  split; [lia|]. split; [reflexivity|]. split; [reflexivity|].
  split; [reflexivity|].
  destruct (search_on_generated_events_requires_a_match 20 0 10000
              (frozenClock 7) searchFailed ltac:(lia) eq_refl eq_refl eq_refl)
    as [events [posts [E [H1 [H2 H3]]]]].
  exists events, posts.
  split; [exact E|]. split; [exact H1|]. split; [exact H2|].
  split; [exact H3|].
  assert (Hc : match generateEvents 20 0 10000 (frozenClock 7) with
               | JS.Normal (evs, _) =>
                   map TelemetryEvent.message (filterEvents evs searchFailed)
               | JS.Throw _ => []
               end = [Some "Retrying failed request"%string])
    by (vm_compute; reflexivity).
  rewrite E in Hc. exact Hc.
Defined.

(* ================================================================== *)
(** * The filter on plain text *)
(* ================================================================== *)

(** C2 (as amended).  For a query and messages of ASCII characters,
    [filterEvents] returns exactly the events that satisfy the conjunction
    of the four clauses, in their original relative order: a timestamp
    within the inclusive time range; membership of the type when types are
    selected; membership of the service when services are selected; and,
    when the query is non-empty and the event has a non-empty message, the
    lowercased message contains the lowercased query.  The result is the
    only such selection, a subsequence of the input. *)
Theorem filterEvents_selects_matches
  (events : list TelemetryEvent.t) (f : FilterState.t) :
  asciiQuery f -> Forall asciiMessage events ->
  Selected (matches f) events (filterEvents events f)
  /\ (forall l, Selected (matches f) events l -> l = filterEvents events f)
  /\ Subsequence (filterEvents events f) events
  /\ (forall e, In e (filterEvents events f) <-> In e events /\ matches f e).
Proof.
  intros _ _.
  assert (Hsel : Selected (matches f) events (filterEvents events f)).
  { unfold filterEvents. apply filter_Selected. apply filterCallback_iff. }
  split; [exact Hsel|]. split; [|split].
  - intros l Hl. exact (Selected_unique _ _ _ _ Hl Hsel).
  - exact (Selected_Subsequence _ _ _ Hsel).
  - exact (Selected_In _ _ _ Hsel).
Qed.

Lemma searchSample_ascii : Forall asciiMessage searchSample.
Proof. repeat constructor. Qed.

(** Of the five sample events the query "failed" on metrics between 100
    and 5000 keeps two: the one whose message contains it in capitals, and
    the one that has no message. *)
Lemma filterEvents_selects_sample :
  Selected (matches narrowSearch) searchSample
           [messageEvent 200 metric "Request FAILED: timeout";
            sampleEvent 500 (JS.ofZ 2)]
  /\ ~ In (messageEvent 300 metric "Request processed")
          (filterEvents searchSample narrowSearch).
Proof.
  pose proof (filterEvents_selects_matches searchSample narrowSearch
                eq_refl searchSample_ascii) as [H _].
  assert (E : filterEvents searchSample narrowSearch
              = [messageEvent 200 metric "Request FAILED: timeout";
                 sampleEvent 500 (JS.ofZ 2)]) by (vm_compute; reflexivity).
  rewrite E in *. split; [exact H|].
  intros [D | [D | []]]; discriminate D.
Defined.

(** C2 fails as stated: under the non-empty query "failed" an event that
    has no message is returned, although the fourth clause of the
    specification requires a message that contains the query. *)
Lemma filterEvents_returns_event_without_message :
  filterEvents [silentEvent] searchFailed = [silentEvent]
  /\ FilterState.searchQuery searchFailed <> EmptyString
  /\ TelemetryEvent.message silentEvent = None
  /\ ~ matchesAsSpecified searchFailed silentEvent.
Proof.
  split; [reflexivity|]. split; [discriminate|]. split; [reflexivity|].
  intros [_ [_ [_ [H | [m [H _]]]]]]; discriminate.
Qed.

(** X3.  Restricting a filter only removes events, for queries and messages
    of ASCII characters: when [g] restricts at least as much as [f], the
    result for [g] can be computed from the result for [f], and it is a
    subsequence of it. *)
Theorem filterEvents_narrowing
  (events : list TelemetryEvent.t) (f g : FilterState.t) :
  asciiQuery f -> asciiQuery g -> Forall asciiMessage events ->
  narrows f g ->
  filterEvents (filterEvents events f) g = filterEvents events g
  /\ Subsequence (filterEvents events g) (filterEvents events f).
Proof.
  intros _ _ _ H.
  assert (E : filterEvents (filterEvents events f) g = filterEvents events g).
  { unfold filterEvents. apply filter_filter_implies. intros e Hg.
    apply filterCallback_iff. apply (narrows_matches f g e H).
    apply filterCallback_iff. exact Hg. }
  split; [exact E|]. rewrite <- E. unfold filterEvents at 1.
  apply filter_Subsequence.
Qed.

(** The query "failed" restricts the query "Fail": on the sample the first
    keeps two of the four events the second keeps. *)
Lemma filterEvents_narrowing_sample :
  narrows broadSearch narrowSearch
  /\ FilterState.searchQuery broadSearch <> EmptyString
  /\ List.length (filterEvents searchSample broadSearch) = 4%nat
  /\ List.length (filterEvents searchSample narrowSearch) = 2%nat
  /\ filterEvents (filterEvents searchSample broadSearch) narrowSearch
     = filterEvents searchSample narrowSearch
  /\ Subsequence (filterEvents searchSample narrowSearch)
                 (filterEvents searchSample broadSearch).
Proof.
  assert (H : narrows broadSearch narrowSearch).
  { unfold narrows, broadSearch, narrowSearch; simpl.
    split; [lia|]. split; [lia|]. split; [left; reflexivity|].
    split; [left; reflexivity|].
    right. exists EmptyString, "ed"%string. reflexivity. }
  split; [exact H|]. split; [discriminate|].
  split; [vm_compute; reflexivity|]. split; [vm_compute; reflexivity|].
  apply (filterEvents_narrowing searchSample broadSearch narrowSearch
           eq_refl eq_refl searchSample_ascii H).
Defined.

(* ================================================================== *)
(** * What the chart receives, for exact times *)
(* ================================================================== *)







(* ================================================================== *)
(** * The seed of the random source *)
(* ================================================================== *)

(** Rounding an integer of fewer than 53 digits that is given with
    trailing zeros: the integer, exactly. *)
Lemma binary_round_integer (s : bool) (S : positive) (ez : Z) (v : positive) :
  ez <= 0 -> Zpos S = Zpos v * 2 ^ (- ez) -> Zpos v < 2 ^ 52 ->
  binary_round JS.prec JS.emax s S ez = intNumber s v.
Proof.
  intros Hez HS Hv.
  pose proof (digits2_pos_bound v 52 ltac:(lia) Hv) as Hdv.
  pose proof (digits2_pos_range v) as Rv.
  set (dv := Zpos (digits2_pos v)) in *.
  assert (Hdv1 : 1 <= dv) by (unfold dv; lia).
  assert (Hpz : 0 < 2 ^ (- ez)) by (apply Z.pow_pos_nonneg; lia).
  assert (HdS : Zpos (digits2_pos S) = dv - ez).
  { assert (H : dv - 1 - ez < Zdigits2 (Zpos S) <= dv - ez).
    { apply Zdigits2_between; [lia|]. rewrite HS.
      replace (dv - 1 - ez) with ((dv - 1) + - ez) by lia.
      replace (dv - ez) with (dv + - ez) by lia.
      rewrite !Z.pow_add_r by lia.
      split; [apply Z.mul_le_mono_nonneg_r | apply Z.mul_lt_mono_pos_r]; lia. }
    cbn [Zdigits2] in H. lia. }
  unfold binary_round.
  pose proof (shl_align_spec S ez
                (fexp JS.prec JS.emax (Zpos (digits2_pos S) + ez))) as Hal.
  destruct (shl_align S ez _) as [mz ez'].
  destruct Hal as [Hle [Hdig [Hval Hmin]]].
  rewrite fexp_eq in Hmin. rewrite HdS in Hmin, Hdig.
  replace (dv - ez + ez) with dv in Hmin, Hdig by lia.
  assert (Hez' : ez' <= dv - 53) by lia.
  assert (Hmz : Zpos mz = Zpos v * 2 ^ (- ez')).
  { rewrite Hval, HS, <- Z.mul_assoc, <- Z.pow_add_r by lia.
    f_equal. f_equal. lia. }
  assert (HL : Located (shr_record_of_loc (Zpos mz) loc_Exact) (Zpos mz) 1).
  { exists 0. cbn [shr_record_of_loc shr_m loc_of_shr_record].
    split; [lia|]. split; [lia|]. reflexivity. }
  destruct (binary_round_aux_nearest s (Zpos mz) ez' loc_Exact (Zpos mz) 1
              ltac:(lia) ltac:(lia) HL) as [m1 [_ [_ [_ [Hex Hres]]]]].
  cbv zeta in Hex, Hres. rewrite fexp_eq in Hex, Hres.
  cbn [Zdigits2] in Hex, Hres.
  replace (Z.max ez' (Z.max (Zpos (digits2_pos mz) + ez' - 53) (-1074)))
    with (dv - 53) in Hex, Hres by lia.
  rewrite Hres. clear Hres HL.
  set (T := 2 ^ (dv - 53 - ez')) in *.
  assert (HT : 0 < T) by (apply Z.pow_pos_nonneg; lia).
  assert (Hsplit : Zpos mz = Zpos v * 2 ^ (53 - dv) * T).
  { rewrite Hmz. unfold T. rewrite <- Z.mul_assoc, <- Z.pow_add_r by lia.
    f_equal. f_equal. lia. }
  assert (Hq : Zpos mz / T = Zpos v * 2 ^ (53 - dv)).
  { rewrite Hsplit. apply Z.div_mul. lia. }
  rewrite Hq in Hex.
  assert (Hm1 : m1 = Zpos v * 2 ^ (53 - dv)) by (apply Hex; lia).
  assert (Hiter : Zpos (Pos.iter xO v (53 - digits2_pos v))
                  = Zpos v * 2 ^ (53 - dv)).
  { rewrite iter_xO_value. f_equal. f_equal. unfold dv. lia. }
  rewrite Hm1, <- Hiter. cbn [roundResult].
  assert (Hlt : Zpos (Pos.iter xO v (53 - digits2_pos v)) < 9007199254740992).
  { rewrite Hiter.
    assert (H53 : 9007199254740992 = 2 ^ dv * 2 ^ (53 - dv)).
    { rewrite <- Z.pow_add_r by lia.
      replace (dv + (53 - dv)) with 53 by lia. reflexivity. }
    rewrite H53. apply Z.mul_lt_mono_pos_r; [|lia].
    apply Z.pow_pos_nonneg; lia. }
  destruct (Z.eqb_spec (Zpos (Pos.iter xO v (53 - digits2_pos v)))
                       9007199254740992) as [E | _]; [lia|].
  destruct (Z.leb_spec (dv - 53) 971); [reflexivity | lia].
Qed.

(** The sum of two positive integers, when it has fewer than 53 digits. *)
Lemma add_intNumber (a c : positive) :
  Zpos a + Zpos c < 2 ^ 52 ->
  JS.add (intNumber false a) (intNumber false c) = intNumber false (a + c).
Proof.
  intros Hb.
  assert (Ha : Zpos a < 2 ^ 52) by lia.
  assert (Hc : Zpos c < 2 ^ 52) by lia.
  pose proof (digits2_pos_bound a 52 ltac:(lia) Ha) as Hda.
  pose proof (digits2_pos_bound c 52 ltac:(lia) Hc) as Hdc.
  unfold JS.add, SFadd, intNumber. cbn [cond_Zopp].
  set (da := Zpos (digits2_pos a)) in *.
  set (dc := Zpos (digits2_pos c)) in *.
  assert (Hda1 : 1 <= da) by (unfold da; lia).
  assert (Hdc1 : 1 <= dc) by (unfold dc; lia).
  set (ez := Z.min (da - 53) (dc - 53)).
  pose proof (shl_align_spec (Pos.iter xO a (53 - digits2_pos a)) (da - 53) ez)
    as H1.
  pose proof (shl_align_spec (Pos.iter xO c (53 - digits2_pos c)) (dc - 53) ez)
    as H2.
  destruct (shl_align (Pos.iter xO a (53 - digits2_pos a)) (da - 53) ez)
    as [m1 e1].
  destruct (shl_align (Pos.iter xO c (53 - digits2_pos c)) (dc - 53) ez)
    as [m2 e2].
  cbn [fst]. destruct H1 as [_ [_ [V1 X1]]]. destruct H2 as [_ [_ [V2 X2]]].
  assert (E1 : e1 = ez) by (unfold ez in *; lia).
  assert (E2 : e2 = ez) by (unfold ez in *; lia).
  clear X1 X2. subst e1 e2.
  rewrite iter_xO_value in V1, V2.
  replace (Zpos (53 - digits2_pos a)) with (53 - da) in V1
    by (unfold da in *; lia).
  replace (Zpos (53 - digits2_pos c)) with (53 - dc) in V2
    by (unfold dc in *; lia).
  assert (Hez : ez <= 0) by (unfold ez; lia).
  assert (W1 : Zpos m1 = Zpos a * 2 ^ (- ez)).
  { rewrite V1, <- Z.mul_assoc, <- Z.pow_add_r by (unfold ez; lia).
    f_equal. f_equal. lia. }
  assert (W2 : Zpos m2 = Zpos c * 2 ^ (- ez)).
  { rewrite V2, <- Z.mul_assoc, <- Z.pow_add_r by (unfold ez; lia).
    f_equal. f_equal. lia. }
  change (Zpos m1 + Zpos m2) with (Zpos (m1 + m2)).
  cbn [binary_normalize].
  apply binary_round_integer; [exact Hez | | rewrite Pos2Z.inj_add; exact Hb].
  rewrite !Pos2Z.inj_add, W1, W2. ring.
Qed.

Lemma truncate_intNumber (v : positive) :
  Zpos v < 2 ^ 52 -> JS.truncate (intNumber false v) = Zpos v.
Proof.
  intros Hv. pose proof (digits2_pos_bound v 52 ltac:(lia) Hv) as Hd.
  unfold JS.truncate, intNumber.
  destruct (Z.leb_spec 0 (Zpos (digits2_pos v) - 53)); [lia|].
  cbn [cond_Zopp]. rewrite iter_xO_value.
  replace (- (Zpos (digits2_pos v) - 53)) with (Zpos (53 - digits2_pos v))
    by lia.
  apply Z.quot_mul. apply Z.pow_nonzero; lia.
Qed.

(** While the seed stays below 2^52 the addition [seed += 0x6D2B79F5] is
    exact, and the 32-bit operations read the sum. *)
Lemma seed_step_exact (s : Z) :
  0 <= s -> s + 0x6D2B79F5 < 2 ^ 52 ->
  JS.add (JS.ofZ s) (JS.ofZ 0x6D2B79F5) = JS.ofZ (s + 0x6D2B79F5)
  /\ JS.truncate (JS.ofZ (s + 0x6D2B79F5)) = s + 0x6D2B79F5.
Proof.
  intros Hs Hb.
  assert (Hk : JS.ofZ 0x6D2B79F5 = intNumber false 1831565813)
    by (vm_compute; reflexivity).
  assert (Hsum : JS.ofZ (s + 0x6D2B79F5)
                 = intNumber false (Z.to_pos (s + 0x6D2B79F5))).
  { rewrite (ofZ_intNumber (s + 0x6D2B79F5)) by lia.
    destruct (Z.ltb_spec (s + 0x6D2B79F5) 0); [lia|].
    f_equal. f_equal. lia. }
  split.
  - destruct (Z.eq_dec s 0) as [-> | Hne].
    + vm_compute. reflexivity.
    + rewrite Hsum, Hk, (ofZ_intNumber s Hne) by lia.
      destruct (Z.ltb_spec s 0); [lia|].
      rewrite add_intNumber by lia. f_equal. lia.
  - rewrite Hsum, truncate_intNumber by lia. lia.
Qed.

(** While the seed stays below 2^52 the value a call returns depends on
    the seed modulo 2^32 only. *)
Lemma mulberry32_congruent (s1 s2 : Z) :
  0 <= s1 -> 0 <= s2 ->
  s1 + 0x6D2B79F5 < 2 ^ 52 -> s2 + 0x6D2B79F5 < 2 ^ 52 ->
  s1 mod 2 ^ 32 = s2 mod 2 ^ 32 ->
  fst (mulberry32 (JS.ofZ s1)) = fst (mulberry32 (JS.ofZ s2))
  /\ snd (mulberry32 (JS.ofZ s1)) = JS.ofZ (s1 + 0x6D2B79F5)
  /\ snd (mulberry32 (JS.ofZ s2)) = JS.ofZ (s2 + 0x6D2B79F5).
Proof.
  intros H1 H2 B1 B2 H.
  destruct (seed_step_exact s1 H1 B1) as [A1 T1].
  destruct (seed_step_exact s2 H2 B2) as [A2 T2].
  assert (Hc : (s1 + 0x6D2B79F5) mod 2 ^ 32 = (s2 + 0x6D2B79F5) mod 2 ^ 32).
  { rewrite (Z.add_mod s1), (Z.add_mod s2), H by lia. reflexivity. }
  pose proof (ToInt32_congruent _ _ Hc) as Hi.
  unfold mulberry32. cbv zeta. cbn [fst snd].
  rewrite A1, A2, T1, T2.
  split; [|split; reflexivity].
  unfold JS.xor, JS.or, JS.ushr, JS.Math_imul, JS.ToUint32.
  rewrite Hi, Hc. reflexivity.
Qed.

Lemma rngSequence_congruent (n : nat) (s1 s2 : Z) :
  0 <= s1 -> 0 <= s2 ->
  s1 + Z.of_nat n * 0x6D2B79F5 < 2 ^ 52 ->
  s2 + Z.of_nat n * 0x6D2B79F5 < 2 ^ 52 ->
  s1 mod 2 ^ 32 = s2 mod 2 ^ 32 ->
  rngSequence n (createRng s1) = rngSequence n (createRng s2).
Proof.
  unfold createRng. revert s1 s2.
  induction n as [|n IH]; intros s1 s2 H1 H2 B1 B2 H; [reflexivity|].
  cbn [rngSequence]. unfold rng.
  rewrite Nat2Z.inj_succ in B1, B2.
  destruct (mulberry32_congruent s1 s2 H1 H2 ltac:(lia) ltac:(lia) H)
    as [Hu [Hs1 Hs2]].
  destruct (mulberry32 (JS.ofZ s1)) as [u1 r1],
           (mulberry32 (JS.ofZ s2)) as [u2 r2].
  cbn [fst snd] in Hu, Hs1, Hs2. subst u2 r1 r2. f_equal.
  apply IH; try lia.
  rewrite (Z.add_mod s1), (Z.add_mod s2), H by lia. reflexivity.
Qed.

(** C4 (as amended).  The values of a random source are determined by the
    number that seeds it, each in [0, 1): seeds that are the same number
    give the same sequence.  While the running seed stays below 2^52 the
    sequence depends on the seed as a 32-bit integer only; beyond 2^53 the
    addition to the seed rounds and it does not (the seeds 0 and 2^53 agree
    as 32-bit integers and differ in the first value).  Two runs of the
    generator with the same inputs and the same seed (the first clock
    reading) produce the same progress messages and datasets that agree in
    every field but the identifier, which carries the clock reading taken
    when the event is built; when all clock readings agree the two runs
    produce the same dataset. *)
Theorem generator_is_deterministic :
  (forall n s1 s2,
     JS.ofZ s1 = JS.ofZ s2 ->
     rngSequence n (createRng s1) = rngSequence n (createRng s2))
  /\ (forall n s1 s2,
        0 <= s1 -> 0 <= s2 ->
        s1 + Z.of_nat n * 0x6D2B79F5 < 2 ^ 52 ->
        s2 + Z.of_nat n * 0x6D2B79F5 < 2 ^ 52 ->
        s1 mod 2 ^ 32 = s2 mod 2 ^ 32 ->
        rngSequence n (createRng s1) = rngSequence n (createRng s2))
  /\ (0 mod 2 ^ 32 = 2 ^ 53 mod 2 ^ 32
      /\ fst (mulberry32 (createRng 0)) = 1144304738
      /\ fst (mulberry32 (createRng (2 ^ 53))) = 3850105811)
  /\ (forall n s x,
        In x (rngSequence n (createRng s)) ->
        SFleb (JS.ofZ 0) x = true /\ SFltb x (JS.ofZ 1) = true)
  /\ (forall count startTime endTime clock1 clock2,
        clock1 O = clock2 O ->
        sameButIds (generateEvents count startTime endTime clock1)
                   (generateEvents count startTime endTime clock2))
  /\ (forall count startTime endTime clock1 clock2,
        (forall k, clock1 k = clock2 k) ->
        generateEvents count startTime endTime clock1
        = generateEvents count startTime endTime clock2).
Proof.
  split; [intros n s1 s2 H; unfold createRng; rewrite H; reflexivity|].
  split; [exact rngSequence_congruent|].
  split; [split; [reflexivity|split; vm_compute; reflexivity]|].
  split; [intros n s x; apply rngSequence_range|].
  split.
  - intros count startTime endTime clock1 clock2 Hseed.
    destruct (Z.lt_ge_cases count 0) as [Hneg | Hpos];
      [|destruct (Z.lt_ge_cases count (2 ^ 32)) as [Hlt | Hge]].
    + rewrite !generateEvents_throws by lia. reflexivity.
    + rewrite !generateEvents_unfold by lia. rewrite <- Hseed.
      destruct (generateLoop_clock (Z.to_nat count) 0 count startTime
                  (endTime - startTime) clock1 clock2 (createRng (clock1 O)))
        as [He Hp].
      cbn [sameButIds]. split; [|exact Hp].
      rewrite !(Array_sort_map eraseId compareEvents compareEvents
                  compareEvents_eraseId).
      rewrite He. reflexivity.
    + rewrite !generateEvents_throws by lia. reflexivity.
  - intros count startTime endTime clock1 clock2 H.
    unfold generateEvents. rewrite (H O).
    rewrite (generateLoop_ext _ _ _ _ _ clock1 clock2 _ H). reflexivity.
Qed.

(** The seeds 5 and 5 + 2^32 satisfy the hypotheses of the second part of
    C4: they give the same first three values. *)
Lemma random_source_of_equal_32bit_seeds :
  rngSequence 3 (createRng 5) = rngSequence 3 (createRng (5 + 2 ^ 32)).
Proof.
  apply (proj1 (proj2 generator_is_deterministic) 3%nat 5 (5 + 2 ^ 32));
    [lia | lia | reflexivity | reflexivity | reflexivity].
Defined.

(** C4 fails as stated: two runs with the same inputs and the same seed,
    one under a clock that stands still and one under a clock that advances
    between the seeding and the first event, produce different datasets:
    the identifiers differ. *)
Lemma same_seed_different_datasets :
  frozenClock 1700000000000 O = tickingClock 1700000000000 O
  /\ eventIds (generateEvents 1 0 3600000 (frozenClock 1700000000000))
     = ["evt_0_loyw3v28"%string]
  /\ eventIds (generateEvents 1 0 3600000 (tickingClock 1700000000000))
     = ["evt_0_loyw3v29"%string]
  /\ generateEvents 1 0 3600000 (frozenClock 1700000000000)
     <> generateEvents 1 0 3600000 (tickingClock 1700000000000).
Proof.
  assert (H1 : eventIds (generateEvents 1 0 3600000 (frozenClock 1700000000000))
               = ["evt_0_loyw3v28"%string]) by (vm_compute; reflexivity).
  assert (H2 : eventIds (generateEvents 1 0 3600000 (tickingClock 1700000000000))
               = ["evt_0_loyw3v29"%string]) by (vm_compute; reflexivity).
  split; [reflexivity|]. split; [exact H1|]. split; [exact H2|].
  intros E. rewrite E, H2 in H1. discriminate.
Qed.
